(** * cisco.ios cliconf plugin (plugins/cliconf/ios.py): model and properties

    A shallow embedding of the [Cliconf] class: the configuration diff
    ([get_diff], [_extract_banners], [_diff_banners]) and the session
    protocol ([configure], [edit_config], [edit_macro], [run_commands]).

    Python [str] values are lists of characters ([list ascii], code points
    below 256); dictionaries are [gmap]s; the device session is a state and
    error monad over the list of requests sent so far. *)

From Stdlib Require Import List Ascii String ZArith Lia Bool.
From stdpp Require Import base option list gmap strings pretty.
Import ListNotations.

Local Open Scope list_scope.
Local Open Scope nat_scope.

(** ** Python strings *)

Abbreviation str := (list ascii) (only parsing).

(** [txt "abc"] is the Python literal ["abc"]. *)
Definition txt (s : string) : str := list_ascii_of_string s.

Definition nl : ascii := ascii_of_nat 10.

Definition code (c : ascii) : nat := nat_of_ascii c.

Definition between (lo hi n : nat) : bool := (lo <=? n) && (n <=? hi).

(** [str.isspace] on one character; also the class [\s] of [re]. *)
Definition is_space (c : ascii) : bool :=
  let n := code c in
  between 9 13 n || between 28 32 n || (n =? 133) || (n =? 160).

Definition is_digit (c : ascii) : bool := between 48 57 (code c).

(** The class [\w] of [re] on [str] patterns: alphanumeric or underscore. *)
Definition is_word (c : ascii) : bool :=
  let n := code c in
  between 48 57 n || between 65 90 n || between 97 122 n || (n =? 95)
  || (n =? 170) || (n =? 178) || (n =? 179) || (n =? 181)
  || between 185 186 n || between 188 190 n
  || between 192 214 n || between 216 246 n || between 248 255 n.

Definition is_nl (c : ascii) : bool := code c =? 10.

(** [.] without [re.S], and with it. *)
Definition dot (c : ascii) : bool := negb (is_nl c).
Definition dot_all (c : ascii) : bool := true.

Definition str_eqb (a b : str) : bool := bool_decide (a = b).

(** [s.startswith(p)]: the rest of [s] after [p], when [p] is a prefix. *)
Fixpoint strip_prefix (p s : str) : option str :=
  match p, s with
  | [], _ => Some s
  | a :: p', b :: s' => if bool_decide (a = b) then strip_prefix p' s' else None
  | _ :: _, [] => None
  end.

Definition startswith (s p : str) : bool :=
  match strip_prefix p s with Some _ => true | None => false end.

(** [p in s] on strings: [p] occurs in [s] as a substring. *)
Fixpoint contains (s p : str) : bool :=
  startswith s p ||
  match s with
  | [] => false
  | _ :: s' => contains s' p
  end.

Fixpoint drop_ws (s : str) : str :=
  match s with
  | c :: s' => if is_space c then drop_ws s' else s
  | [] => []
  end.

Definition lstrip (s : str) : str := drop_ws s.
Definition rstrip (s : str) : str := rev (drop_ws (rev s)).
Definition strip (s : str) : str := rstrip (lstrip s).

(** [s.split("\n")]: always at least one piece. *)
Fixpoint split_lines (s : str) : list str :=
  match s with
  | [] => [[]]
  | c :: s' =>
      if is_nl c then [] :: split_lines s'
      else match split_lines s' with
           | l :: ls => (c :: l) :: ls
           | [] => [[c]]
           end
  end.

(** [sep.join(xs)]. *)
Fixpoint join (sep : str) (xs : list str) : str :=
  match xs with
  | [] => []
  | [x] => x
  | x :: xs' => x ++ sep ++ join sep xs'
  end.

(** [s.replace(old, new)] for a non-empty [old]; [skip] characters of a
    replaced occurrence are still to be passed over. *)
Fixpoint replace_go (old new : str) (skip : nat) (s : str) : str :=
  match skip, s with
  | S k, _ :: s' => replace_go old new k s'
  | S _, [] => []
  | 0, [] => []
  | 0, c :: s' =>
      if startswith s old then new ++ replace_go old new (length old - 1) s'
      else c :: replace_go old new 0 s'
  end.

Definition replace (s old new : str) : str := replace_go old new 0 s.

(** ** Regular expressions

    The patterns of the module, as syntax trees run by a backtracking
    matcher with the priorities of Python's [re]: alternatives are tried
    left to right, greedy repetition tries one more iteration first, lazy
    repetition tries to stop first. *)

Inductive regex : Type :=
| Eps                                   (* empty pattern *)
| Chr (p : ascii -> bool)               (* one character of a class *)
| Lit (s : str)                         (* literal text *)
| Seq (a b : regex)                     (* ab *)
| Opt (a : regex)                       (* a? *)
| Rep (greedy : bool) (a : regex)       (* a* and a*? *)
| Grp (i : nat) (a : regex)             (* capturing group number i *)
| Bol                                   (* ^ under re.M *)
| Ahead (a : regex).                    (* (?=a) *)

Definition Plus (greedy : bool) (a : regex) : regex := Seq a (Rep greedy a).

(** Matching state: the character before the current position ([None] at
    the start of the text), the text still ahead, the groups closed so far. *)
Record mstate : Type := MState {
  prev : option ascii;
  rest : str;
  caps : list (nat * str)
}.

Definition last_of (s : str) (d : option ascii) : option ascii :=
  match rev s with c :: _ => Some c | [] => d end.

Definition at_bol (st : mstate) : bool :=
  match prev st with None => true | Some c => is_nl c end.

Definition shorter (a b : mstate) : bool := length (rest a) <? length (rest b).

Definition consumed (before after : str) : str :=
  take (length before - length after) before.

(** The loop of a repetition: [step] matches the repeated pattern once,
    [k] is what follows the repetition.  An iteration has to take at least
    one character, so the length of the text ahead bounds their number. *)
Section Repetition.

Variable R : Type.
Variable step : mstate -> (mstate -> option R) -> option R.
Variable greedy : bool.
Variable k : mstate -> option R.

Fixpoint rep_loop (n : nat) (st : mstate) {struct n} : option R :=
  match n with
  | 0 => k st
  | S n' =>
      let again := step st (fun st' => if shorter st' st then rep_loop n' st' else None) in
      if greedy then
        match again with Some x => Some x | None => k st end
      else
        match k st with Some x => Some x | None => again end
  end.

End Repetition.

Fixpoint run (R : Type) (r : regex) (st : mstate) (k : mstate -> option R) {struct r}
  : option R :=
  match r with
  | Eps => k st
  | Chr p =>
      match rest st with
      | c :: s => if p c then k (MState (Some c) s (caps st)) else None
      | [] => None
      end
  | Lit l =>
      match strip_prefix l (rest st) with
      | Some s => k (MState (last_of l (prev st)) s (caps st))
      | None => None
      end
  | Seq a b => run R a st (fun st' => run R b st' k)
  | Opt a =>
      match run R a st k with
      | Some x => Some x
      | None => k st
      end
  | Rep greedy a => rep_loop R (run R a) greedy k (length (rest st)) st
  | Grp i a =>
      run R a st (fun st' =>
        k (MState (prev st') (rest st') ((i, consumed (rest st) (rest st')) :: caps st')))
  | Bol => if at_bol st then k st else None
  | Ahead a =>
      match run mstate a st Some with
      | Some _ => k st
      | None => None
      end
  end.

(** A match object: the matched text, the groups, and the text after it. *)
Record rmatch : Type := RMatch {
  m_text : str;
  m_caps : list (nat * str);
  m_rest : str
}.

(** [m.group(i)], with [""] for a group that took no part in the match. *)
Fixpoint assoc_cap (i : nat) (cs : list (nat * str)) : option str :=
  match cs with
  | [] => None
  | (j, s) :: cs' => if i =? j then Some s else assoc_cap i cs'
  end.

Definition group (m : rmatch) (i : nat) : str := default [] (assoc_cap i (m_caps m)).

(** The match of [r] starting exactly at the current position. *)
Definition match_at (r : regex) (pv : option ascii) (s : str) : option rmatch :=
  run rmatch r (MState pv s [])
    (fun st => Some (RMatch (consumed s (rest st)) (caps st) (rest st))).

(** [re.match]: at the start of the text only. *)
Definition re_match (r : regex) (s : str) : bool :=
  match match_at r None s with Some _ => true | None => false end.

(** [re.search]: the leftmost match. *)
Fixpoint search_go (r : regex) (pv : option ascii) (s : str) : option rmatch :=
  match match_at r pv s with
  | Some m => Some m
  | None =>
      match s with
      | [] => None
      | c :: s' => search_go r (Some c) s'
      end
  end.

Definition re_search (r : regex) (s : str) : option rmatch := search_go r None s.

(** [re.finditer]: the non-overlapping matches, left to right; after an
    empty match the scan moves one character on. *)
Fixpoint matches_go (r : regex) (pv : option ascii) (skip : nat) (s : str) : list rmatch :=
  match skip with
  | S k =>
      match s with
      | [] => []
      | c :: s' => matches_go r (Some c) k s'
      end
  | 0 =>
      match match_at r pv s with
      | Some m =>
          m :: match s with
               | [] => []
               | c :: s' => matches_go r (Some c) (length (m_text m) - 1) s'
               end
      | None =>
          match s with
          | [] => []
          | c :: s' => matches_go r (Some c) 0 s'
          end
      end
  end.

Definition re_finditer (r : regex) (s : str) : list rmatch := matches_go r None 0 s.

(** [re.sub(r, repl, s)] for a replacement text without group references. *)
Fixpoint sub_go (r : regex) (repl : str) (pv : option ascii) (skip : nat) (s : str) : str :=
  match skip with
  | S k =>
      match s with
      | [] => []
      | c :: s' => sub_go r repl (Some c) k s'
      end
  | 0 =>
      match match_at r pv s with
      | Some m =>
          repl ++ match s with
                  | [] => []
                  | c :: s' =>
                      (if length (m_text m) =? 0 then [c] else [])
                      ++ sub_go r repl (Some c) (length (m_text m) - 1) s'
                  end
      | None =>
          match s with
          | [] => []
          | c :: s' => c :: sub_go r repl (Some c) 0 s'
          end
      end
  end.

Definition re_sub (r : regex) (repl s : str) : str := sub_go r repl None 0 s.

(** ** Errors *)

(** An [AnsibleConnectionFailure]: its message and, when the raiser set
    one, its [err] attribute. *)
Record failure : Type := Failure {
  message : str;
  err : option str
}.

Inductive exn : Type :=
| ValueError (msg : str)
| IndexError (msg : str)
| KeyError (key : str)
| TypeError (msg : str)
| AnsibleConnectionFailure (f : failure)
| OutOfFuel.   (* no Python error: a recursion bound of the model was reached *)

Definition result (A : Type) : Type := exn + A.

Definition bind {A B : Type} (r : result A) (f : A -> result B) : result B :=
  match r with
  | inl e => inl e
  | inr a => f a
  end.

Declare Scope res_scope.
Delimit Scope res_scope with res.
Notation "x <- e ;; k" := (bind e (fun x => k))
  (at level 100, e at next level, right associativity) : res_scope.
Local Open Scope res_scope.

Definition is_ValueError {A} (r : result A) : bool :=
  match r with inl (ValueError _) => true | _ => false end.

Definition is_IndexError {A} (r : result A) : bool :=
  match r with inl (IndexError _) => true | _ => false end.

(** ** NetworkConfig and ConfigLine

    Modelled from the spec: the classes [NetworkConfig] and [ConfigLine] and
    the function [dumps] come from the ansible.netcommon collection
    (module_utils/network/common/config.py), which ios.py imports and which
    is not part of this repository.  They are the ConfigTree of the spec
    (3, 4.1): a stack-based indentation parser that drops blank and ignored
    lines, lines compared by their text together with their parent path,
    and [get_block] resolving a path of line texts.  The block of a path is
    taken as [get_diff] consumes it: the line the path names followed by
    its descendants in document order, a line equal to one already
    collected being passed over.

    Objects are numbered by their place in the parsed list, so that the
    [_parents] and [_children] of a line are references into the same
    tree. *)
Module NetworkConfig.

Record ConfigLine : Type := ConfigLine_ {
  raw : str;
  text : str;
  _parents : list nat;
  _children : list nat
}.

Abbreviation tree := (list ConfigLine) (only parsing).

(** [ConfigLine.parents]: the texts of the ancestors, root first. *)
Definition parents (t : tree) (c : ConfigLine) : list str :=
  omap (fun i => text <$> t !! i) (_parents c).

(** [ConfigLine.line]: parent path and text, joined by single spaces. *)
Definition line (t : tree) (c : ConfigLine) : str :=
  join (txt " ") (parents t c ++ [text c]).

Definition has_children (c : ConfigLine) : bool :=
  negb (length (_children c) =? 0).

Definition has_parents (c : ConfigLine) : bool :=
  negb (length (_parents c) =? 0).

(** A line as a caller holds it: the object and the tree it lives in. *)
Definition obj : Type := tree * ConfigLine.

Definition obj_line (o : obj) : str := line (fst o) (snd o).
Definition obj_parents (o : obj) : list str := parents (fst o) (snd o).
Definition obj_text (o : obj) : str := text (snd o).
Definition obj_raw (o : obj) : str := raw (snd o).

(** [__eq__], and [x in xs] with it. *)
Definition obj_eqb (a b : obj) : bool := str_eqb (obj_line a) (obj_line b).
Definition obj_in (a : obj) (xs : list obj) : bool := existsb (obj_eqb a) xs.

Definition DEFAULT_COMMENT_TOKENS : list str :=
  [txt "#"; txt "!"; txt "/*"; txt "*/"; txt "echo"].

(** The three patterns [DEFAULT_IGNORE_LINES_RE] starts with. *)
Definition DEFAULT_IGNORE_LINES_RE : list regex :=
  [ Seq (Lit (txt "Using ")) (Seq (Plus true (Chr is_digit))
      (Seq (Lit (txt " out of ")) (Seq (Plus true (Chr is_digit)) (Lit (txt " bytes")))));
    Lit (txt "Building configuration");
    Seq (Lit (txt "Current configuration : ")) (Seq (Plus true (Chr is_digit)) (Lit (txt " bytes"))) ].

(** [ignore_line(text)] with the ignore patterns [G] in force. *)
Definition ignore_line (G : list regex) (s : str) : bool :=
  existsb (startswith s) DEFAULT_COMMENT_TOKENS || existsb (fun r => re_match r s) G.

(** [entry_reg.sub("", line)]: braces and semicolons removed. *)
Definition entry_chr (c : ascii) : bool :=
  let n := code c in (n =? 123) || (n =? 125) || (n =? 59).

Definition drop_entry (s : str) : str := List.filter (fun c => negb (entry_chr c)) s.

(** [toplevel.match(line)]: the line starts with a non-space character. *)
Definition toplevel (s : str) : bool :=
  match s with c :: _ => negb (is_space c) | [] => false end.

(** [match.start(1)] of [childline]: the number of leading spaces. *)
Definition line_indent (s : str) : nat := length s - length (lstrip s).

Record pstate : Type := PState {
  ancestors : list nat;
  indents : list nat;
  config : tree
}.

Definition last_indent (ind : list nat) : nat := List.last ind 0.

(** [while indents[-1] > line_indent: indents.pop()]. *)
Fixpoint pop_indents (fuel : nat) (ind : list nat) (li : nat) : list nat :=
  match fuel with
  | 0 => ind
  | S n => if li <? last_indent ind then pop_indents n (removelast ind) li else ind
  end.

Definition add_child (t : tree) (p c : nat) : tree :=
  alter (fun o => ConfigLine_ (raw o) (text o) (_parents o) (_children o ++ [c])) p t.

(** One turn of the loop of [parse]. *)
Definition parse_line (G : list regex) (st : pstate) (l : str) : pstate :=
  let t := strip (drop_entry l) in
  if (length t =? 0) || ignore_line G t then st
  else
    let id := length (config st) in
    if toplevel l then
      PState [id] [0] (config st ++ [ConfigLine_ l (strip l) [] []])
    else
      let li := line_indent l in
      let ind1 := pop_indents (length (indents st)) (indents st) li in
      let ind2 := if last_indent ind1 <? li then ind1 ++ [li] else ind1 in
      let curlevel := length ind2 - 1 in
      let parent_level := curlevel - 1 in
      let cfg := ConfigLine_ l (strip l) (take curlevel (ancestors st)) [] in
      if length (ancestors st) <? curlevel then
        PState (ancestors st) ind2 (config st ++ [cfg])
      else
        let anc := take curlevel (ancestors st) ++ [id] in
        let t' := config st ++ [cfg] in
        PState anc ind2
          (match anc !! parent_level with
           | Some p => add_child t' p id
           | None => t'
           end).

Definition parse (G : list regex) (s : str) : tree :=
  config (fold_left (parse_line G) (split_lines s) (PState [] [0] [])).

(** [NetworkConfig(indent=1, contents=s)] with the ignore patterns [G] in
    force once the constructor has added its own: no text, no lines. *)
Definition new (G : list regex) (contents : option str) : tree :=
  match contents with
  | Some s => if length s =? 0 then [] else parse G s
  | None => []
  end.

Definition items (t : tree) : list obj := map (fun c => (t, c)) t.

(** [get_object(path)]: the first line whose text is the last element of
    the path and whose parents are the elements before it. *)
Definition get_object (t : tree) (path : list str) : result (option ConfigLine) :=
  match List.last (map Some path) None with
  | None => inl (IndexError (txt "list index out of range"))
  | Some p =>
      inr (List.find (fun c => str_eqb (text c) p
                               && bool_decide (parents t c = removelast path)) t)
  end.

(** [_expand_block(configobj, S)]; [fuel] bounds the depth of the descent. *)
Fixpoint _expand_block (fuel : nat) (t : tree) (c : ConfigLine) (S : list obj)
  : result (list obj) :=
  match fuel with
  | 0 => inl OutOfFuel
  | Datatypes.S n =>
      fold_left
        (fun acc i =>
           match acc with
           | inr S' =>
               match t !! i with
               | Some child =>
                   if obj_in (t, child) S' then inr S' else _expand_block n t child S'
               | None => inl OutOfFuel
               end
           | inl e => inl e
           end)
        (_children c) (inr (S ++ [(t, c)]))
  end.

Definition expand (t : tree) (c : ConfigLine) : result (list obj) :=
  _expand_block (Datatypes.S (length t)) t c [].

(** [get_block(path)]. *)
Definition get_block (t : tree) (path : list str) : result (list obj) :=
  match get_object t path with
  | inl e => inl e
  | inr None => inl (ValueError (txt "path does not exist in config"))
  | inr (Some c) => expand t c
  end.

(** [dumps(objects, "commands")]. *)
Definition dumps_commands (objects : list obj) : str :=
  join [nl] (map obj_text objects).

Definition resolve (t : tree) (ids : list nat) : list obj :=
  omap (fun i => (fun c => (t, c)) <$> t !! i) ids.

Definition _diff_line (t : tree) (other : list obj) : list obj :=
  List.filter (fun o => negb (obj_in o other)) (items t).

(** A [ConfigLine(parent)] made on the spot, outside any tree. *)
Definition fresh (s : str) : obj := ([], ConfigLine_ s (strip s) [] []).

Definition _diff_strict (t : tree) (other : list obj) : list obj :=
  let other' :=
    match other with
    | start_other :: _ => rev (map fresh (obj_parents start_other)) ++ other
    | [] => other
    end in
  omap (fun '(index, o) =>
          match other' !! index with
          | Some x => if str_eqb (strip (obj_raw o)) (strip (obj_raw x)) then None else Some o
          | None => Some o
          end)
       (imap (fun index o => (index, o)) (items t)).

Definition _diff_exact (t : tree) (other : list obj) : list obj :=
  if negb (length other =? length (items t)) then items t
  else if forallb (fun '(ours, theirs) => obj_eqb ours theirs) (combine (items t) other)
       then [] else items t.

(** The parents collected for [replace == "block"]. *)
Definition block_parents (t : tree) (updates : list obj) : list obj :=
  fold_left
    (fun parents item =>
       if has_parents (snd item) then
         fold_left (fun ps p => if obj_in p ps then ps else ps ++ [p])
                   (resolve t (_parents (snd item))) parents
       else parents ++ [item])
    updates [].

(** The closing loop of [difference]: each update preceded by those of its
    parents whose line was not seen yet. *)
Definition expand_updates (t : tree) (updates : list obj) : list obj :=
  snd (fold_left
         (fun '(visited, expanded) item =>
            let '(visited1, expanded1) :=
              fold_left
                (fun '(v, e) p =>
                   if existsb (str_eqb (obj_line p)) v then (v, e)
                   else (obj_line p :: v, e ++ [p]))
                (resolve t (_parents (snd item))) (visited, expanded) in
            (obj_line item :: visited1, expanded1 ++ [item]))
         updates ([], [])).

(** [self.difference(other, match, path, replace)] for the three match
    modes that have a [_diff_] method. *)
Definition difference (t other : tree) (path : list str) (match_ replace : str)
  : result (list obj) :=
  other_lines <-
    (if negb (length path =? 0) && negb (str_eqb match_ (txt "line")) then
       match get_block other path with
       | inl (ValueError _) => inr []
       | r => r
       end
     else inr (items other)) ;;
  let updates :=
    if str_eqb match_ (txt "line") then _diff_line t other_lines
    else if str_eqb match_ (txt "strict") then _diff_strict t other_lines
    else _diff_exact t other_lines in
  updates' <-
    (if str_eqb replace (txt "block") then
       fold_left
         (fun acc item => u <- acc ;; b <- expand t (snd item) ;; inr (u ++ b))
         (block_parents t updates) (inr [])
     else inr updates) ;;
  inr (expand_updates t updates').

End NetworkConfig.

(** ** The configuration diff of [Cliconf] *)

Module Cliconf.

Import NetworkConfig.

Record device_operations : Type := DeviceOperations {
  supports_diff_replace : bool;
  supports_commit : bool;
  supports_rollback : bool;
  supports_defaults : bool;
  supports_onbox_diff : bool;
  supports_commit_comment : bool;
  supports_multiline_delimiter : bool;
  supports_diff_match : bool;
  supports_diff_ignore_lines : bool;
  supports_generate_diff : bool;
  supports_replace : bool
}.

Definition get_device_operations : device_operations :=
  {| supports_diff_replace := true;
     supports_commit := false;
     supports_rollback := false;
     supports_defaults := true;
     supports_onbox_diff := false;
     supports_commit_comment := false;
     supports_multiline_delimiter := true;
     supports_diff_match := true;
     supports_diff_ignore_lines := true;
     supports_generate_diff := true;
     supports_replace := false |}.

Record option_values : Type := OptionValues {
  format : list str;
  diff_match : list str;
  diff_replace : list str;
  output : list str
}.

Definition get_option_values : option_values :=
  {| format := [txt "text"];
     diff_match := [txt "line"; txt "strict"; txt "exact"; txt "none"];
     diff_replace := [txt "line"; txt "block"];
     output := [] |}.

(** [x in xs] for a list of strings. *)
Definition str_in (x : str) (xs : list str) : bool := existsb (str_eqb x) xs.

(** [cand_pattern] under [re.M]: the group [parent], "^\w.*\n?", then the
    group [child], any number of "\s+.*\n?". *)
Definition cand_pattern : regex :=
  Seq (Grp 1 (Seq Bol (Seq (Chr is_word) (Seq (Rep true (Chr dot)) (Opt (Lit [nl]))))))
      (Grp 2 (Rep true (Seq (Plus true (Chr is_space))
                           (Seq (Rep true (Chr dot)) (Opt (Lit [nl])))))).

(** The pattern "^banner (\w+)" under [re.M]. *)
Definition banner_decl : regex :=
  Seq Bol (Seq (Lit (txt "banner ")) (Grp 1 (Plus true (Chr is_word)))).

(** The pattern "banner %s \^C(.+?)(?=\^C)" under [re.S], for the banner
    name [cmd]. *)
Definition banner_body (cmd : str) : regex :=
  Seq (Lit (txt "banner ")) (Seq (Lit cmd) (Seq (Lit (txt " ^C"))
    (Seq (Grp 1 (Plus false (Chr dot_all))) (Ahead (Lit (txt "^C")))))).

(** The pattern "banner \w+ \^C\^C". *)
Definition banner_pair : regex :=
  Seq (Lit (txt "banner ")) (Seq (Plus true (Chr is_word)) (Lit (txt " ^C^C"))).

Definition banner_key (cmd : str) : str := txt "banner " ++ cmd.

Definition _extract_banners (config : str) : str * gmap str str :=
  let banner_cmds := map (fun m => group m 1) (re_finditer banner_decl config) in
  let banners :=
    fold_left
      (fun (banners : gmap str str) cmd =>
         match re_search (banner_body cmd) config with
         | Some m => <[banner_key cmd := strip (group m 1)]> banners
         | None => banners
         end)
      banner_cmds ∅ in
  let config1 :=
    fold_left
      (fun config cmd =>
         match re_search (banner_body cmd) config with
         | Some m => replace config (group m 1) []
         | None => config
         end)
      banner_cmds config in
  (re_sub banner_pair (txt "!! banner removed") config1, banners).

Definition _diff_banners (want have : gmap str str) : gmap str str :=
  filter (fun kv => have !! (fst kv) <> Some (snd kv)) want.

Record diff : Type := Diff {
  config_diff : str;
  banner_diff : gmap str str
}.

(** The parent texts a diff line is prefixed with: [f"{i}\n"] for each. *)
Definition context (ps : list str) : str := concat (map (fun i => i ++ [nl]) ps).

(** One turn of [for line in have_lines]. *)
Definition negate_line (want_lines : list obj) (acc : str * list str) (l : obj)
  : str * list str :=
  let '(negates, negated_parents) := acc in
  if obj_in l want_lines then acc
  else
    let negates1 :=
      negates ++ context (List.filter
                            (fun i => negb (contains negates i) && negb (str_in i negated_parents))
                            (obj_parents l)) in
    let negated_parents1 :=
      if has_children (snd l) then negated_parents ++ [obj_text l] else negated_parents in
    if negb (startswith (strip (obj_text l)) (txt "no ")) then
      (negates1 ++ txt "no " ++ obj_raw l ++ [nl], negated_parents1)
    else
      (negates1 ++ obj_raw l ++ [nl], negated_parents1).

(** One turn of [for line in want_lines]. *)
Definition want_line (have_lines : list obj) (wants : str) (l : obj) : str :=
  if obj_in l have_lines then wants
  else
    (wants ++ context (List.filter (fun i => negb (contains wants i)) (obj_parents l)))
    ++ obj_raw l ++ [nl].

Definition add_ignore (G ignore_lines : list regex) : list regex := G ++ ignore_lines.

(** One turn of [for _candidate in candidates]: the ignore patterns in
    force and the text gathered so far go in and come out. *)
Definition section_diff (running : option str) (diff_ignore_lines : list regex)
    (acc : list regex * str) (m : rmatch) : result (list regex * str) :=
  let '(G, config_diff) := acc in
  let path := [strip (group m 1)] in
  let _candidate := group m 1 ++ group m 2 in
  let _candidate_obj := parse G _candidate in
  let G1 := add_ignore G diff_ignore_lines in
  let running_obj := new G1 running in
  have_lines <-
    match get_block running_obj path with
    | inl (ValueError _) => inr []
    | r => r
    end ;;
  want_lines <- get_block _candidate_obj path ;;
  let negates := fst (fold_left (negate_line want_lines) have_lines ([], [])) in
  let wants := fold_left (want_line have_lines) want_lines [] in
  inr (G1, (config_diff ++ negates) ++ wants).

Definition invalid_match (m : str) : exn :=
  ValueError (txt "'match' value " ++ m ++ txt " in invalid, valid values are "
              ++ join (txt ", ") (diff_match get_option_values)).

Definition invalid_replace (r : str) : exn :=
  ValueError (txt "'replace' value " ++ r ++ txt " in invalid, valid values are "
              ++ join (txt ", ") (diff_replace get_option_values)).

(** [get_diff(candidate, running, diff_match, diff_ignore_lines, path,
    diff_replace)]; [G] is the content of the ignore patterns when the
    call starts, an absent [path] or [diff_ignore_lines] is the empty
    list. *)
Definition get_diff (G : list regex) (candidate running : option str) (diff_match_ : str)
    (diff_ignore_lines : list regex) (path : list str) (diff_replace_ : str)
  : result diff :=
  match candidate with
  | None =>
      if supports_generate_diff get_device_operations then
        inl (ValueError (txt "candidate configuration is required to generate diff"))
      else inl (TypeError (txt "expected string or bytes-like object"))
  | Some candidate0 =>
      if negb (str_in diff_match_ (diff_match get_option_values)) then
        inl (invalid_match diff_match_)
      else if negb (str_in diff_replace_ (diff_replace get_option_values)) then
        inl (invalid_replace diff_replace_)
      else
        let candidate := re_sub (Lit [nl; nl]) [nl] candidate0 in
        let candidates := re_finditer cand_pattern candidate in
        if negb (length candidates =? 0) && (length path =? 0)
           && str_eqb diff_match_ (txt "exact") then
          r <- fold_left (fun acc m => a <- acc ;; section_diff running diff_ignore_lines a m)
                         candidates (inr (G, [])) ;;
          inr (Diff (rstrip (snd r)) ∅)
        else
          let '(want_src, want_banners) := _extract_banners candidate in
          let candidate_obj := parse G want_src in
          let running_text := default [] running in
          if negb (length running_text =? 0) && negb (str_eqb diff_match_ (txt "none")) then
            let '(have_src, have_banners) := _extract_banners running_text in
            let running_obj := new (add_ignore G diff_ignore_lines) (Some have_src) in
            configdiffobjs <- difference candidate_obj running_obj path diff_match_ diff_replace_ ;;
            inr (Diff (dumps_commands configdiffobjs) (_diff_banners want_banners have_banners))
          else
            inr (Diff (dumps_commands (items candidate_obj)) (_diff_banners want_banners ∅))
  end.

(** *** The session *)

(** The keyword arguments of [send_command] besides the command. *)
Record send_options : Type := SendOptions {
  prompt : option str;
  answer : option str;
  sendonly : bool;
  newline : bool;
  check_all : bool
}.

Definition default_options : send_options := SendOptions None None false true false.

Record request : Type := Request {
  command : str;
  options : send_options
}.

(** An element of a command list: a plain string, or a mapping with its
    [command] key, the other keyword arguments and, for [run_commands],
    an [output] key. *)
Inductive line : Type :=
| Plain (cmd : str)
| Mapping (cmd : str) (o : send_options) (output : option str).

Definition line_command (l : line) : str :=
  match l with Plain c => c | Mapping c _ _ => c end.

(** [{"command": line}] for a plain string, the mapping itself otherwise. *)
Definition line_request (l : line) : request :=
  match l with
  | Plain c => Request c default_options
  | Mapping c o _ => Request c o
  end.

(** A [candidate] or [commands] argument and [to_list] of it. *)
Inductive arg : Type :=
| ANone
| AOne (l : line)
| AList (ls : list line).

Definition to_list (a : arg) : list line :=
  match a with
  | ANone => []
  | AOne l => [l]
  | AList ls => ls
  end.

(** What the module and the caller share: the requests sent on the
    channel so far, oldest first, and the list object the caller handed
    to [edit_macro]. *)
Record world : Type := World {
  sent : list request;
  caller_list : list str
}.

Definition session (A : Type) : Type := world -> world * result A.

Definition ret {A} (a : A) : session A := fun w => (w, inr a).
Definition raise {A} (e : exn) : session A := fun w => (w, inl e).
Definition sbind {A B} (m : session A) (f : A -> session B) : session B :=
  fun w => match m w with
           | (w', inr a) => f a w'
           | (w', inl e) => (w', inl e)
           end.

Declare Scope session_scope.
Delimit Scope session_scope with session.
Notation "x <- e ;; k" := (sbind e (fun x => k))
  (at level 100, e at next level, right associativity) : session_scope.
Notation "e ;;; k" := (sbind e (fun _ => k))
  (at level 100, right associativity) : session_scope.

(** The options of the plugin and of the connection. *)
Record plugin_options : Type := PluginOptions {
  commit_confirm_immediate : bool;
  commit_confirm_timeout : option Z;
  persistent_command_timeout : Z
}.

(** Truth value of an optional integer: [None] and [0] are false. *)
Definition truthy (o : option Z) : bool :=
  match o with
  | Some z => negb (z =? 0)%Z
  | None => false
  end.

(** The pattern "Archive.*not.enabled". *)
Definition archive_re : regex :=
  Seq (Lit (txt "Archive")) (Seq (Rep true (Chr dot))
    (Seq (Lit (txt "not")) (Seq (Chr dot) (Lit (txt "enabled"))))).

(** The pattern "%No Rollback Confirmed Change pending". *)
Definition rollback_re : regex := Lit (txt "%No Rollback Confirmed Change pending").

Definition found (r : regex) (s : str) : bool :=
  match re_search r s with Some _ => true | None => false end.

(** [str(n)] for an integer. *)
Definition str_of_int (n : Z) : str := txt (pretty n).

(** A [flags] argument of [get_config]: absent, one string, or a list of
    strings. *)
Inductive flags_arg : Type :=
| FNone
| FOne (s : str)
| FList (l : list str).

(** [to_list(flags)] once a false [flags] has become the empty list. *)
Definition flag_list (flags : flags_arg) : list str :=
  match flags with
  | FNone => []
  | FOne [] => []
  | FOne s => [s]
  | FList l => l
  end.

(** Truth value of an optional string: [None] and the empty string are
    false. *)
Definition given (o : option str) : bool :=
  match o with Some (_ :: _) => true | _ => false end.

(** [s.strip(chars)] for the characters of a class. *)
Fixpoint drop_chars (p : ascii -> bool) (s : str) : str :=
  match s with
  | c :: s' => if p c then drop_chars p s' else s
  | [] => []
  end.

Definition strip_chars (p : ascii -> bool) (s : str) : str :=
  rev (drop_chars p (rev (drop_chars p s))).

Definition is_comma (c : ascii) : bool := code c =? 44.

(** [s.split(" ")[0]]: what stands before the first space. *)
Fixpoint first_field (s : str) : str :=
  match s with
  | c :: s' => if code c =? 32 then [] else c :: first_field s'
  | [] => []
  end.

(** The line boundaries of [str.splitlines] below code point 256. *)
Definition is_linebreak (c : ascii) : bool :=
  let n := code c in between 10 13 n || between 28 30 n || (n =? 133).

(** [s.splitlines()]: "\r\n" counts as one boundary, and no empty line
    follows a boundary that ends the text; [cur] is the line read so far,
    last character first. *)
Fixpoint splitlines_go (cur : str) (s : str) : list str :=
  match s with
  | [] => match cur with [] => [] | _ :: _ => [rev cur] end
  | c :: s' =>
      if is_linebreak c then
        rev cur ::
        match s' with
        | c' :: s'' =>
            if (code c =? 13) && (code c' =? 10) then splitlines_go [] s''
            else splitlines_go [] s'
        | [] => []
        end
      else splitlines_go (c :: cur) s'
  end.

Definition splitlines (s : str) : list str := splitlines_go [] s.

(** [s.split()[0]] for a text that is not blank: its first word. *)
Fixpoint word_of (s : str) : str :=
  match s with
  | c :: s' => if is_space c then [] else c :: word_of s'
  | [] => []
  end.

Definition first_word (s : str) : str := word_of (lstrip s).

Definition not_space (c : ascii) : bool := negb (is_space c).

(** The pattern "Version (\S+)". *)
Definition version_re : regex :=
  Seq (Lit (txt "Version ")) (Grp 1 (Plus true (Chr not_space))).

(** The class "[Cc]". *)
Definition is_c (c : ascii) : bool := (code c =? 67) || (code c =? 99).

(** The patterns of [model_search_strs], under [re.M]:
    "^[Cc]isco (.+) \(revision" and "^[Cc]isco (\S+).+bytes of .*memory". *)
Definition model_search_strs : list regex :=
  [ Seq Bol (Seq (Chr is_c) (Seq (Lit (txt "isco "))
      (Seq (Grp 1 (Plus true (Chr dot))) (Lit (txt " (revision")))));
    Seq Bol (Seq (Chr is_c) (Seq (Lit (txt "isco "))
      (Seq (Grp 1 (Plus true (Chr not_space)))
        (Seq (Plus true (Chr dot)) (Seq (Lit (txt "bytes of "))
          (Seq (Rep true (Chr dot)) (Lit (txt "memory")))))))) ].

(** The pattern "^(.+) uptime" under [re.M]. *)
Definition hostname_re : regex :=
  Seq Bol (Seq (Grp 1 (Plus true (Chr dot))) (Lit (txt " uptime"))).

Definition dquote : ascii := ascii_of_nat 34.

(** The pattern of the image: "image file is ", a double quote, "(.+)",
    a double quote. *)
Definition image_re : regex :=
  Seq (Lit (txt "image file is " ++ [dquote]))
      (Seq (Grp 1 (Plus true (Chr dot))) (Lit [dquote])).

(** The pattern "config.*\)#". *)
Definition config_prompt_re : regex :=
  Seq (Lit (txt "config")) (Seq (Rep true (Chr dot)) (Lit (txt ")#"))).

(** The loop over [model_search_strs]: the first pattern that matches
    gives the model, and ends the loop. *)
Fixpoint find_model (items : list regex) (data : str) (device_info : gmap str str)
  : gmap str str :=
  match items with
  | [] => device_info
  | item :: items' =>
      match re_search item data with
      | Some m => <[txt "network_os_model" := first_field (group m 1)]> device_info
      | None => find_model items' data device_info
      end
  end.

(** What [get_device_info] reads in the answer to "show version". *)
Definition parse_version (reply : str) : gmap str str :=
  let device_info0 : gmap str str := <[txt "network_os" := txt "ios"]> ∅ in
  let data := strip reply in
  let device_info1 :=
    match re_search version_re data with
    | Some m => <[txt "network_os_version" := strip_chars is_comma (group m 1)]> device_info0
    | None => device_info0
    end in
  let device_info2 := find_model model_search_strs data device_info1 in
  let device_info3 :=
    match re_search hostname_re data with
    | Some m => <[txt "network_os_hostname" := group m 1]> device_info2
    | None => device_info2
    end in
  match re_search image_re data with
  | Some m => <[txt "network_os_image" := group m 1]> device_info3
  | None => device_info3
  end.

Section WithChannel.

(** The channel: what the device answers to a request, given the
    requests it has seen before; it answers with a text or fails with
    a connection failure. *)
Variable channel : list request -> request -> failure + str.

Variable opts : plugin_options.

(** [CliconfBase.check_edit_config_capability], of the base class: it
    sends nothing, and returns or raises. *)
Variable check_edit_config_capability :
  device_operations -> arg -> bool -> option str -> option str -> result unit.

Local Open Scope session_scope.

Definition send_command (r : request) : session str :=
  fun w =>
    (World (sent w ++ [r]) (caller_list w),
     match channel (sent w) r with
     | inr out => inr out
     | inl f => inl (AnsibleConnectionFailure f)
     end).

Definition send (c : str) : session str := send_command (Request c default_options).

(** The timeout [configure] works with: the option when it is set (and
    not zero), one minute otherwise. *)
Definition commit_timeout : Z :=
  if truthy (commit_confirm_timeout opts)
  then default 1%Z (commit_confirm_timeout opts) else 1%Z.

Definition configure : session unit :=
  if truthy (commit_confirm_timeout opts) || commit_confirm_immediate opts then
    archive_state <- send (txt "show archive") ;;
    rollback_state <- send (txt "show archive config rollback timer") ;;
    if (commit_timeout * 60 <? persistent_command_timeout opts)%Z then
      raise (ValueError (txt "ansible_command_timeout can't be greater than commit_confirm_timeout Please adjust and try again"))
    else if found archive_re archive_state then
      raise (ValueError (txt "commit_confirm_immediate option set, but archiving not enabled on device. Please set up archiving and try again"))
    else if negb (found rollback_re rollback_state) then
      raise (ValueError (txt "Existing rollback change already pending. Please resolve by issuing 'configure confirm' or 'configure revert now'"))
    else
      send (txt "configure terminal revert timer " ++ str_of_int commit_timeout) ;;;
      ret tt
  else
    send (txt "configure terminal") ;;; ret tt.

(** The test [cmd != "end" and cmd[0] != "!"]: the second operand is
    evaluated only when the first holds, and indexes the string. *)
Definition is_sent (cmd : str) : result bool :=
  if negb (str_eqb cmd (txt "end")) then
    match cmd with
    | c :: _ => inr (negb (bool_decide (c = "!"%char)))
    | [] => inl (IndexError (txt "string index out of range"))
    end
  else inr false.

Record response : Type := Response {
  resp_request : list str;
  resp_response : list str
}.

(** The loop of [edit_config] over the lines left, [requests] and
    [results] being the two lists as they stand. *)
Fixpoint edit_lines (ls : list line) (requests results : list str)
  : session (list str * list str) :=
  match ls with
  | [] => ret (requests, results)
  | l :: ls' =>
      let cmd := line_command l in
      match is_sent cmd with
      | inl e => raise e
      | inr true =>
          out <- send_command (line_request l) ;;
          edit_lines ls' (requests ++ [cmd]) (results ++ [out])
      | inr false => edit_lines ls' requests results
      end
  end.

Definition lift {A} (r : result A) : session A :=
  match r with
  | inl e => raise e
  | inr a => ret a
  end.

Definition edit_config (candidate : arg) (commit : bool) (replace_ comment : option str)
  : session response :=
  lift (check_edit_config_capability get_device_operations candidate commit replace_ comment) ;;;
  let commit_confirm := commit_confirm_immediate opts in
  if commit then
    configure ;;;
    rr <- edit_lines (to_list candidate) [] [] ;;
    send (txt "end") ;;;
    (if commit_confirm then send (txt "configure confirm") ;;; ret tt else ret tt) ;;;
    ret (Response (fst rr) (snd rr))
  else
    raise (ValueError (txt "check mode is not supported")).

(** [candidate.pop(0)] and [candidate.pop(-1)] on the caller's list. *)
Definition pop_first : session str :=
  fun w =>
    match caller_list w with
    | x :: l => (World (sent w) l, inr x)
    | [] => (w, inl (IndexError (txt "pop from empty list")))
    end.

Definition pop_last : session str :=
  fun w =>
    match rev (caller_list w) with
    | x :: l => (World (sent w) (rev l), inr x)
    | [] => (w, inl (IndexError (txt "pop from empty list")))
    end.

Definition read_list : session (list str) := fun w => (w, inr (caller_list w)).

(** [time.sleep(0.1)]: a pause, nothing sent and nothing changed. *)
Definition sleep : session unit := ret tt.

(** [edit_macro]: the candidate is the caller's list of the world. *)
Definition edit_macro (commit : bool) (replace_ comment : option str) : session response :=
  candidate <- read_list ;;
  lift (check_edit_config_capability get_device_operations
          (AList (map Plain candidate)) commit replace_ comment) ;;;
  if commit then
    send (txt "config terminal") ;;;
    sleep ;;;
    first <- pop_first ;;
    let commands0 := first ++ [nl] in
    multiline_delimiter <- pop_last ;;
    body <- read_list ;;
    let commands1 := fold_left (fun c l => c ++ txt " " ++ l ++ [nl]) body commands0 in
    let commands := commands1 ++ multiline_delimiter ++ [nl] in
    out1 <- send_command (Request commands (SendOptions None None true true false)) ;;
    sleep ;;;
    send_command (Request (txt "end") (SendOptions None None true true false)) ;;;
    sleep ;;;
    out2 <- send [nl] ;;
    ret (Response [commands; [nl]] [out1; out2])
  else
    ret (Response [] []).

Definition line_output (l : line) : option str :=
  match l with Plain _ => None | Mapping _ _ o => o end.

(** [getattr(e, "err", to_text(e))]. *)
Definition failure_text (f : failure) : str := default (message f) (err f).

(** [try: ... except AnsibleConnectionFailure as e: ...]. *)
Definition try_send (r : request) (handler : failure -> session str) : session str :=
  fun w =>
    match send_command r w with
    | (w', inl (AnsibleConnectionFailure f)) => handler f w'
    | other => other
    end.

(** The loop of [run_commands] over the commands left. *)
Fixpoint run_lines (check_rc : bool) (ls : list line) (responses : list str)
  : session (list str) :=
  match ls with
  | [] => ret responses
  | l :: ls' =>
      match line_output l with
      | Some (c :: o) =>
          raise (ValueError (txt "'output' value " ++ (c :: o)
                             ++ txt " is not supported for run_commands"))
      | _ =>
          out <- try_send (line_request l)
                   (fun f => if check_rc then raise (AnsibleConnectionFailure f)
                             else ret (failure_text f)) ;;
          run_lines check_rc ls' (responses ++ [out])
      end
  end.

Definition run_commands (commands : arg) (check_rc : bool) : session (list str) :=
  match commands with
  | ANone => raise (ValueError (txt "'commands' value is required"))
  | _ => run_lines check_rc (to_list commands) []
  end.

(** *** Reading from the device

    As for [configure] and [edit_config], the decorated methods are
    modelled by their bodies. *)

Definition get_config (source : str) (flags : flags_arg) (format_ : option str)
  : session str :=
  if negb (str_in source [txt "running"; txt "startup"]) then
    raise (ValueError (txt "fetching configuration from " ++ source
                       ++ txt " is not supported"))
  else if given format_ then
    raise (ValueError (txt "'format' value " ++ default [] format_
                       ++ txt " is not supported for get_config"))
  else
    let cmd0 :=
      if str_eqb source (txt "running") then txt "show running-config "
      else txt "show startup-config " in
    let cmd := cmd0 ++ join (txt " ") (flag_list flags) in
    send (strip cmd).

Definition restore (filename : option str) (path : str) : session str :=
  if negb (given filename) then
    raise (ValueError (txt "'file_name' value is required for restore"))
  else
    send (txt "configure replace " ++ path ++ default [] filename ++ txt " force").

(** [get]: the keyword arguments besides [command] and [output] are the
    options of the request. *)
Definition get (command_ : option str) (o : send_options) (output_ : option str)
  : session str :=
  if negb (given command_) then
    raise (ValueError (txt "must provide value of command to execute"))
  else if given output_ then
    raise (ValueError (txt "'output' value " ++ default [] output_
                       ++ txt " is not supported for get"))
  else
    send_command (Request (default [] command_) o).

(** [try: ... except Exception: ...] around [get]. *)
Definition check_device_type : session str :=
  fun w =>
    match get (Some (txt "show vlan")) default_options None w with
    | (w', inr _) => (w', inr (txt "L2"))
    | (w', inl _) => (w', inr (txt "L3"))
    end.

(** [CliconfBase._update_cli_prompt_context], of the base class, with its
    arguments [config_context] and [exit_command]. *)
Variable _update_cli_prompt_context : str -> str -> session unit.

(** [get_device_info]: [_device_info] is the attribute of the object as
    the call finds it, the value returned is the attribute as the call
    leaves it. *)
Definition get_device_info (_device_info : gmap str str) : session (gmap str str) :=
  if bool_decide (_device_info = ∅) then
    _update_cli_prompt_context (txt ")#") (txt "end") ;;;
    reply <- get (Some (txt "show version")) default_options None ;;
    let device_info := parse_version reply in
    device_type <- check_device_type ;;
    ret (<[txt "network_os_type" := device_type]> device_info)
  else ret _device_info.

(** [json.loads(candidate)] for [edit_banner]: the items of the object of
    banners, in the order of the text, or the error of the decoder. *)
Variable json_loads : str -> result (list (str * str)).

Definition send_only (c : str) : session str :=
  send_command (Request c (SendOptions None None true true false)).

(** The loop of [edit_banner] over the three commands of a banner. *)
Fixpoint banner_commands (cmds : list str) (requests results : list str)
  : session (list str * list str) :=
  match cmds with
  | [] => ret (requests, results)
  | cmd :: cmds' =>
      out <- send_only cmd ;;
      banner_commands cmds' (requests ++ [cmd]) (results ++ [out])
  end.

(** The loop of [edit_banner] over the banners. *)
Fixpoint banner_items (multiline_delimiter : str) (items : list (str * str))
    (requests results : list str) : session (list str * list str) :=
  match items with
  | [] => ret (requests, results)
  | (key, value) :: items' =>
      let key1 := key ++ txt " " ++ multiline_delimiter in
      send_only (txt "config terminal") ;;;
      rr <- banner_commands [key1; value; multiline_delimiter] requests results ;;
      send_only (txt "end") ;;;
      sleep ;;;
      out <- send [nl] ;;
      banner_items multiline_delimiter items' (fst rr ++ [[nl]]) (snd rr ++ [out])
  end.

Definition edit_banner (candidate : str) (multiline_delimiter : str) (commit : bool)
  : session response :=
  banners_obj <- lift (json_loads candidate) ;;
  if commit then
    rr <- banner_items multiline_delimiter banners_obj [] [] ;;
    ret (Response (fst rr) (snd rr))
  else ret (Response [] []).

(** The set of [get_defaults_flag]: the first words of the lines that are
    not blank. *)
Definition first_words (out : str) : list str :=
  map (fun l => first_word (strip l))
      (List.filter (fun l => negb (length (strip l) =? 0)) (splitlines out)).

Definition get_defaults_flag : session str :=
  out <- get (Some (txt "show running-config ?")) default_options None ;;
  if str_in (txt "all") (first_words out) then ret (txt "all") else ret (txt "full").

(** [set_cli_prompt_context]: [connected], [get_prompt] and
    [_last_recv_window] are what the connection shows when asked. *)
Definition set_cli_prompt_context (connected : bool) (get_prompt : option str)
    (_last_recv_window : str) : session unit :=
  if connected then
    match get_prompt with
    | None =>
        raise (AnsibleConnectionFailure
                 (Failure (txt "cli prompt is not identified from the last received response window: "
                           ++ _last_recv_window) None))
    | Some out =>
        if found config_prompt_re (strip out) then send (txt "end") ;;; ret tt
        else ret tt
    end
  else ret tt.

End WithChannel.

End Cliconf.

(** * Definitions used by the statements *)

Import Cliconf.

(** ** Entering configuration mode *)

Definition req (c : string) : request := Request (txt c) default_options.

(** The two informational requests [configure] starts with. *)
Definition probes : list request :=
  [req "show archive"; req "show archive config rollback timer"].

(** Commit-confirm is configured: the condition [configure] branches on. *)
Definition commit_confirm_configured (o : plugin_options) : bool :=
  truthy (commit_confirm_timeout o) || commit_confirm_immediate o.

Definition revert_timer (o : plugin_options) : request :=
  Request (txt "configure terminal revert timer " ++ str_of_int (commit_timeout o))
          default_options.

(** A device with archiving enabled and no rollback pending, which answers
    every other request with an empty text. *)
Definition quiet_device : list request -> request -> failure + str :=
  fun _ r =>
    if str_eqb (command r) (txt "show archive config rollback timer")
    then inr (txt "%No Rollback Confirmed Change pending")
    else inr [].

(** ** Applying a list of lines *)

(** A line of the candidate that [edit_config] sends rather than skips: its
    command is not "end" and does not start with the comment marker. *)
Definition kept (l : line) : bool :=
  negb (str_eqb (line_command l) (txt "end"))
  && negb (startswith (line_command l) (txt "!")).

(** What the device answers to the requests [rs] sent one after the other
    once [log] has been sent. *)
Fixpoint outcomes (ch : list request -> request -> failure + str)
    (log : list request) (rs : list request) : list (failure + str) :=
  match rs with
  | [] => []
  | r :: rs' => ch log r :: outcomes ch (log ++ [r]) rs'
  end.

Definition answer_text (x : failure + str) : str :=
  match x with
  | inr out => out
  | inl _ => []
  end.

(** The device answers every request. *)
Definition answers (ch : list request -> request -> failure + str) : Prop :=
  forall log r, exists out, ch log r = inr out.


(** ** Running commands *)

(** The command carries no [output] option, or an empty one. *)
Definition no_output (l : line) : bool :=
  match line_output l with
  | Some (_ :: _) => false
  | _ => true
  end.

(** The entry [run_commands] records for an outcome when [check_rc] is off. *)
Definition reply_text (x : failure + str) : str :=
  match x with
  | inr out => out
  | inl f => failure_text f
  end.

Fixpoint first_failure (xs : list (failure + str)) : option failure :=
  match xs with
  | [] => None
  | inl f :: _ => Some f
  | inr _ :: xs' => first_failure xs'
  end.

(** ** The diff of the banners *)

(** The pattern of [re.sub("\n\n", "\n", candidate)]. *)
Definition blank_line : regex := Lit [nl; nl].

(** The candidate as [get_diff] works on it. *)
Definition collapsed (candidate : str) : str := re_sub blank_line [nl] candidate.

(** [get_diff] takes the branch that diffs section by section: the
    candidate has a section, no path is given, the match is exact. *)
Definition by_section (candidate : str) (path : list str) (diff_match_ : str) : bool :=
  negb (length (re_finditer cand_pattern (collapsed candidate)) =? 0)
  && (length path =? 0) && str_eqb diff_match_ (txt "exact").

(** The banners of the running text as [get_diff] takes them: extracted
    when the text is not empty and the match is not none, none otherwise. *)
Definition have_banners (running : option str) (diff_match_ : str) : gmap str str :=
  if negb (length (default [] running) =? 0) && negb (str_eqb diff_match_ (txt "none"))
  then snd (_extract_banners (default [] running))
  else ∅.


Definition motd_candidate : str := txt "banner motd ^C
hello
^C".

(** ** Banner extraction *)

(** The longest prefix of characters of a class, and what follows it. *)
Fixpoint span (p : ascii -> bool) (s : str) : str :=
  match s with
  | c :: s' => if p c then c :: span p s' else []
  | [] => []
  end.

Fixpoint after_span (p : ascii -> bool) (s : str) : str :=
  match s with
  | c :: s' => if p c then after_span p s' else s
  | [] => []
  end.

(** The declaration of the banner [name] up to its opening delimiter. *)
Definition declaration (name : str) : str := txt "banner " ++ name ++ txt " ^C".

(** The text ends a line, or is empty: what follows it starts a line. *)
Definition ends_line (s : str) : Prop := s = [] \/ exists p, s = p ++ [nl].

(** ** The diff of an exact match, section by section *)

(** The sections of a candidate: the matches of the section pattern. *)
Definition sections (candidate : str) : list rmatch :=
  re_finditer cand_pattern (collapsed candidate).

(** The anchor path and the text of a section. *)
Definition anchor (m : rmatch) : list str := [strip (group m 1)].
Definition section_text (m : rmatch) : str := group m 1 ++ group m 2.

(** The block a running text holds at the anchor of a section: empty when
    the path does not resolve. *)
Definition have_block (G : list regex) (running : option str) (m : rmatch)
  : result (list NetworkConfig.obj) :=
  match NetworkConfig.get_block (NetworkConfig.new G running) (anchor m) with
  | inl (ValueError _) => inr []
  | r => r
  end.

(** The block of a section parsed on its own. *)
Definition want_block (G : list regex) (m : rmatch) : result (list NetworkConfig.obj) :=
  NetworkConfig.get_block (NetworkConfig.parse G (section_text m)) (anchor m).

(** Every line of [xs] is, by its text and parent path, a line of [ys]. *)
Definition lines_within (xs ys : list NetworkConfig.obj) : bool :=
  forallb (fun l => NetworkConfig.obj_in l ys) xs.

(** The running text holds at the anchor of the section the lines of the
    section, and no other. *)
Definition blocks_agree (G : list regex) (running : option str) (m : rmatch) : Prop :=
  exists want have,
    want_block G m = inr want /\ have_block G running m = inr have
    /\ lines_within have want = true /\ lines_within want have = true.

Definition repeated_head : str := txt "a
 b
a
 c".

(** The candidate of the example of the specification. *)
Definition policy_maps : str := txt "policy-map foo
 class c1
  bandwidth 100
policy-map bar
 class c2
  bandwidth 50".








(** ** The sections of a candidate *)

(** What ".*\n?" takes from a text, and what it leaves. *)
Definition line_taken (s : str) : str :=
  span dot s ++ match after_span dot s with c :: _ => [c] | [] => [] end.

Definition line_left (s : str) : str :=
  match after_span dot s with _ :: s' => s' | [] => [] end.

(** What the child group, any number of "\s+.*\n?", leaves of a text of at
    most [n] characters. *)
Fixpoint child_left (n : nat) (s : str) : str :=
  match n with
  | 0 => s
  | S n' =>
      match s with
      | c :: s' =>
          if is_space c then child_left n' (line_left (after_span is_space s')) else s
      | [] => s
      end
  end.

(** The section that starts with the text, if its first character is a
    word character. *)
Definition section_at (s : str) : option rmatch :=
  match s with
  | c :: s' =>
      if is_word c then
        let r1 := line_left s' in
        let r := child_left (length r1) r1 in
        Some (RMatch (consumed s r) [(2, consumed r1 r); (1, consumed s r1)] r)
      else None
  | [] => None
  end.

(** The repeated part of the child group: "\s+.*\n?". *)
Definition child_body : regex :=
  Seq (Plus true (Chr is_space)) (Seq (Rep true (Chr dot)) (Opt (Lit [nl]))).

(** ** Well-formed documents

    A document is a list of blocks: a head line, which starts with a word
    character, and child lines, which start with white space and are not
    blank; between the blocks there may be separator lines, which start
    with a character that is neither a word character nor white space and
    have no line below them.  No line holds a line end. *)

Definition head_line (l : str) : bool :=
  match l with c :: _ => is_word c | [] => false end && forallb dot l.

Definition child_line (l : str) : bool :=
  match l with c :: _ => is_space c | [] => false end
  && negb (forallb is_space l) && forallb dot l.

Definition block : Type := str * list str.

Definition block_lines (b : block) : list str := fst b :: snd b.

Definition wf_block (b : block) : bool := head_line (fst b) && forallb child_line (snd b).

(** A line that starts at the left margin. *)
Definition top_line (l : str) : bool :=
  match l with c :: _ => negb (is_space c) | [] => false end && forallb dot l.

(** A separator line, such as the exclamation mark of a configuration. *)
Definition sep_line (l : str) : bool :=
  match l with c :: _ => negb (is_word c) && negb (is_space c) | [] => false end
  && forallb dot l.

(** An item of a document: a block, or a separator line alone. *)
Definition wf_item (b : block) : bool :=
  wf_block b || (sep_line (fst b) && (length (snd b) =? 0)).

(** The items that are blocks: the pattern of the sections starts at their
    head line. *)
Definition is_section (b : block) : bool := head_line (fst b).

Definition blocks (d : list block) : list block := List.filter is_section d.

Definition doc_lines (d : list block) : list str := concat (map block_lines d).

(** The text of a list of lines: one line end between two lines, and one
    after the last line if [final] is set. *)
Fixpoint unlines (final : bool) (ls : list str) : str :=
  match ls with
  | [] => []
  | l :: ls' =>
      l ++ match ls' with
           | [] => if final then [nl] else []
           | _ :: _ => nl :: unlines final ls'
           end
  end.

(** What follows a line in the text of a list of lines. *)
Definition after_line (final : bool) (ls : list str) : str :=
  match ls with
  | [] => if final then [nl] else []
  | _ :: _ => nl :: unlines final ls
  end.

(** A match of the section pattern is the section of a block. *)
Definition section_of (m : rmatch) (b : block) : Prop :=
  strip (group m 1) = strip (fst b)
  /\ exists fin, section_text m = unlines fin (block_lines b).

(** Whether the lines before the lines [L] all end with a line end. *)
Definition closed (final : bool) (L : list str) : bool :=
  match L with [] => final | _ :: _ => true end.

(** The line end after a line followed by the lines [ls]. *)
Definition eol (final : bool) (ls : list str) : str :=
  match ls with
  | [] => if final then [nl] else []
  | _ :: _ => [nl]
  end.

(** A line of a text: not empty, and without line end. *)
Definition text_line (l : str) : bool := negb (length l =? 0) && forallb dot l.

(** The state [parse] starts from. *)
Definition parse_start : NetworkConfig.pstate := NetworkConfig.PState [] [0] [].

(** ** Trees inside trees *)

(** A line whose tree starts at place [n] of a larger tree. *)
Definition shift_line (n : nat) (c : NetworkConfig.ConfigLine) : NetworkConfig.ConfigLine :=
  NetworkConfig.ConfigLine_ (NetworkConfig.raw c) (NetworkConfig.text c)
    (Nat.add n <$> NetworkConfig._parents c) (Nat.add n <$> NetworkConfig._children c).

Definition shift_tree (n : nat) (t : NetworkConfig.tree) : NetworkConfig.tree :=
  shift_line n <$> t.

(** The state of [parse] on lines that follow the [n] lines [before]. *)
Definition shift_state (n : nat) (before : NetworkConfig.tree) (st : NetworkConfig.pstate)
  : NetworkConfig.pstate :=
  NetworkConfig.PState (Nat.add n <$> NetworkConfig.ancestors st) (NetworkConfig.indents st)
    (before ++ shift_tree n (NetworkConfig.config st)).

(** The line is neither blank nor ignored by [parse]. *)
Definition kept_line (G : list regex) (l : str) : bool :=
  let t := strip (NetworkConfig.drop_entry l) in
  negb ((length t =? 0) || NetworkConfig.ignore_line G t).

(** A block parsed on its own. *)
Definition block_state (G : list regex) (b : block) : NetworkConfig.pstate :=
  fold_left (NetworkConfig.parse_line G) (block_lines b) parse_start.

Definition block_tree (G : list regex) (b : block) : NetworkConfig.tree :=
  NetworkConfig.config (block_state G b).

(** The trees of the blocks of a document, one after the other from place
    [n] on. *)
Fixpoint doc_tree (G : list regex) (n : nat) (d : list block) : NetworkConfig.tree :=
  match d with
  | [] => []
  | b :: d' => shift_tree n (block_tree G b) ++ doc_tree G (n + length (block_tree G b)) d'
  end.

(** ** Trees of sections *)

(** The line at place [k] of a tree has its parents before it and its
    children after it, inside the tree. *)
Definition wf_line (t : NetworkConfig.tree) (k : nat) (c : NetworkConfig.ConfigLine) : Prop :=
  Forall (fun i => i < k) (NetworkConfig._parents c)
  /\ Forall (fun i => k < i < length t) (NetworkConfig._children c).

Definition wf_tree (t : NetworkConfig.tree) : Prop :=
  forall k c, t !! k = Some c -> wf_line t k c.

(** The tree of a section: the top-level line [h] first, then lines that
    have a parent. *)
Definition section_tree (h : str) (t : NetworkConfig.tree) : Prop :=
  exists cs rest,
    t = NetworkConfig.ConfigLine_ h (strip h) [] cs :: rest
    /\ Forall (fun c => NetworkConfig._parents c <> []) rest.

(** The state of [parse] inside the section of the top-level line [h]. *)
Definition section_state (h : str) (st : NetworkConfig.pstate) : Prop :=
  (exists tl, NetworkConfig.indents st = 0 :: tl)
  /\ NetworkConfig.ancestors st <> []
  /\ Forall (fun i => i < length (NetworkConfig.config st)) (NetworkConfig.ancestors st)
  /\ wf_tree (NetworkConfig.config st)
  /\ section_tree h (NetworkConfig.config st).

(** A line of a tree, as the larger tree that holds the tree from place
    [n] on shows it. *)
Definition embed_obj (W : list NetworkConfig.ConfigLine) (n : nat) (o : NetworkConfig.obj)
  : NetworkConfig.obj :=
  (W, shift_line n (snd o)).

(** The object is a line of the tree. *)
Definition in_tree (T : list NetworkConfig.ConfigLine) (o : NetworkConfig.obj) : Prop :=
  fst o = T /\ exists k, T !! k = Some (snd o).

Definition res_map {A B : Type} (f : A -> B) (r : result A) : result B :=
  match r with
  | inr x => inr (f x)
  | inl e => inl e
  end.

(** One turn of the loop of [_expand_block]. *)
Definition expand_child (fuel : nat) (t : list NetworkConfig.ConfigLine)
    (acc : result (list NetworkConfig.obj)) (i : nat) : result (list NetworkConfig.obj) :=
  match acc with
  | inr S' =>
      match t !! i with
      | Some child =>
          if NetworkConfig.obj_in (t, child) S' then inr S'
          else NetworkConfig._expand_block fuel t child S'
      | None => inl OutOfFuel
      end
  | inl e => inl e
  end.

(** The test of [get_object] on a line, for a path that ends with [p]. *)
Definition anchor_test (t : list NetworkConfig.ConfigLine) (path : list str) (p : str)
    (c : NetworkConfig.ConfigLine) : bool :=
  str_eqb (NetworkConfig.text c) p
  && bool_decide (NetworkConfig.parents t c = removelast path).

(** The two policy maps of the specification, as a document. *)
Definition policy_doc : list block :=
  [ (txt "policy-map foo", [txt " class c1"; txt "  bandwidth 100"]);
    (txt "policy-map bar", [txt " class c2"; txt "  bandwidth 50"]) ].

(** The anchor of a block. *)
Definition block_anchor (b : block) : str := strip (fst b).

(** A document as [get_diff] can diff it against itself: blocks and
    separator lines, the head line of no block ignored, no two blocks with
    the same anchor. *)
Definition wf_doc (G : list regex) (d : list block) : Prop :=
  forallb wf_item d = true
  /\ forallb (fun b => kept_line G (fst b)) (blocks d) = true
  /\ NoDup (block_anchor <$> blocks d).

(** The text starts with a word character. *)
Definition word_start (s : str) : bool :=
  match s with c :: _ => is_word c | [] => false end.

(** The policy maps between the separator lines of a configuration. *)
Definition policy_config : list block :=
  [ (txt "!", []);
    (txt "policy-map foo", [txt " class c1"; txt "  bandwidth 100"]);
    (txt "!", []);
    (txt "policy-map bar", [txt " class c2"; txt "  bandwidth 50"]);
    (txt "!", []);
    (txt "end", []) ].

(** ** Reading from the device *)

(** The command [get_config] starts from, without the space after it. *)
Definition config_command (source : str) : str :=
  if str_eqb source (txt "running") then txt "show running-config"
  else txt "show startup-config".

(** The sources [get_config] reads from. *)
Definition config_sources : list str := [txt "running"; txt "startup"].

(** What [send_command] does with a request: the request joins the log
    and the answer of the channel, or its failure, is the outcome. *)
Definition sent_once (ch : list request -> request -> failure + str) (r : request) (w : world)
  : world * result str :=
  (World (sent w ++ [r]) (caller_list w),
   match ch (sent w) r with
   | inr out => inr out
   | inl f => inl (AnsibleConnectionFailure f)
   end).

(** The text is empty or starts with white space: a word ends before it. *)
Definition word_end (s : str) : Prop :=
  match s with c :: _ => is_space c = true | [] => True end.

(** The first line of an answer to "show version". *)
Definition version_reply : str :=
  txt "Cisco IOS Software, C2900 Software (C2900-UNIVERSALK9-M), Version 15.2(4)M, RELEASE SOFTWARE (fc2)".

(** ** Loading banners *)

(** A request that is sent without waiting for its answer. *)
Definition only (c : str) : request := Request c (SendOptions None None true true false).

(** The requests [edit_banner] sends for a banner, and those of them it
    reports. *)
Definition banner_requests (delimiter : str) (item : str * str) : list request :=
  [ only (txt "config terminal");
    only (fst item ++ txt " " ++ delimiter); only (snd item); only delimiter;
    only (txt "end"); Request [nl] default_options ].

Definition banner_report (delimiter : str) (item : str * str) : list str :=
  [fst item ++ txt " " ++ delimiter; snd item; delimiter; [nl]].

(** ** The diff outside the sections *)

(** The candidate once its banners are taken out, and the banners. *)
Definition want_src (candidate : str) : str := fst (_extract_banners (collapsed candidate)).
Definition want_banners (candidate : str) : gmap str str :=
  snd (_extract_banners (collapsed candidate)).

(** The parents of every line of a tree stand before the line, and the
    lines open while parsing are lines of the tree. *)
Definition parents_before (st : NetworkConfig.pstate) : Prop :=
  Forall (fun i => i < length (NetworkConfig.config st)) (NetworkConfig.ancestors st)
  /\ forall k c, NetworkConfig.config st !! k = Some c ->
                 Forall (fun i => i < k) (NetworkConfig._parents c).

(** A device that answers every request but "router bgp 1", on which the
    connection times out. *)
Definition failing_device : list request -> request -> failure + str :=
  fun _ r =>
    if str_eqb (command r) (txt "router bgp 1")
    then inl (Failure (txt "timeout") None) else inr [].

(** The entry of a banner map comes from a declaration of the text: a name
    among [names] whose body the search finds. *)
Definition found_banner (config : str) (names : list str) (k v : str) : Prop :=
  exists name m,
    k = banner_key name /\ In name names
    /\ re_search (banner_body name) config = Some m /\ v = strip (group m 1).

(** White space that does not end a line. *)
Definition is_indent (c : ascii) : bool := is_space c && negb (is_linebreak c).

(** An answer to "show running-config ?". *)
Definition defaults_help : str := txt "  aaa-user  AAA user definition
  all       Configuration with defaults
  brief     configuration without certificate data".

(** ** The blocks of a document, diffed one by one *)






(** *** The order in which a block is collected

    [_expand_block] goes down the children of a line.  In the tree of a
    section it meets the lines in the order of the text: the lines from
    place [i] up to place [e] are the line at [i] and its descendants when
    the children of the line, each with its own descendants, follow one
    another from place [i + 1] up to [e]. *)







(** * Properties *)

(** ** Entering configuration mode *)

Lemma sbind_ok {A B} (m : session A) (f : A -> session B) w w' a :
  m w = (w', inr a) -> sbind m f w = f a w'.
Proof. intros H. unfold sbind. now rewrite H. Qed.

Lemma sbind_err {A B} (m : session A) (f : A -> session B) w w' e :
  m w = (w', inl e) -> sbind m f w = (w', inl e).
Proof. intros H. unfold sbind. now rewrite H. Qed.

Lemma send_ok ch c w out :
  ch (sent w) (Request c default_options) = inr out ->
  send ch c w = (World (sent w ++ [Request c default_options]) (caller_list w), inr out).
Proof. intros H. unfold send, send_command. now rewrite H. Qed.

Lemma commit_timeout_given o t :
  commit_confirm_timeout o = Some t -> t <> 0%Z -> commit_timeout o = t.
Proof.
  intros H Ht. unfold commit_timeout, truthy. rewrite H. simpl.
  destruct (Z.eqb_spec t 0); [contradiction | reflexivity].
Qed.

Lemma commit_timeout_unset o :
  commit_confirm_timeout o = None -> commit_timeout o = 1%Z.
Proof. intros H. unfold commit_timeout, truthy. now rewrite H. Qed.

(** C1. With commit-confirm configured and the device answering the two
    informational requests, [configure] raises a [ValueError] having sent
    nothing but those two requests when the command timeout exceeds sixty
    times the commit timeout, when the archive answer says that archiving
    is not enabled, or when the rollback answer does not say that no change
    is pending; when the three checks pass, the one request it sends after
    them is "configure terminal revert timer" with the timeout.  The timeout
    is the option, or 1 when the option is unset; with the option at 5, a
    command timeout of 400 fails and one of 200 passes the first check and,
    the other two passing, sends "configure terminal revert timer 5". *)
Theorem configure_commit_confirm
    (ch : list request -> request -> failure + str) (o : plugin_options) (w : world)
    (archive_state rollback_state : str) :
  commit_confirm_configured o = true ->
  ch (sent w) (req "show archive") = inr archive_state ->
  ch (sent w ++ [req "show archive"]) (req "show archive config rollback timer")
    = inr rollback_state ->
  let too_long := (commit_timeout o * 60 <? persistent_command_timeout o)%Z in
  let no_archive := found archive_re archive_state in
  let pending := negb (found rollback_re rollback_state) in
  (too_long || no_archive || pending = true ->
     exists msg, configure ch o w
                 = (World (sent w ++ probes) (caller_list w), inl (ValueError msg)))
  /\ (too_long || no_archive || pending = false ->
        fst (configure ch o w)
        = World (sent w ++ probes ++ [revert_timer o]) (caller_list w))
  /\ (commit_confirm_timeout o = None -> commit_timeout o = 1%Z)
  /\ (commit_confirm_timeout o = Some 5%Z ->
        (persistent_command_timeout o = 400%Z -> too_long = true)
        /\ (persistent_command_timeout o = 200%Z ->
              too_long = false
              /\ revert_timer o = req "configure terminal revert timer 5")).
Proof.
  intros Hcfg Ha Hr too_long no_archive pending.
  assert (Hrun : configure ch o w =
    (if too_long then raise (ValueError (txt "ansible_command_timeout can't be greater than commit_confirm_timeout Please adjust and try again"))
     else if no_archive then raise (ValueError (txt "commit_confirm_immediate option set, but archiving not enabled on device. Please set up archiving and try again"))
     else if pending then raise (ValueError (txt "Existing rollback change already pending. Please resolve by issuing 'configure confirm' or 'configure revert now'"))
     else sbind (send ch (txt "configure terminal revert timer " ++ str_of_int (commit_timeout o)))
            (fun _ => ret tt))
      (World (sent w ++ probes) (caller_list w))).
  { unfold configure. unfold commit_confirm_configured in Hcfg. rewrite Hcfg.
    rewrite (sbind_ok _ _ _ _ _ (send_ok ch _ w _ Ha)).
    erewrite sbind_ok.
    2:{ apply send_ok. simpl. exact Hr. }
    simpl. unfold probes. rewrite <- app_assoc. reflexivity. }
  split; [| split; [| split]].
  - intros H. rewrite Hrun.
    destruct too_long; [eexists; reflexivity |].
    destruct no_archive; [eexists; reflexivity |].
    destruct pending; [eexists; reflexivity | discriminate].
  - intros H. rewrite Hrun.
    destruct too_long; [discriminate |].
    destruct no_archive; [discriminate |].
    destruct pending; [discriminate |].
    unfold sbind, send, send_command. cbn [sent caller_list].
    destruct (ch (sent w ++ probes) _); cbn [fst]; unfold revert_timer;
      now rewrite <- app_assoc.
  - apply commit_timeout_unset.
  - intros H5. assert (Ht : commit_timeout o = 5%Z) by (now apply commit_timeout_given).
    split; intros Hp; subst too_long; rewrite Ht, Hp; [reflexivity |].
    split; [reflexivity |]. unfold revert_timer. now rewrite Ht.
Qed.

Lemma configure_commit_confirm_witness :
  fst (configure quiet_device (PluginOptions false (Some 5%Z) 200%Z) (World [] []))
  = World (probes ++ [req "configure terminal revert timer 5"]) [].
Proof.
  refine (proj1 (proj2 (configure_commit_confirm quiet_device
            (PluginOptions false (Some 5%Z) 200%Z) (World [] []) []
            (txt "%No Rollback Confirmed Change pending") _ _ _)) _);
    vm_compute; reflexivity.
Defined.

(** ** Applying a list of lines *)

Lemma startswith_bang (c : ascii) (s : str) :
  startswith (c :: s) (txt "!") = bool_decide (c = "!"%char).
Proof.
  unfold startswith. cbn.
  destruct (bool_decide_reflect ("!"%char = c)), (bool_decide_reflect (c = "!"%char));
    congruence.
Qed.

Lemma is_sent_kept (l : line) :
  line_command l <> [] -> is_sent (line_command l) = inr (kept l).
Proof.
  intros Hne. unfold is_sent, kept.
  destruct (str_eqb (line_command l) (txt "end")); [reflexivity |].
  destruct (line_command l) as [| c s]; [contradiction |].
  now rewrite startswith_bang.
Qed.

Lemma send_command_ok ch r w out :
  ch (sent w) r = inr out ->
  send_command ch r w = (World (sent w ++ [r]) (caller_list w), inr out).
Proof. intros H. unfold send_command. now rewrite H. Qed.

(** The loop over a prefix of lines with non-empty commands, on a device
    that answers: the kept lines are sent in order and recorded. *)
Lemma edit_lines_app ch (pre more : list line) :
  answers ch ->
  Forall (fun l => line_command l <> []) pre ->
  forall requests results w,
    edit_lines ch (pre ++ more) requests results w
    = edit_lines ch more
        (requests ++ map line_command (List.filter kept pre))
        (results ++ map answer_text
                      (outcomes ch (sent w) (map line_request (List.filter kept pre))))
        (World (sent w ++ map line_request (List.filter kept pre)) (caller_list w)).
Proof.
  intros Hans Hpre. induction Hpre as [| l pre Hl Hpre IH]; intros requests results w.
  - cbn. rewrite !app_nil_r. now destruct w.
  - cbn [app edit_lines List.filter]. rewrite (is_sent_kept l Hl).
    destruct (kept l).
    + destruct (Hans (sent w) (line_request l)) as [out Hout].
      rewrite (sbind_ok _ _ _ _ _ (send_command_ok ch _ w out Hout)).
      rewrite IH. cbn [map outcomes sent caller_list answer_text]. rewrite Hout.
      cbn [answer_text]. now rewrite <- !app_assoc.
    + apply IH.
Qed.

Lemma outcomes_length ch log rs : length (outcomes ch log rs) = length rs.
Proof. revert log. induction rs as [| r rs IH]; intros log; cbn; [| rewrite IH]; reflexivity. Qed.


Lemma quiet_device_answers : answers quiet_device.
Proof.
  intros log r. unfold quiet_device.
  destruct (str_eqb (command r) (txt "show archive config rollback timer")); eauto.
Qed.


(** C9. On a device that answers, once configuration mode is entered,
    [edit_config] with [commit=True] raises an [IndexError] at the first
    line whose command is the empty string: the lines before it have been
    handled, the line itself is neither skipped nor sent, and "end" is not
    sent.  The test that tells the lines to send raises on the empty
    command and returns a truth value on every other command. *)
Theorem edit_config_empty_command
    (ch : list request -> request -> failure + str) (o : plugin_options)
    (check : device_operations -> arg -> bool -> option str -> option str -> result unit)
    (pre post : list line) (l : line) (replace_ comment : option str) (w w1 : world) :
  check get_device_operations (AList (pre ++ l :: post)) true replace_ comment = inr tt ->
  answers ch ->
  configure ch o w = (w1, inr tt) ->
  Forall (fun x => line_command x <> []) pre ->
  line_command l = [] ->
  edit_config ch o check (AList (pre ++ l :: post)) true replace_ comment w
  = (World (sent w1 ++ map line_request (List.filter kept pre)) (caller_list w1),
     inl (IndexError (txt "string index out of range")))
  /\ is_sent [] = inl (IndexError (txt "string index out of range"))
  /\ (forall cmd, cmd <> [] -> exists b, is_sent cmd = inr b).
Proof.
  intros Hcheck Hans Hcfg Hpre Hl. split; [| split].
  - unfold edit_config. rewrite Hcheck. cbn [lift].
    rewrite (sbind_ok _ _ w w tt eq_refl).
    rewrite (sbind_ok _ _ _ _ _ Hcfg).
    cbn [to_list].
    erewrite sbind_err; [reflexivity |].
    rewrite (edit_lines_app ch pre (l :: post) Hans Hpre).
    cbn [edit_lines]. rewrite Hl. reflexivity.
  - reflexivity.
  - intros cmd Hne. unfold is_sent.
    destruct (negb (str_eqb cmd (txt "end"))); [| eauto].
    destruct cmd; [contradiction | eauto].
Qed.

Lemma edit_config_empty_command_witness :
  snd (edit_config quiet_device (PluginOptions false None 30%Z) (fun _ _ _ _ _ => inr tt)
         (AList ([Plain (txt "hostname R1")] ++ Plain [] :: [Plain (txt "end")]))
         true None None (World [] []))
  = inl (IndexError (txt "string index out of range")).
Proof.
  assert (Hpre : Forall (fun x => line_command x <> []) [Plain (txt "hostname R1")]).
  { repeat constructor; discriminate. }
  destruct (edit_config_empty_command quiet_device (PluginOptions false None 30%Z)
              (fun _ _ _ _ _ => inr tt) [Plain (txt "hostname R1")] [Plain (txt "end")]
              (Plain []) None None (World [] []) _ eq_refl quiet_device_answers eq_refl
              Hpre eq_refl) as [Heq _].
  rewrite Heq. reflexivity.
Defined.

(** ** Running commands *)

Lemma try_send_outcome ch r (check_rc : bool) w :
  try_send ch r (fun f => if check_rc then raise (AnsibleConnectionFailure f)
                          else ret (failure_text f)) w
  = (World (sent w ++ [r]) (caller_list w),
     match ch (sent w) r with
     | inr out => inr out
     | inl f => if check_rc then inl (AnsibleConnectionFailure f) else inr (failure_text f)
     end).
Proof.
  unfold try_send, send_command.
  destruct (ch (sent w) r) as [f | out]; [| reflexivity].
  now destruct check_rc.
Qed.

Lemma no_output_step ch (check_rc : bool) l ls responses w :
  no_output l = true ->
  run_lines ch check_rc (l :: ls) responses w
  = sbind (try_send ch (line_request l)
             (fun f => if check_rc then raise (AnsibleConnectionFailure f)
                       else ret (failure_text f)))
          (fun out => run_lines ch check_rc ls (responses ++ [out])) w.
Proof.
  intros H. cbn [run_lines]. unfold no_output in H.
  destruct (line_output l) as [[| c s] |]; try reflexivity. discriminate.
Qed.

(** With [check_rc] off the loop never stops on a connection failure. *)
Lemma run_lines_unchecked ch (ls : list line) :
  forallb no_output ls = true ->
  forall responses w,
    run_lines ch false ls responses w
    = (World (sent w ++ map line_request ls) (caller_list w),
       inr (responses ++ map reply_text (outcomes ch (sent w) (map line_request ls)))).
Proof.
  induction ls as [| l ls IH]; intros Hno responses w.
  - cbn. rewrite !app_nil_r. now destruct w.
  - cbn [forallb] in Hno. apply andb_prop in Hno as [Hl Hls].
    rewrite (no_output_step _ _ _ _ _ _ Hl).
    unfold sbind. rewrite (try_send_outcome ch _ false).
    destruct (ch (sent w) (line_request l)) as [f | out] eqn:Hch;
      rewrite (IH Hls); cbn [sent caller_list map outcomes]; rewrite Hch;
      cbn [reply_text map]; now rewrite <- !app_assoc.
Qed.

(** With [check_rc] on the loop stops at the first connection failure. *)
Lemma run_lines_checked ch (ls : list line) :
  forallb no_output ls = true ->
  forall responses w,
    snd (run_lines ch true ls responses w)
    = match first_failure (outcomes ch (sent w) (map line_request ls)) with
      | Some f => inl (AnsibleConnectionFailure f)
      | None => inr (responses ++ map reply_text (outcomes ch (sent w) (map line_request ls)))
      end.
Proof.
  induction ls as [| l ls IH]; intros Hno responses w.
  - cbn. now rewrite app_nil_r.
  - cbn [forallb] in Hno. apply andb_prop in Hno as [Hl Hls].
    rewrite (no_output_step _ _ _ _ _ _ Hl).
    unfold sbind. rewrite (try_send_outcome ch _ true).
    cbn [map outcomes first_failure].
    destruct (ch (sent w) (line_request l)) as [f | out] eqn:Hch; [reflexivity |].
    rewrite (IH Hls). cbn [sent caller_list first_failure reply_text map].
    destruct (first_failure _); [reflexivity |]. now rewrite <- app_assoc.
Qed.

(** C6. For commands without an [output] option: with [check_rc=True]
    the first connection failure of the channel is what [run_commands]
    raises, as it is; with [check_rc=False] nothing is raised and the list
    returned has one entry per command, the answer of the device or, for a
    command that failed, the text of the failure (its [err] attribute if it
    has one, its message otherwise).  So [run_commands(["show clock"],
    check_rc=False)] on a channel that fails returns the one-element list
    of the text of the failure. *)
Theorem run_commands_check_rc
    (ch : list request -> request -> failure + str) (commands : arg) (w : world) :
  commands <> ANone ->
  forallb no_output (to_list commands) = true ->
  let outs : list (failure + str) :=
    outcomes ch (sent w) (map line_request (to_list commands)) in
  (forall f, first_failure outs = Some f ->
     snd (run_commands ch commands true w) = inl (AnsibleConnectionFailure f))
  /\ snd (run_commands ch commands false w) = inr (map reply_text outs)
  /\ length (map reply_text outs) = length (to_list commands)
  /\ (forall (i : nat) f, outs !! i = Some (inl f) ->
        map reply_text outs !! i = Some (failure_text f))
  /\ (forall f, ch (sent w) (req "show clock") = inl f ->
        snd (run_commands ch (AList [Plain (txt "show clock")]) false w)
        = inr [failure_text f])
  /\ (forall f, err f = None -> failure_text f = message f).
Proof.
  intros Hsome Hno outs.
  assert (Hrun : forall rc, run_commands ch commands rc w
                            = run_lines ch rc (to_list commands) [] w).
  { intros rc. destruct commands; [contradiction | reflexivity | reflexivity]. }
  repeat split.
  - intros f Hf. rewrite Hrun, (run_lines_checked ch _ Hno). fold outs. now rewrite Hf.
  - rewrite Hrun, (run_lines_unchecked ch _ Hno). reflexivity.
  - unfold outs. now rewrite length_map, outcomes_length, length_map.
  - intros i f Hi. rewrite list_lookup_fmap, Hi. reflexivity.
  - intros f Hf. cbn [run_commands to_list].
    rewrite (run_lines_unchecked ch [Plain (txt "show clock")] eq_refl).
    cbn [snd map outcomes line_request app]. unfold req in Hf. rewrite Hf. reflexivity.
  - intros f Hf. unfold failure_text. now rewrite Hf.
Qed.

Lemma run_commands_check_rc_witness :
  snd (run_commands (fun _ _ => inl (Failure (txt "timeout waiting for prompt") None))
         (AList [Plain (txt "show clock")]) false (World [] []))
  = inr [txt "timeout waiting for prompt"].
Proof.
  pose proof (run_commands_check_rc
                (fun _ _ => inl (Failure (txt "timeout waiting for prompt") None))
                (AList [Plain (txt "show clock")]) (World [] [])) as H.
  assert (Hsome : AList [Plain (txt "show clock")] <> ANone) by discriminate.
  destruct (H Hsome eq_refl) as (_ & Heq & _).
  exact Heq.
Defined.

(** ** Uploading a macro *)

Lemma rev_snoc_cons (body : list str) (last_ : str) :
  rev (body ++ [last_]) = last_ :: rev body.
Proof. now rewrite rev_app_distr. Qed.

(** C10. [edit_macro] with [commit=True], once the capability check has
    passed and the device has answered "config terminal", leaves the
    caller's list without its first element, the macro header, and without
    its last one, the delimiter: a list of at least two elements keeps its
    body lines only, whatever happens to the requests sent afterwards. *)
Theorem edit_macro_consumes_candidate
    (ch : list request -> request -> failure + str)
    (check : device_operations -> arg -> bool -> option str -> option str -> result unit)
    (replace_ comment : option str) (w : world)
    (first last_ out : str) (body : list str) :
  caller_list w = first :: body ++ [last_] ->
  check get_device_operations (AList (map Plain (caller_list w))) true replace_ comment
    = inr tt ->
  ch (sent w) (req "config terminal") = inr out ->
  caller_list (fst (edit_macro ch check true replace_ comment w)) = body.
Proof.
  intros Hlist Hcheck Hout. unfold edit_macro.
  rewrite (sbind_ok _ _ w w (caller_list w) eq_refl).
  rewrite Hcheck. cbn [lift].
  rewrite (sbind_ok _ _ w w tt eq_refl).
  erewrite sbind_ok by (apply send_ok; exact Hout).
  erewrite sbind_ok by reflexivity.
  erewrite sbind_ok.
  2:{ unfold pop_first. cbn [caller_list sent]. rewrite Hlist. reflexivity. }
  erewrite sbind_ok.
  2:{ unfold pop_last. cbn [caller_list sent]. rewrite rev_snoc_cons. reflexivity. }
  rewrite rev_involutive.
  erewrite sbind_ok by reflexivity.
  cbn [caller_list].
  unfold sbind, send, send_command, sleep, ret. cbn [sent caller_list].
  repeat (match goal with
          | |- context [ch ?l ?r] => destruct (ch l r); cbn [fst caller_list]
          end); reflexivity.
Qed.

Lemma edit_macro_consumes_candidate_witness :
  caller_list (fst (edit_macro quiet_device (fun _ _ _ _ _ => inr tt) true None None
                      (World [] [txt "macro name m1"; txt "description x";
                                 txt "switchport"; txt "@"])))
  = [txt "description x"; txt "switchport"].
Proof.
  apply (edit_macro_consumes_candidate quiet_device (fun _ _ _ _ _ => inr tt) None None
           (World [] [txt "macro name m1"; txt "description x"; txt "switchport"; txt "@"])
           (txt "macro name m1") (txt "@") []
           [txt "description x"; txt "switchport"]);
    reflexivity.
Defined.

(** ** Validation of the arguments of get_diff *)

Lemma str_in_In (x : str) (xs : list str) : str_in x xs = true <-> In x xs.
Proof.
  unfold str_in, str_eqb. rewrite existsb_exists. split.
  - intros [y [Hy Heq]]. apply bool_decide_eq_true in Heq. now subst.
  - intros H. exists x. split; [exact H | now apply bool_decide_eq_true].
Qed.

Lemma str_in_not_In (x : str) (xs : list str) : ~ In x xs -> str_in x xs = false.
Proof.
  intros H. destruct (str_in x xs) eqn:E; [| reflexivity].
  now apply str_in_In in E.
Qed.

(** C7. [get_diff] raises a [ValueError], and so returns no diff, when
    the candidate is absent (the capability map is fixed: no on-device
    diff), when [diff_match] is none of line, strict, exact, none, and when
    [diff_replace] is neither line nor block. *)
Theorem get_diff_invalid_argument
    (G : list regex) (candidate running : option str) (diff_match_ diff_replace_ : str)
    (diff_ignore_lines : list regex) (path : list str) :
  candidate = None
  \/ ~ In diff_match_ [txt "line"; txt "strict"; txt "exact"; txt "none"]
  \/ ~ In diff_replace_ [txt "line"; txt "block"] ->
  is_ValueError (get_diff G candidate running diff_match_ diff_ignore_lines path diff_replace_)
  = true
  /\ supports_onbox_diff get_device_operations = false.
Proof.
  intros H. split; [| reflexivity]. unfold get_diff.
  destruct candidate as [c |]; [| reflexivity].
  destruct H as [H | [H | H]]; [discriminate | |].
  - change (diff_match get_option_values)
      with [txt "line"; txt "strict"; txt "exact"; txt "none"].
    now rewrite (str_in_not_In _ _ H).
  - change (diff_replace get_option_values) with [txt "line"; txt "block"].
    destruct (negb (str_in diff_match_ (diff_match get_option_values))); [reflexivity |].
    now rewrite (str_in_not_In _ _ H).
Qed.

Lemma get_diff_invalid_argument_witness :
  is_ValueError (get_diff [] (Some (txt "hostname R1")) None (txt "fuzzy") [] [] (txt "line"))
  = true.
Proof.
  apply (get_diff_invalid_argument [] (Some (txt "hostname R1")) None (txt "fuzzy")
           (txt "line") [] []).
  right; left. intros H. repeat (destruct H as [H | H]; [discriminate H |]). exact H.
Defined.

(** ** The diff of the banners *)





(** ** Facts about strings and the matcher *)

Lemma strip_prefix_Some (p s s' : str) : strip_prefix p s = Some s' -> s = p ++ s'.
Proof.
  revert s. induction p as [| a p IH]; intros s H; cbn in H.
  - now injection H as <-.
  - destruct s as [| b s]; [discriminate |].
    destruct (bool_decide_reflect (a = b)) as [-> |]; [| discriminate].
    cbn. f_equal. now apply IH.
Qed.

Lemma strip_prefix_self (p s : str) : strip_prefix p (p ++ s) = Some s.
Proof.
  induction p as [| a p IH]; cbn; [reflexivity |].
  now rewrite bool_decide_eq_true_2.
Qed.

Lemma strip_prefix_app (p q s : str) :
  strip_prefix (p ++ q) s
  = match strip_prefix p s with
    | Some s' => strip_prefix q s'
    | None => None
    end.
Proof.
  revert s. induction p as [| a p IH]; intros s; cbn; [reflexivity |].
  destruct s as [| b s]; [reflexivity |].
  destruct (bool_decide (a = b)); [apply IH | reflexivity].
Qed.

Lemma startswith_true (s p : str) : startswith s p = true <-> exists s', s = p ++ s'.
Proof.
  unfold startswith. split.
  - destruct (strip_prefix p s) as [s' |] eqn:E; [| discriminate].
    intros _. exists s'. now apply strip_prefix_Some.
  - intros [s' ->]. now rewrite strip_prefix_self.
Qed.

Lemma contains_true (s p : str) : contains s p = true <-> exists a b, s = a ++ p ++ b.
Proof.
  split.
  - induction s as [| c s IH]; cbn; intros H.
    + rewrite orb_false_r in H. apply startswith_true in H as [s' Hs'].
      exists [], s'. exact Hs'.
    + apply orb_prop in H as [H | H].
      * apply startswith_true in H as [s' Hs']. exists [], s'. exact Hs'.
      * destruct (IH H) as (a & b & ->). exists (c :: a), b. reflexivity.
  - intros (a & b & ->). induction a as [| c a IH].
    + cbn [app]. destruct (p ++ b) eqn:E; cbn; rewrite <- ?E;
        (replace (startswith _ p) with true; [reflexivity |]);
        symmetry; apply startswith_true; eauto.
    + cbn. rewrite IH. apply orb_true_r.
Qed.

Lemma drop_ws_suffix (s : str) : exists v, s = v ++ drop_ws s.
Proof.
  induction s as [| c s [v IH]]; [now exists [] |].
  cbn [drop_ws]. destruct (is_space c); [| now exists []].
  exists (c :: v). cbn [app]. now rewrite <- IH.
Qed.

(** Stripping at the right gives a first part of the text. *)
Lemma rstrip_prefix (u : str) : exists v, u = rstrip u ++ v.
Proof.
  unfold rstrip.
  assert (H : forall s, exists v, s = v ++ drop_ws s).
  { induction s as [| c s [v IH]]; [now exists [] |].
    cbn [drop_ws]. destruct (is_space c); [| now exists []].
    exists (c :: v). cbn [app]. now rewrite <- IH. }
  destruct (H (rev u)) as [v Hv]. exists (rev v).
  rewrite <- rev_app_distr, <- Hv. now rewrite rev_involutive.
Qed.

Lemma consumed_app (a b : str) : consumed (a ++ b) b = a.
Proof.
  unfold consumed. rewrite length_app.
  replace (length a + length b - length b) with (length a) by lia.
  now rewrite take_app_length.
Qed.

Lemma last_of_app (a b : str) (d : option ascii) :
  last_of (a ++ b) d = last_of b (last_of a d).
Proof.
  unfold last_of. rewrite rev_app_distr.
  destruct (rev b) as [| c r]; [| reflexivity]. reflexivity.
Qed.

Lemma last_of_cons (c : ascii) (s : str) (d : option ascii) :
  last_of (c :: s) d = last_of s (Some c).
Proof. apply (last_of_app [c] s d). Qed.

(** [re.sub] leaves alone a text in which the pattern has no match. *)
Lemma sub_go_no_match (r : regex) (repl s : str) :
  forall pv, search_go r pv s = None -> sub_go r repl pv 0 s = s.
Proof.
  induction s as [| c s IH]; intros pv H; cbn in *.
  - destruct (match_at r pv []); [discriminate | reflexivity].
  - destruct (match_at r pv (c :: s)); [discriminate |].
    f_equal. now apply IH.
Qed.

(** A search passes over a stretch of text in which no match starts. *)
Lemma search_go_skip (r : regex) (s : str) (pre : str) :
  forall pv,
    (forall a b, pre = a ++ b -> b <> [] -> match_at r (last_of a pv) (b ++ s) = None) ->
    search_go r pv (pre ++ s) = search_go r (last_of pre pv) s.
Proof.
  induction pre as [| c pre IH]; intros pv H; [reflexivity |].
  cbn [app search_go].
  assert (H0 : match_at r pv (c :: pre ++ s) = None)
    by (apply (H [] (c :: pre) eq_refl); discriminate).
  rewrite H0.
  rewrite (IH (Some c)); [now rewrite last_of_cons |].
  intros a b -> Hb. specialize (H (c :: a) b eq_refl Hb).
  now rewrite last_of_cons in H.
Qed.

Lemma span_after_span (p : ascii -> bool) (s : str) : span p s ++ after_span p s = s.
Proof.
  induction s as [| c s IH]; cbn; [reflexivity |].
  destruct (p c); cbn; [now rewrite IH | reflexivity].
Qed.

Lemma span_all (p : ascii -> bool) (w s : str) :
  forallb p w = true ->
  match s with c :: _ => p c = false | [] => True end ->
  span p (w ++ s) = w /\ after_span p (w ++ s) = s.
Proof.
  intros Hw Hs. induction w as [| c w IH]; cbn in *.
  - destruct s as [| c s]; [split; reflexivity |]. cbn. rewrite Hs. split; reflexivity.
  - apply andb_prop in Hw as [Hc Hw]. rewrite Hc.
    destruct (IH Hw) as [-> ->]. split; reflexivity.
Qed.

(** A greedy repetition of a character class before a continuation that
    cannot fail takes the longest run of characters of the class. *)
Lemma rep_chr_greedy (R : Type) (p : ascii -> bool) (k : mstate -> option R) :
  (forall st, k st <> None) ->
  forall n s pv cs,
    length s <= n ->
    rep_loop R (run R (Chr p)) true k n (MState pv s cs)
    = k (MState (last_of (span p s) pv) (after_span p s) cs).
Proof.
  intros Hk. induction n as [| n IH]; intros s pv cs Hn.
  - destruct s; [reflexivity | cbn in Hn; lia].
  - cbn [rep_loop run rest caps].
    destruct s as [| c s]; [reflexivity |].
    cbn [span after_span]. destruct (p c) eqn:Hp; [| reflexivity].
    unfold shorter. cbn [rest length].
    replace (length s <? S (length s)) with true by (symmetry; apply Nat.ltb_lt; lia).
    rewrite IH by (cbn in Hn; lia).
    rewrite last_of_cons.
    destruct (k _) eqn:E; [reflexivity | now apply Hk in E].
Qed.

(** A lazy repetition of any character stops at the first place where
    the continuation succeeds. *)
Lemma rep_any_lazy (R : Type) (k : mstate -> option R) (t : str) (cs : list (nat * str)) (x : R) :
  forall b pv n,
    length (b ++ t) <= n ->
    (forall a b', b = a ++ b' -> b' <> [] -> k (MState (last_of a pv) (b' ++ t) cs) = None) ->
    k (MState (last_of b pv) t cs) = Some x ->
    rep_loop R (run R (Chr dot_all)) false k n (MState pv (b ++ t) cs) = Some x.
Proof.
  induction b as [| c b IH]; intros pv n Hn Hfail Hk.
  - cbn [app]. destruct n; cbn [rep_loop]; [exact Hk |].
    change (last_of [] pv) with pv in Hk. now rewrite Hk.
  - destruct n as [| n]; [cbn in Hn; lia |].
    cbn [app rep_loop run rest caps].
    assert (H0 : k (MState pv (c :: b ++ t) cs) = None)
      by (apply (Hfail [] (c :: b) eq_refl); discriminate).
    rewrite H0.
    cbn [dot_all]. unfold shorter. cbn [rest length].
    replace (length (b ++ t) <? S (length (b ++ t))) with true
      by (symmetry; apply Nat.ltb_lt; lia).
    apply IH.
    + cbn in Hn. lia.
    + intros a b' -> Hb'. specialize (Hfail (c :: a) b' eq_refl Hb').
      now rewrite last_of_cons in Hfail.
    + now rewrite last_of_cons in Hk.
Qed.

(** ** Banner extraction *)

Lemma span_forallb (p : ascii -> bool) (s : str) : forallb p (span p s) = true.
Proof.
  induction s as [| c s IH]; cbn; [reflexivity |].
  destruct (p c) eqn:E; cbn; [now rewrite E, IH | reflexivity].
Qed.

(** What a match of the declaration pattern at a given place is. *)
Lemma match_at_banner_decl (pv : option ascii) (t : str) :
  match_at banner_decl pv t
  = if at_bol (MState pv t []) then
      match strip_prefix (txt "banner ") t with
      | Some (c :: t') =>
          if is_word c then
            Some (RMatch (txt "banner " ++ c :: span is_word t')
                         [(1, c :: span is_word t')] (after_span is_word t'))
          else None
      | _ => None
      end
    else None.
Proof.
  unfold match_at, banner_decl, Plus. cbn [run].
  destruct (at_bol (MState pv t [])); [| reflexivity].
  cbn [rest prev caps].
  destruct (strip_prefix (txt "banner ") t) as [s1 |] eqn:Hs1; [| reflexivity].
  destruct s1 as [| c t']; [reflexivity |].
  destruct (is_word c); [| reflexivity].
  etransitivity.
  { apply (rep_chr_greedy rmatch is_word); [intros st; discriminate | lia]. }
  cbn [rest prev caps]. apply strip_prefix_Some in Hs1. subst t.
  f_equal. f_equal.
  - rewrite <- (span_after_span is_word t') at 1.
    change (txt "banner " ++ c :: span is_word t' ++ after_span is_word t')
      with (txt "banner " ++ (c :: span is_word t') ++ after_span is_word t').
    rewrite app_assoc. apply consumed_app.
  - f_equal. f_equal.
    rewrite <- (span_after_span is_word t') at 1.
    apply (consumed_app (c :: span is_word t')).
Qed.

Lemma banner_decl_match (pv : option ascii) (t : str) (m : rmatch) :
  match_at banner_decl pv t = Some m ->
  exists w, m_text m = txt "banner " ++ w
            /\ forallb is_word w = true
            /\ t = m_text m ++ m_rest m.
Proof.
  rewrite match_at_banner_decl.
  destruct (at_bol _); [| discriminate].
  destruct (strip_prefix (txt "banner ") t) as [[| c t'] |] eqn:Hs; try discriminate.
  destruct (is_word c) eqn:Hc; [| discriminate].
  intros H. injection H as <-. cbn [m_text m_rest].
  exists (c :: span is_word t'). split; [reflexivity |]. split.
  - cbn. now rewrite Hc, span_forallb.
  - apply strip_prefix_Some in Hs. subst t.
    cbn. now rewrite span_after_span.
Qed.

Lemma banner_decl_here (pv : option ascii) (name t : str) :
  at_bol (MState pv [] []) = true ->
  name <> [] -> forallb is_word name = true ->
  exists m, match_at banner_decl pv (declaration name ++ t) = Some m /\ group m 1 = name.
Proof.
  intros Hbol Hne Hw. rewrite match_at_banner_decl.
  change (at_bol (MState pv (declaration name ++ t) [])) with (at_bol (MState pv [] [])).
  rewrite Hbol. unfold declaration. rewrite <- !app_assoc, strip_prefix_self.
  destruct name as [| c w]; [contradiction |].
  cbn [app]. cbn in Hw. apply andb_prop in Hw as [Hc Hw]. rewrite Hc.
  eexists. split; [reflexivity |].
  unfold group. cbn [m_caps assoc_cap Nat.eqb default].
  destruct (span_all is_word w (txt " ^C" ++ t) Hw) as [Hs _]; [reflexivity |].
  unfold id. now rewrite Hs.
Qed.

Lemma is_word_not_nl (c : ascii) : is_word c = true -> is_nl c = false.
Proof.
  unfold is_nl, is_word. destruct (Nat.eqb_spec (code c) 10) as [E |]; [| reflexivity].
  rewrite E. cbn. discriminate.
Qed.

Lemma ends_line_tail (c : ascii) (s : str) : ends_line (c :: s) -> ends_line s.
Proof.
  intros [H | [p H]]; [discriminate |].
  destruct p as [| d p]; cbn in H; injection H as _ H.
  - left. exact H.
  - right. exists p. exact H.
Qed.

Lemma ends_line_suffix (a b : str) : ends_line (a ++ b) -> b <> [] -> exists b0, b = b0 ++ [nl].
Proof.
  intros [H | [p H]] Hb.
  - apply app_eq_nil in H as [_ H]. contradiction.
  - destruct b as [| x b0 _] using rev_ind; [contradiction |].
    rewrite app_assoc in H. apply app_inj_tail in H as [_ ->]. eauto.
Qed.

Lemma forallb_not_nl_app (a : str) (s : str) :
  forallb (fun c => negb (is_nl c)) (a ++ nl :: s) = false.
Proof.
  rewrite forallb_app. cbn. apply andb_false_r.
Qed.

(** A text without line end that starts inside a stretch ending a line
    stops before the end of the stretch. *)
Lemma text_within (text r pre s : str) :
  text ++ r = pre ++ s ->
  ends_line pre -> pre <> [] ->
  forallb (fun c => negb (is_nl c)) text = true ->
  length text < length pre.
Proof.
  intros Heq [Hnil | [p ->]] Hne Hno; [contradiction |].
  apply app_eq_app in Heq as [l [[Ht _] | [Hp _]]].
  - rewrite Ht, <- app_assoc in Hno. cbn in Hno.
    now rewrite forallb_not_nl_app in Hno.
  - destruct l as [| x l].
    + rewrite app_nil_r in Hp. rewrite <- Hp in Hno.
      now rewrite (forallb_not_nl_app p []) in Hno.
    + rewrite Hp, length_app. cbn. lia.
Qed.

(** The scan for declarations passes a stretch of whole lines and then
    starts afresh. *)
Lemma scan_banner_decl (s : str) :
  forall pre pv skip,
    ends_line pre ->
    skip = 0 \/ skip < length pre ->
    exists ms, matches_go banner_decl pv skip (pre ++ s)
               = ms ++ matches_go banner_decl (last_of pre pv) 0 s.
Proof.
  induction pre as [| c pre IH]; intros pv skip Hend Hskip.
  - destruct Hskip as [-> | H]; [| cbn in H; lia]. exists []. reflexivity.
  - pose proof (ends_line_tail _ _ Hend) as Hend'.
    rewrite last_of_cons. destruct skip as [| k].
    + cbn [app matches_go].
      destruct (match_at banner_decl pv (c :: pre ++ s)) as [m |] eqn:Hm.
      * destruct (banner_decl_match _ _ _ Hm) as (w & Htext & Hw & Hsplit).
        assert (Hlen : length (m_text m) < length (c :: pre)).
        { apply (text_within (m_text m) (m_rest m) (c :: pre) s);
            [now rewrite <- Hsplit | exact Hend | discriminate |].
          rewrite Htext, forallb_app. apply andb_true_intro. split; [reflexivity |].
          apply forallb_forall. intros x Hx.
          rewrite forallb_forall in Hw. now rewrite (is_word_not_nl x (Hw x Hx)). }
        destruct (IH (Some c) (length (m_text m) - 1) Hend') as [ms Hms].
        { cbn in Hlen. lia. }
        exists (m :: ms). now rewrite Hms.
      * destruct (IH (Some c) 0 Hend') as [ms Hms]; [now left |].
        exists ms. exact Hms.
    + cbn [app matches_go].
      destruct (IH (Some c) k Hend') as [ms Hms]; [cbn in Hskip; lia |].
      exists ms. exact Hms.
Qed.

Lemma ends_line_at_bol (pre : str) : ends_line pre -> at_bol (MState (last_of pre None) [] []) = true.
Proof.
  intros [-> | [p ->]]; [reflexivity |].
  rewrite last_of_app. reflexivity.
Qed.

(** A banner declared at the start of a line is among the names found. *)
Lemma banner_cmds_declared (pre name t : str) :
  ends_line pre -> name <> [] -> forallb is_word name = true ->
  In name (map (fun m => group m 1) (re_finditer banner_decl (pre ++ declaration name ++ t))).
Proof.
  intros Hend Hne Hw. unfold re_finditer.
  destruct (scan_banner_decl (declaration name ++ t) pre None 0 Hend) as [ms ->]; [now left |].
  rewrite map_app, in_app_iff. right.
  destruct (banner_decl_here (last_of pre None) name t (ends_line_at_bol pre Hend) Hne Hw)
    as (m & Hm & Hg).
  destruct (declaration name ++ t) as [| c u] eqn:E.
  - unfold declaration in E. destruct (txt "banner ") eqn:E2; discriminate.
  - cbn [matches_go]. rewrite Hm. left. exact Hg.
Qed.

Lemma banner_body_fail (name t : str) (pv : option ascii) :
  startswith t (declaration name) = false ->
  match_at (banner_body name) pv t = None.
Proof.
  unfold startswith, declaration. rewrite strip_prefix_app.
  unfold match_at, banner_body. cbn [run rest].
  destruct (strip_prefix (txt "banner ") t) as [t1 |]; [| reflexivity].
  rewrite strip_prefix_app.
  cbn [rest]. destruct (strip_prefix name t1) as [t2 |]; [| reflexivity].
  cbn [rest]. destruct (strip_prefix (txt " ^C") t2) as [t3 |]; [discriminate | reflexivity].
Qed.

Lemma declaration_no_nl (name : str) :
  forallb is_word name = true ->
  forallb (fun c => negb (is_nl c)) (declaration name) = true.
Proof.
  intros Hw. unfold declaration. rewrite !forallb_app.
  repeat (apply andb_true_intro; split); try reflexivity.
  apply forallb_forall. intros x Hx. rewrite forallb_forall in Hw.
  now rewrite (is_word_not_nl x (Hw x Hx)).
Qed.

(** No declaration of [name] starts inside a stretch of whole lines that
    does not contain one. *)
Lemma no_declaration_before (pre name a b s : str) :
  ends_line pre -> forallb is_word name = true ->
  contains pre (declaration name) = false ->
  pre = a ++ b -> b <> [] ->
  startswith (b ++ s) (declaration name) = false.
Proof.
  intros Hend Hw Hno -> Hb.
  destruct (startswith (b ++ s) (declaration name)) eqn:E; [| reflexivity].
  apply startswith_true in E as [s' E].
  apply app_eq_app in E as [l [[Hb' _] | [Hd _]]].
  - assert (Hc : contains (a ++ b) (declaration name) = true).
    { apply contains_true. exists a, l. now rewrite Hb'. }
    congruence.
  - destruct (ends_line_suffix a b Hend Hb) as [b0 ->].
    pose proof (declaration_no_nl name Hw) as Hnl.
    rewrite Hd, <- !app_assoc in Hnl. cbn in Hnl.
    now rewrite forallb_not_nl_app in Hnl.
Qed.

Lemma delimiter_not_inside (body a b post : str) :
  contains body (txt "^C") = false ->
  body = a ++ b -> b <> [] ->
  strip_prefix (txt "^C") (b ++ txt "^C" ++ post) = None.
Proof.
  intros Hno -> Hb.
  destruct (strip_prefix (txt "^C") (b ++ txt "^C" ++ post)) as [y |] eqn:E; [| reflexivity].
  apply strip_prefix_Some in E.
  destruct b as [| c1 [| c2 b]]; [contradiction | |].
  - cbn in E. injection E as _ E _. discriminate E.
  - cbn in E. injection E as -> -> _.
    assert (Hc : contains (a ++ "^"%char :: "C"%char :: b) (txt "^C") = true).
    { apply contains_true. exists a, b. reflexivity. }
    congruence.
Qed.

(** At a declaration followed by a body without delimiter inside, the body
    pattern captures that body. *)
Lemma banner_body_here (name body post : str) (pv : option ascii) :
  body <> [] -> contains body (txt "^C") = false ->
  exists m, match_at (banner_body name) pv (declaration name ++ body ++ txt "^C" ++ post)
            = Some m
            /\ group m 1 = body.
Proof.
  intros Hne Hno. destruct body as [| c b]; [contradiction |].
  unfold match_at, banner_body, declaration, Plus. cbn [run rest prev caps].
  rewrite <- !app_assoc, strip_prefix_self. cbn [rest prev caps].
  rewrite strip_prefix_self. cbn [rest prev caps].
  rewrite strip_prefix_self. cbn [rest prev caps app dot_all].
  eexists. split.
  - apply rep_any_lazy.
    + lia.
    + intros a b' Hab Hb'. cbn [rest prev caps run].
      rewrite (delimiter_not_inside (c :: b) (c :: a) b' post Hno); [reflexivity | | exact Hb'].
      now rewrite Hab.
    + cbn [rest prev caps run]. rewrite strip_prefix_self. reflexivity.
  - unfold group. cbn [m_caps assoc_cap Nat.eqb default].
    apply (consumed_app (c :: b) (txt "^C" ++ post)).
Qed.

Lemma banner_body_search (pre name body post : str) :
  ends_line pre -> forallb is_word name = true ->
  contains pre (declaration name) = false ->
  body <> [] -> contains body (txt "^C") = false ->
  exists m, re_search (banner_body name) (pre ++ declaration name ++ body ++ txt "^C" ++ post)
            = Some m
            /\ group m 1 = body.
Proof.
  intros Hend Hw Hpre Hne Hno. unfold re_search.
  rewrite search_go_skip.
  - destruct (banner_body_here name body post (last_of pre None) Hne Hno) as (m & Hm & Hg).
    exists m. split; [| exact Hg].
    destruct (declaration name ++ body ++ txt "^C" ++ post); cbn [search_go]; now rewrite Hm.
  - intros a b Hab Hb. apply banner_body_fail.
    now apply (no_declaration_before pre name a b).
Qed.

Lemma banner_key_inj (a b : str) : banner_key a = banner_key b -> a = b.
Proof. unfold banner_key. apply app_inv_head. Qed.

(** The first loop of [_extract_banners]: the entry of a name found holds
    the body its search captures. *)
Lemma banners_fold (config name : str) (m : rmatch) :
  re_search (banner_body name) config = Some m ->
  forall (cmds : list str) (acc : gmap str str),
    In name cmds \/ acc !! banner_key name = Some (strip (group m 1)) ->
    fold_left
      (fun (banners : gmap str str) cmd =>
         match re_search (banner_body cmd) config with
         | Some m' => <[banner_key cmd := strip (group m' 1)]> banners
         | None => banners
         end) cmds acc !! banner_key name
    = Some (strip (group m 1)).
Proof.
  intros Hm. induction cmds as [| cmd cmds IH]; intros acc H.
  - destruct H as [[] | H]. exact H.
  - cbn [fold_left]. apply IH.
    destruct (decide (cmd = name)) as [-> | Hneq].
    + right. rewrite Hm. apply lookup_insert_eq.
    + destruct H as [[H | H] | H]; [contradiction | now left |].
      right. destruct (re_search (banner_body cmd) config); [| exact H].
      rewrite lookup_insert_ne; [exact H |].
      intros E. apply banner_key_inj in E. contradiction.
Qed.

(** Counterexample to C8: a text without any line that starts a banner
    declaration, which the extraction nevertheless changes. *)
Lemma extract_banners_changes_text :
  let config := txt "description banner x ^C^C" in
  re_finditer banner_decl config = []
  /\ Forall (fun l => startswith l (txt "banner") = false) (split_lines config)
  /\ snd (_extract_banners config) = ∅
  /\ fst (_extract_banners config) = txt "description !! banner removed"
  /\ fst (_extract_banners config) <> config.
Proof.
  cbn zeta. split; [vm_compute; reflexivity |].
  split; [repeat constructor |].
  split; [vm_compute; reflexivity |].
  split; [vm_compute; reflexivity |].
  vm_compute. discriminate.
Qed.

(** C8, amended. A text in which no line starts a banner declaration and
    the pattern of an emptied banner, "banner", a name and two delimiters,
    has no match anywhere comes back unchanged with an empty banner map.
    When a line starts with the declaration of the banner [name] (the first
    such declaration in the text) followed by a non-empty body that does
    not contain the delimiter and by the delimiter, the map holds the body,
    stripped, under the key "banner" followed by the name. *)
Theorem extract_banners_spec (config : str) :
  (re_finditer banner_decl config = [] ->
   re_search banner_pair config = None ->
   _extract_banners config = (config, ∅))
  /\ (forall pre name body post,
        config = pre ++ declaration name ++ body ++ txt "^C" ++ post ->
        ends_line pre ->
        name <> [] -> forallb is_word name = true ->
        contains pre (declaration name) = false ->
        body <> [] -> contains body (txt "^C") = false ->
        snd (_extract_banners config) !! (txt "banner " ++ name) = Some (strip body)).
Proof.
  split.
  - intros Hdecl Hpair. unfold _extract_banners. rewrite Hdecl. cbn [map fold_left].
    f_equal. unfold re_sub. now apply sub_go_no_match.
  - intros pre name body post -> Hend Hne Hw Hpre Hbody Hno.
    destruct (banner_body_search pre name body post Hend Hw Hpre Hbody Hno) as (m & Hm & Hg).
    unfold _extract_banners. cbn [snd].
    replace (strip body) with (strip (group m 1)) by (now rewrite Hg).
    apply (banners_fold _ _ _ Hm). left.
    now apply banner_cmds_declared.
Qed.

Lemma extract_banners_spec_witness :
  snd (_extract_banners (txt "hostname R1
banner motd ^C
 Authorised access only
^C
end")) !! txt "banner motd" = Some (txt "Authorised access only").
Proof.
  apply (proj2 (extract_banners_spec _)
           (txt "hostname R1
") (txt "motd") (txt "
 Authorised access only
") (txt "
end")).
  - reflexivity.
  - right. exists (txt "hostname R1"). reflexivity.
  - discriminate.
  - reflexivity.
  - reflexivity.
  - discriminate.
  - reflexivity.
Defined.

(** ** The diff of an exact match, section by section *)

Lemma negate_within (want have : list NetworkConfig.obj) (acc : str * list str) :
  lines_within have want = true ->
  fold_left (negate_line want) have acc = acc.
Proof.
  unfold lines_within. revert acc. induction have as [| l have IH]; intros acc H; [reflexivity |].
  cbn [forallb] in H. apply andb_prop in H as [Hl H].
  cbn [fold_left]. unfold negate_line at 2. destruct acc as [negates negated_parents].
  rewrite Hl. now apply IH.
Qed.

Lemma wants_within (want have : list NetworkConfig.obj) (acc : str) :
  lines_within want have = true ->
  fold_left (want_line have) want acc = acc.
Proof.
  unfold lines_within. revert acc. induction want as [| l want IH]; intros acc H; [reflexivity |].
  cbn [forallb] in H. apply andb_prop in H as [Hl H].
  cbn [fold_left]. unfold want_line at 2. rewrite Hl. now apply IH.
Qed.

(** A section whose block the running text holds adds nothing. *)
Lemma section_diff_agree (G : list regex) (running : option str) (m : rmatch) (text : str) :
  blocks_agree G running m ->
  section_diff running [] (G, text) m = inr (G, text).
Proof.
  intros (want & have & Hw & Hh & Hhw & Hwh).
  unfold section_diff, add_ignore. rewrite app_nil_r.
  unfold have_block, anchor in Hh. unfold want_block, anchor, section_text in Hw.
  rewrite Hh, Hw. cbn [bind].
  rewrite (negate_within want have _ Hhw), (wants_within want have _ Hwh).
  cbn [fst]. now rewrite !app_nil_r.
Qed.

Lemma sections_agree (G : list regex) (running : option str) (ms : list rmatch) (text : str) :
  Forall (blocks_agree G running) ms ->
  fold_left (fun acc m => a <- acc ;; section_diff running [] a m) ms (inr (G, text))
  = inr (G, text).
Proof.
  induction 1 as [| m ms Hm _ IH]; [reflexivity |].
  cbn [fold_left bind]. now rewrite (section_diff_agree G running m text Hm).
Qed.

(** Counterexample to C3: a text in which two sections start with the same
    line is not a fixed point of the exact diff. *)
Lemma get_diff_exact_not_idempotent :
  exists d,
    get_diff NetworkConfig.DEFAULT_IGNORE_LINES_RE (Some repeated_head) (Some repeated_head)
             (txt "exact") [] [] (txt "line") = inr d
    /\ config_diff d = txt "a
no  b
a
 c"
    /\ config_diff d <> [].
Proof.
  eexists. split; [vm_compute; reflexivity |]. split; [reflexivity | discriminate].
Qed.

Lemma _diff_banners_same (b : gmap str str) : _diff_banners b b = ∅.
Proof.
  unfold _diff_banners. apply map_empty. intros k.
  apply map_lookup_filter_None. right. intros v Hv H. cbn in H. contradiction.
Qed.

Lemma obj_eqb_refl (o : NetworkConfig.obj) : NetworkConfig.obj_eqb o o = true.
Proof. unfold NetworkConfig.obj_eqb, str_eqb. now apply bool_decide_eq_true. Qed.

Lemma _diff_exact_same (t : NetworkConfig.tree) :
  NetworkConfig._diff_exact t (NetworkConfig.items t) = [].
Proof.
  unfold NetworkConfig._diff_exact. rewrite Nat.eqb_refl. cbn [negb].
  replace (forallb _ _) with true; [reflexivity |].
  symmetry. induction (NetworkConfig.items t) as [| o l IH]; [reflexivity |].
  cbn. now rewrite obj_eqb_refl.
Qed.

Lemma parse_empty (G : list regex) : NetworkConfig.parse G [] = [].
Proof. reflexivity. Qed.

Lemma new_parse (G : list regex) (s : str) :
  NetworkConfig.new G (Some s) = NetworkConfig.parse G s.
Proof.
  unfold NetworkConfig.new. destruct s; [symmetry; apply parse_empty | reflexivity].
Qed.

Lemma difference_exact_same (t : NetworkConfig.tree) :
  NetworkConfig.difference t t [] (txt "exact") (txt "line") = inr [].
Proof.
  unfold NetworkConfig.difference. cbn [length Nat.eqb negb andb bind].
  change (str_eqb (txt "exact") (txt "line")) with false.
  change (str_eqb (txt "exact") (txt "strict")) with false.
  change (str_eqb (txt "line") (txt "block")) with false.
  cbn [bind]. now rewrite _diff_exact_same.
Qed.

(** The exact diff of a text against itself is empty, for the lines and
    for the banners, when every section of the text, parsed on its own, has
    the lines that the whole text holds at the top-level line of the
    section; so it is for a text without section and without double line
    end. *)
Lemma exact_diff_of_agreeing_sections (G : list regex) (X : str) :
  (by_section X [] (txt "exact") = true ->
   Forall (blocks_agree G (Some X)) (sections X) ->
   get_diff G (Some X) (Some X) (txt "exact") [] [] (txt "line") = inr (Diff [] ∅))
  /\ (by_section X [] (txt "exact") = false ->
      collapsed X = X ->
      get_diff G (Some X) (Some X) (txt "exact") [] [] (txt "line") = inr (Diff [] ∅)).
Proof.
  split.
  - intros Hby Hagree. unfold get_diff.
    change (negb (str_in (txt "exact") (diff_match get_option_values))) with false.
    change (negb (str_in (txt "line") (diff_replace get_option_values))) with false.
    cbn match. unfold by_section, collapsed, blank_line in Hby. rewrite Hby.
    unfold sections, collapsed, blank_line in Hagree.
    match goal with
    | |- bind ?f _ = _ =>
        replace f with (inr (G, []) : result (list regex * str));
          [reflexivity | symmetry; exact (sections_agree G (Some X) _ [] Hagree)]
    end.
  - intros Hby Hsame. unfold get_diff.
    change (negb (str_in (txt "exact") (diff_match get_option_values))) with false.
    change (negb (str_in (txt "line") (diff_replace get_option_values))) with false.
    cbn match. unfold by_section in Hby. unfold collapsed, blank_line in Hby, Hsame.
    rewrite Hby, Hsame.
    destruct (_extract_banners X) as [src b] eqn:Hx.
    cbv zeta. cbn [default].
    change (str_eqb (txt "exact") (txt "none")) with false. cbn [negb].
    rewrite andb_true_r.
    destruct X as [| c X].
    + cbn in Hx. injection Hx as <- <-. reflexivity.
    + unfold id. cbn [length Nat.eqb negb]. rewrite Hx.
      unfold add_ignore. rewrite app_nil_r, new_parse, difference_exact_same.
      cbn [bind]. now rewrite _diff_banners_same.
Qed.






(** ** The sections of a candidate *)

Lemma is_nl_eq (c : ascii) : is_nl c = true -> c = nl.
Proof.
  unfold is_nl, code, nl. intros H. apply Nat.eqb_eq in H.
  rewrite <- (ascii_nat_embedding c). now rewrite H.
Qed.

Lemma after_span_length (p : ascii -> bool) (s : str) : length (after_span p s) <= length s.
Proof.
  induction s as [| c s IH]; cbn; [lia |]. destruct (p c); cbn; lia.
Qed.

Lemma after_span_dot (s : str) : after_span dot s = [] \/ exists s', after_span dot s = nl :: s'.
Proof.
  induction s as [| c s IH]; cbn; [now left |].
  destruct (dot c) eqn:E; [exact IH |].
  right. exists s. unfold dot in E. apply negb_false_iff in E.
  now rewrite (is_nl_eq c E).
Qed.

Lemma line_left_length (s : str) : length (line_left s) <= length s.
Proof.
  unfold line_left. pose proof (after_span_length dot s).
  destruct (after_span dot s); cbn in *; lia.
Qed.

Lemma line_split (s : str) : line_taken s ++ line_left s = s.
Proof.
  unfold line_taken, line_left. pose proof (span_after_span dot s) as H.
  destruct (after_span dot s); rewrite <- app_assoc; exact H.
Qed.

(** A greedy repetition of a character class takes the longest run when
    what follows succeeds there. *)
Lemma rep_chr_greedy_ok (R : Type) (p : ascii -> bool) (k : mstate -> option R) (x : R) :
  forall n s pv cs,
    length s <= n ->
    k (MState (last_of (span p s) pv) (after_span p s) cs) = Some x ->
    rep_loop R (run R (Chr p)) true k n (MState pv s cs) = Some x.
Proof.
  induction n as [| n IH]; intros s pv cs Hn Hk.
  - destruct s; [exact Hk | cbn in Hn; lia].
  - cbn [rep_loop run rest caps].
    destruct s as [| c s]; [exact Hk |].
    cbn [span after_span] in Hk. destruct (p c) eqn:Hp; [| exact Hk].
    unfold shorter. cbn [rest length].
    replace (length s <? S (length s)) with true by (symmetry; apply Nat.ltb_lt; lia).
    rewrite IH; [reflexivity | cbn in Hn; lia |].
    now rewrite last_of_cons in Hk.
Qed.

(** ".*\n?" before something that succeeds after the line. *)
Lemma run_line (R : Type) (k : mstate -> option R) (x : R) (pv : option ascii) (s : str)
    (cs : list (nat * str)) :
  k (MState (last_of (line_taken s) pv) (line_left s) cs) = Some x ->
  run R (Seq (Rep true (Chr dot)) (Opt (Lit [nl]))) (MState pv s cs) k = Some x.
Proof.
  intros Hk. cbn [run rest].
  apply (rep_chr_greedy_ok R dot); [lia |].
  cbn [run rest prev caps]. unfold line_taken, line_left in Hk.
  destruct (after_span_dot s) as [E | [s' E]]; rewrite E in *.
  - cbn [strip_prefix]. now rewrite app_nil_r in Hk.
  - cbn [strip_prefix]. rewrite bool_decide_eq_true_2 by reflexivity.
    rewrite last_of_app in Hk. cbn [last_of rev app] in *. now rewrite Hk.
Qed.

(** "\s+.*\n?" at a white space, before something that succeeds after the
    line. *)
Lemma run_child_body (R : Type) (k : mstate -> option R) (x : R) (pv : option ascii)
    (c : ascii) (s : str) (cs : list (nat * str)) :
  is_space c = true ->
  (forall pv', k (MState pv' (line_left (after_span is_space s)) cs) = Some x) ->
  run R child_body (MState pv (c :: s) cs) k = Some x.
Proof.
  intros Hc Hk. unfold child_body, Plus.
  set (L := Seq (Rep true (Chr dot)) (Opt (Lit [nl]))).
  cbn [run rest caps]. rewrite Hc.
  apply (rep_chr_greedy_ok R is_space); [lia |].
  subst L. apply run_line. apply Hk.
Qed.

(** The child group before something that succeeds after the children. *)
Lemma run_children (R : Type) (k : mstate -> option R) (x : R) (cs : list (nat * str)) :
  forall n s pv,
    length s <= n ->
    (forall pv', k (MState pv' (child_left n s) cs) = Some x) ->
    rep_loop R (run R child_body) true k n (MState pv s cs) = Some x.
Proof.
  induction n as [| n IH]; intros s pv Hn Hk.
  - cbn. apply Hk.
  - cbn [rep_loop]. cbn [child_left] in Hk.
    destruct s as [| c s].
    { unfold child_body, Plus. cbn [run rest]. apply Hk. }
    destruct (is_space c) eqn:Hc.
    + rewrite (run_child_body R _ x pv c s cs Hc); [reflexivity |].
      intros pv'. unfold shorter. cbn [rest].
      pose proof (line_left_length (after_span is_space s)).
      pose proof (after_span_length is_space s).
      replace (_ <? _) with true by (symmetry; apply Nat.ltb_lt; cbn; lia).
      apply IH; [cbn in Hn; lia | exact Hk].
    + unfold child_body at 1, Plus. cbn [run rest]. rewrite Hc. apply Hk.
Qed.

Lemma match_at_cand_pattern (pv : option ascii) (s : str) :
  match_at cand_pattern pv s = if at_bol (MState pv s []) then section_at s else None.
Proof.
  unfold match_at, cand_pattern. fold child_body.
  set (L := Seq (Rep true (Chr dot)) (Opt (Lit [nl]))).
  set (B := child_body).
  cbn [run].
  destruct (at_bol (MState pv s [])); [| reflexivity].
  cbn [rest caps prev]. unfold section_at.
  destruct s as [| c s]; [reflexivity |].
  destruct (is_word c); [| reflexivity].
  subst L. apply run_line. cbn [rest caps prev].
  subst B.
  apply (run_children rmatch _ _ [(1, consumed (c :: s) (line_left s))]); [lia |].
  intros pv'. reflexivity.
Qed.

(** ** Well-formed documents *)

Lemma unlines_cons (final : bool) (l : str) (ls : list str) :
  unlines final (l :: ls) = l ++ after_line final ls.
Proof. reflexivity. Qed.

Lemma tl_after_line (final : bool) (ls : list str) :
  tl (after_line final ls) = unlines final ls.
Proof. destruct ls; [destruct final |]; reflexivity. Qed.

Lemma after_line_eol (final : bool) (ls : list str) :
  after_line final ls = [] \/ after_line final ls = nl :: tl (after_line final ls).
Proof. destruct ls; [destruct final |]; cbn; auto. Qed.

Lemma unlines_app (final : bool) (ls1 ls2 : list str) :
  ls2 <> [] ->
  unlines final (ls1 ++ ls2) = unlines true ls1 ++ unlines final ls2.
Proof.
  intros Hne. induction ls1 as [| l ls1 IH]; [reflexivity |].
  cbn [app]. rewrite !unlines_cons, <- app_assoc. f_equal.
  destruct ls1 as [| l' ls1].
  - cbn [app]. destruct ls2; [contradiction | reflexivity].
  - cbn [app after_line] in *. now rewrite IH.
Qed.

Lemma is_word_not_space (c : ascii) : is_word c = true -> is_space c = false.
Proof.
  unfold is_word, is_space, between. intros H.
  destruct (is_space c) eqn:E; [| unfold is_space, between in E; exact E].
  exfalso. unfold is_space, between in E.
  repeat match goal with
         | H : _ || _ = true |- _ => apply orb_prop in H as [H | H]
         | H : _ && _ = true |- _ => apply andb_prop in H as [? ?]
         | H : (_ <=? _) = true |- _ => apply Nat.leb_le in H
         | H : (_ =? _) = true |- _ => apply Nat.eqb_eq in H
         end; lia.
Qed.

Lemma after_span_all (p : ascii -> bool) (l rest : str) :
  forallb p l = true ->
  match rest with c :: _ => p c = false | [] => True end ->
  after_span p (l ++ rest) = rest.
Proof. intros Hl Hr. now apply (span_all p l rest). Qed.

Lemma line_left_line (l rest : str) :
  forallb dot l = true ->
  rest = [] \/ rest = nl :: tl rest ->
  line_left (l ++ rest) = tl rest.
Proof.
  intros Hl Hr. unfold line_left. rewrite after_span_all; [reflexivity | exact Hl |].
  destruct Hr as [-> | ->]; [exact I | reflexivity].
Qed.

(** Leading white space of a line that is not blank. *)
Lemma after_span_space_line (l rest : str) :
  forallb is_space l = false ->
  after_span is_space (l ++ rest) = after_span is_space l ++ rest
  /\ after_span is_space l <> [].
Proof.
  induction l as [| c l IH]; cbn; [discriminate |].
  destruct (is_space c); cbn; [exact IH | intros _; split; [reflexivity | discriminate]].
Qed.

Lemma forallb_after_span (p q : ascii -> bool) (l : str) :
  forallb q l = true -> forallb q (after_span p l) = true.
Proof.
  induction l as [| c l IH]; cbn; [reflexivity |].
  intros H. destruct (p c); [| exact H].
  apply andb_prop in H as [_ H]. now apply IH.
Qed.

(** The child group takes the child lines and stops at a line that starts
    at the left margin. *)
Lemma child_left_children (final : bool) (L : list str) :
  match L with h :: _ => top_line h = true | [] => True end ->
  forall cs n,
    forallb child_line cs = true ->
    length (unlines final (cs ++ L)) <= n ->
    child_left n (unlines final (cs ++ L)) = unlines final L.
Proof.
  intros HL. induction cs as [| c1 cs IH]; intros n Hcs Hn.
  - cbn [app]. destruct L as [| h L].
    + destruct n; reflexivity.
    + destruct n; [reflexivity |].
      rewrite unlines_cons. unfold top_line in HL. apply andb_prop in HL as [HL _].
      destruct h as [| c h]; [discriminate |]. apply negb_true_iff in HL.
      cbn [app child_left]. now rewrite HL.
  - cbn [forallb] in Hcs. apply andb_prop in Hcs as [Hc1 Hcs].
    unfold child_line in Hc1.
    apply andb_prop in Hc1 as [Hc1 Hdot]. apply andb_prop in Hc1 as [Hsp Hblank].
    apply negb_true_iff in Hblank.
    cbn [app] in *. rewrite unlines_cons in *.
    destruct c1 as [| c c1]; [discriminate |].
    destruct n as [| n]; [cbn in Hn; lia |].
    cbn [app child_left]. rewrite Hsp.
    cbn [forallb] in Hblank, Hdot. rewrite Hsp in Hblank. cbn [andb] in Hblank.
    apply andb_prop in Hdot as [_ Hdot].
    destruct (after_span_space_line c1 (after_line final (cs ++ L)) Hblank) as [-> _].
    rewrite line_left_line;
      [| now apply forallb_after_span | apply after_line_eol].
    rewrite tl_after_line. apply IH; [exact Hcs |].
    cbn [app length] in Hn. rewrite length_app in Hn.
    pose proof (f_equal (@length ascii) (tl_after_line final (cs ++ L))) as Hlen.
    destruct (after_line final (cs ++ L)); cbn in *; lia.
Qed.

Lemma drop_ws_not_space (c : ascii) (s : str) : is_space c = false -> drop_ws (c :: s) = c :: s.
Proof. intros H. cbn. now rewrite H. Qed.

Lemma strip_line_end (c : ascii) (h : str) :
  is_space c = false -> strip ((c :: h) ++ [nl]) = strip (c :: h).
Proof.
  intros Hc. unfold strip, lstrip, rstrip.
  change ((c :: h) ++ [nl]) with (c :: h ++ [nl]).
  rewrite !drop_ws_not_space by exact Hc.
  change (c :: h ++ [nl]) with ((c :: h) ++ [nl]).
  rewrite rev_app_distr. reflexivity.
Qed.

Ltac by_assoc := cbn [app]; rewrite <- ?app_assoc; cbn [app]; reflexivity.

Lemma after_line_split (final : bool) (ls : list str) :
  after_line final ls = eol final ls ++ unlines final ls.
Proof. destruct ls; [destruct final |]; reflexivity. Qed.

Lemma unlines_split (final : bool) (ls1 ls2 : list str) :
  unlines final (ls1 ++ ls2) = unlines (closed final ls2) ls1 ++ unlines final ls2.
Proof.
  destruct ls2 as [| l ls2].
  - cbn. now rewrite !app_nil_r.
  - apply unlines_app. discriminate.
Qed.

Lemma unlines_true_end (ls : list str) : ls <> [] -> exists u, unlines true ls = u ++ [nl].
Proof.
  induction ls as [| l ls IH]; [contradiction |]. intros _.
  rewrite unlines_cons. destruct ls as [| l' ls].
  - exists l. reflexivity.
  - destruct IH as [u Hu]; [discriminate |].
    cbn [after_line]. rewrite Hu. exists (l ++ nl :: u). now rewrite <- app_assoc.
Qed.

(** The section that starts a text made of a block and further lines. *)
Lemma section_at_block (final : bool) (b : block) (L : list str) :
  wf_block b = true ->
  match L with h :: _ => top_line h = true | [] => True end ->
  exists m,
    section_at (unlines final (block_lines b ++ L)) = Some m
    /\ section_of m b
    /\ m_text m = unlines (closed final L) (block_lines b)
    /\ m_rest m = unlines final L.
Proof.
  intros Hwf HL. destruct b as [h cs]. unfold wf_block, block_lines in *. cbn [fst snd] in *.
  apply andb_prop in Hwf as [Hh Hcs]. unfold head_line in Hh. apply andb_prop in Hh as [Hw Hdot].
  destruct h as [| c h]; [discriminate |].
  cbn [forallb] in Hdot. apply andb_prop in Hdot as [_ Hdot].
  set (f := closed final L). set (r := unlines final L). set (g2 := unlines f cs).
  set (e := eol f cs).
  assert (Hr1 : unlines final (cs ++ L) = g2 ++ r) by apply unlines_split.
  assert (HT : unlines final (((c :: h) :: cs) ++ L) = ((c :: h ++ e) ++ g2) ++ r).
  { rewrite unlines_split. fold f r. f_equal.
    rewrite unlines_cons, after_line_split. fold e g2. by_assoc. }
  assert (Hsec : section_at (unlines final (((c :: h) :: cs) ++ L))
                 = Some (RMatch ((c :: h ++ e) ++ g2) [(2, g2); (1, c :: h ++ e)] r)).
  { cbn [app]. rewrite unlines_cons. cbn [app section_at]. rewrite Hw.
    rewrite line_left_line; [| exact Hdot | apply after_line_eol].
    rewrite tl_after_line.
    rewrite (child_left_children final L HL cs _ Hcs) by (apply Nat.le_refl).
    fold r. rewrite Hr1.
    change (c :: h ++ after_line final (cs ++ L))
      with ((c :: h) ++ after_line final (cs ++ L)).
    rewrite <- unlines_cons. change ((c :: h) :: cs ++ L) with (((c :: h) :: cs) ++ L).
    rewrite HT. f_equal. f_equal.
    - apply consumed_app.
    - f_equal; [f_equal; apply consumed_app | f_equal; f_equal].
      rewrite <- app_assoc. apply (consumed_app (c :: h ++ e)). }
  eexists. split; [exact Hsec |].
  assert (Hblock : (c :: h ++ e) ++ g2 = unlines f ((c :: h) :: cs)).
  { rewrite unlines_cons, after_line_split. fold e g2. by_assoc. }
  repeat split.
  - unfold group. cbn [m_caps assoc_cap Nat.eqb default id].
    unfold e, eol. destruct cs; [destruct f |];
      rewrite ?app_nil_r; try reflexivity;
      apply (strip_line_end c h); now apply is_word_not_space.
  - exists f. unfold section_text, group. cbn [m_caps assoc_cap Nat.eqb default id fst snd].
    exact Hblock.
  - exact Hblock.
Qed.

Lemma matches_go_skip (r : regex) (s : str) :
  forall u pv, matches_go r pv (length u) (u ++ s) = matches_go r (last_of u pv) 0 s.
Proof.
  induction u as [| c u IH]; intros pv; [reflexivity |].
  cbn [length app matches_go]. rewrite IH. now rewrite last_of_cons.
Qed.

Lemma head_line_top (l : str) : head_line l = true -> top_line l = true.
Proof.
  unfold head_line, top_line. intros H. apply andb_prop in H as [H1 H2].
  rewrite H2. destruct l as [| c l]; [discriminate H1 |].
  now rewrite (is_word_not_space c H1).
Qed.

Lemma sep_line_top (l : str) : sep_line l = true -> top_line l = true.
Proof.
  unfold sep_line, top_line. intros H. apply andb_prop in H as [H1 H2].
  rewrite H2. destruct l as [| c l]; [discriminate H1 |].
  apply andb_prop in H1 as [_ H1]. now rewrite H1.
Qed.

Lemma wf_item_cases (b : block) :
  wf_item b = true ->
  (wf_block b = true /\ is_section b = true)
  \/ (sep_line (fst b) = true /\ snd b = [] /\ is_section b = false).
Proof.
  unfold wf_item. intros H. apply orb_prop in H as [H | H].
  - left. split; [exact H |]. unfold wf_block in H. now apply andb_prop in H as [H _].
  - right. apply andb_prop in H as [H1 H2]. split; [exact H1 |].
    split; [now destruct (snd b) |].
    unfold is_section, head_line. unfold sep_line in H1.
    destruct (fst b) as [| c l]; [discriminate H1 |].
    apply andb_prop in H1 as [H1 _]. apply andb_prop in H1 as [H1 _].
    apply negb_true_iff in H1. now rewrite H1.
Qed.

Lemma wf_item_top (b : block) : wf_item b = true -> top_line (fst b) = true.
Proof.
  intros H. destruct (wf_item_cases b H) as [[H1 _] | [H1 _]].
  - unfold wf_block in H1. apply andb_prop in H1 as [H1 _]. now apply head_line_top.
  - now apply sep_line_top.
Qed.

Lemma doc_lines_head (d : list block) :
  forallb wf_item d = true ->
  match doc_lines d with h :: _ => top_line h = true | [] => True end.
Proof.
  intros H. destruct d as [| b' d]; [exact I |].
  cbn [forallb] in H. apply andb_prop in H as [H _].
  now apply wf_item_top.
Qed.

Lemma section_at_other (c : ascii) (s : str) : is_word c = false -> section_at (c :: s) = None.
Proof. intros H. cbn [section_at]. now rewrite H. Qed.

Lemma matches_go_end (pv : option ascii) : matches_go cand_pattern pv 0 [] = [].
Proof.
  cbn [matches_go]. rewrite match_at_cand_pattern. now destruct (at_bol _).
Qed.

(** No section starts inside a line. *)
Lemma matches_go_inside (s : str) :
  forall u pv,
    forallb dot u = true -> at_bol (MState pv [] []) = false ->
    matches_go cand_pattern pv 0 (u ++ s) = matches_go cand_pattern (last_of u pv) 0 s.
Proof.
  induction u as [| c u IH]; intros pv Hu Hpv; [reflexivity |].
  cbn [forallb] in Hu. apply andb_prop in Hu as [Hc Hu].
  cbn [app matches_go]. rewrite match_at_cand_pattern.
  change (at_bol (MState pv (c :: u ++ s) [])) with (at_bol (MState pv [] [])).
  rewrite Hpv, (IH (Some c) Hu), last_of_cons; [reflexivity |].
  unfold at_bol. cbn [prev]. unfold dot in Hc. now apply negb_true_iff in Hc.
Qed.

Lemma last_of_dot (u : str) (c : ascii) :
  forallb dot (c :: u) = true -> at_bol (MState (last_of u (Some c)) [] []) = false.
Proof.
  revert c. induction u as [| x u IH]; intros c H; cbn [forallb] in H;
    apply andb_prop in H as [Hc Hu].
  - unfold at_bol, last_of. cbn. unfold dot in Hc. now apply negb_true_iff in Hc.
  - rewrite last_of_cons. now apply IH.
Qed.

(** No section starts in a separator line. *)
Lemma matches_go_sep (final : bool) (l : str) (L : list str) (pv : option ascii) :
  sep_line l = true ->
  exists pv',
    matches_go cand_pattern pv 0 (unlines final (l :: L))
    = matches_go cand_pattern pv' 0 (unlines final L)
    /\ (L <> [] -> at_bol (MState pv' [] []) = true).
Proof.
  intros Hl. unfold sep_line in Hl. apply andb_prop in Hl as [Hc Hdot].
  destruct l as [| c l]; [discriminate Hc |].
  apply andb_prop in Hc as [Hw _]. apply negb_true_iff in Hw.
  rewrite unlines_cons. cbn [app matches_go]. rewrite match_at_cand_pattern.
  rewrite (section_at_other c _ Hw).
  assert (Hnone : (if at_bol (MState pv (c :: l ++ after_line final L) [])
                   then @None rmatch else None) = None) by now destruct (at_bol _).
  rewrite Hnone.
  pose proof Hdot as Hdot'. cbn [forallb] in Hdot'. apply andb_prop in Hdot' as [Hdc Hdl].
  rewrite (matches_go_inside _ l (Some c) Hdl)
    by (unfold at_bol; cbn [prev]; unfold dot in Hdc; now apply negb_true_iff in Hdc).
  pose proof (last_of_dot l c Hdot) as Hlast.
  set (pv1 := last_of l (Some c)) in *.
  destruct L as [| x L].
  - exists pv1. split; [| contradiction].
    cbn [unlines after_line]. rewrite matches_go_end.
    destruct final; [| apply matches_go_end].
    cbn [matches_go]. rewrite match_at_cand_pattern.
    change (at_bol (MState pv1 [nl] [])) with (at_bol (MState pv1 [] [])).
    rewrite Hlast. apply matches_go_end.
  - exists (Some nl). split; [| reflexivity].
    cbn [after_line matches_go]. rewrite match_at_cand_pattern.
    change (at_bol (MState pv1 (nl :: unlines final (x :: L)) []))
      with (at_bol (MState pv1 [] [])).
    now rewrite Hlast.
Qed.

(** The sections of the text of a well-formed document are the sections
    of its blocks, in order. *)
Lemma doc_sections (final : bool) :
  forall (d : list block) (pv : option ascii),
    forallb wf_item d = true ->
    (d <> [] -> at_bol (MState pv [] []) = true) ->
    Forall2 section_of (matches_go cand_pattern pv 0 (unlines final (doc_lines d)))
            (blocks d).
Proof.
  induction d as [| b d IH]; intros pv Hwf Hbol.
  - unfold doc_lines. cbn [map concat unlines]. rewrite matches_go_end. constructor.
  - pose proof Hwf as Hwf'. cbn [forallb] in Hwf'. apply andb_prop in Hwf' as [Hb Hd].
    pose proof (doc_lines_head d Hd) as HL.
    assert (Hnext : doc_lines d <> [] -> d <> []) by (now intros H ->).
    change (doc_lines (b :: d)) with (block_lines b ++ doc_lines d).
    unfold blocks. cbn [List.filter]. fold (blocks d).
    destruct (wf_item_cases b Hb) as [[Hblock ->] | (Hsep & Hcs & ->)].
    + destruct (section_at_block final b (doc_lines d) Hblock HL)
        as (m & Hm & Hsec & Htext & Hrest).
      assert (HT : unlines final (block_lines b ++ doc_lines d)
                   = m_text m ++ unlines final (doc_lines d)).
      { rewrite Htext. apply unlines_split. }
      rewrite HT in *.
      destruct (m_text m) as [| c u] eqn:Hu.
      { destruct b as [[| x h] cs]; [discriminate Hblock | discriminate Htext]. }
      cbn [app matches_go]. rewrite match_at_cand_pattern.
      change (at_bol (MState pv (c :: u ++ unlines final (doc_lines d)) []))
        with (at_bol (MState pv [] [])).
      rewrite (Hbol ltac:(discriminate)).
      change (c :: u ++ unlines final (doc_lines d))
        with ((c :: u) ++ unlines final (doc_lines d)).
      rewrite Hm, Hu. cbn [length].
      replace (S (length u) - 1) with (length u) by (cbn [Nat.sub]; now rewrite Nat.sub_0_r).
      rewrite matches_go_skip.
      constructor; [exact Hsec |].
      apply IH; [exact Hd |].
      intros Hne. rewrite <- (last_of_cons c u pv).
      assert (Hcl : closed final (doc_lines d) = true).
      { destruct d as [| b' d']; [contradiction | reflexivity]. }
      rewrite Hcl in Htext.
      destruct (unlines_true_end (block_lines b)) as [v Hv]; [discriminate |].
      rewrite Htext, Hv, last_of_app. reflexivity.
    + unfold block_lines. rewrite Hcs. cbn [app].
      destruct (matches_go_sep final (fst b) (doc_lines d) pv Hsep) as (pv' & -> & Hpv').
      apply IH; [exact Hd |].
      intros Hne. apply Hpv'. now destruct d as [| [h cs] d].
Qed.

(** ** Texts without blank line *)

Lemma search_lit_None (l s : str) :
  forall pv, contains s l = false -> search_go (Lit l) pv s = None.
Proof.
  induction s as [| c s IH]; intros pv H; cbn [contains] in H;
    apply orb_false_elim in H as [H1 H2]; unfold startswith in H1;
    cbn [search_go]; unfold match_at; cbn [run rest];
    destruct (strip_prefix l _); try discriminate; [reflexivity |].
  now apply IH.
Qed.

Lemma dot_not_nl (c : ascii) : dot c = true -> bool_decide (nl = c) = false.
Proof.
  intros H. apply bool_decide_eq_false. intros <-. discriminate H.
Qed.

Lemma contains_dot_app (l X : str) :
  forallb dot l = true -> contains (l ++ X) [nl; nl] = contains X [nl; nl].
Proof.
  induction l as [| c l IH]; intros H; [reflexivity |].
  cbn [forallb] in H. apply andb_prop in H as [Hc Hl].
  cbn [app contains]. rewrite (IH Hl).
  unfold startswith. cbn [strip_prefix]. now rewrite (dot_not_nl c Hc).
Qed.

Lemma head_line_text (l : str) : head_line l = true -> text_line l = true.
Proof.
  unfold head_line, text_line. intros H. apply andb_prop in H as [H1 H2].
  rewrite H2. destruct l; [discriminate H1 | reflexivity].
Qed.

Lemma child_line_text (l : str) : child_line l = true -> text_line l = true.
Proof.
  unfold child_line, text_line. intros H. apply andb_prop in H as [H1 H2].
  apply andb_prop in H1 as [H1 _].
  rewrite H2. destruct l; [discriminate H1 | reflexivity].
Qed.

Lemma block_lines_text (b : block) :
  wf_block b = true -> forallb text_line (block_lines b) = true.
Proof.
  unfold wf_block, block_lines. intros H. apply andb_prop in H as [H1 H2].
  cbn [forallb]. rewrite (head_line_text _ H1). cbn [andb].
  apply forallb_forall. intros l Hl. apply child_line_text.
  now apply (proj1 (forallb_forall _ _) H2).
Qed.

Lemma sep_line_text (l : str) : sep_line l = true -> text_line l = true.
Proof.
  unfold sep_line, text_line. intros H. apply andb_prop in H as [H1 H2].
  rewrite H2. destruct l; [discriminate H1 | reflexivity].
Qed.

Lemma item_lines_text (b : block) :
  wf_item b = true -> forallb text_line (block_lines b) = true.
Proof.
  intros H. destruct (wf_item_cases b H) as [[H1 _] | (H1 & H2 & _)].
  - now apply block_lines_text.
  - unfold block_lines. rewrite H2. cbn [forallb]. now rewrite (sep_line_text _ H1).
Qed.

Lemma doc_lines_text (d : list block) :
  forallb wf_item d = true -> forallb text_line (doc_lines d) = true.
Proof.
  induction d as [| b d IH]; intros H; [reflexivity |].
  cbn [forallb] in H. apply andb_prop in H as [Hb Hd].
  change (doc_lines (b :: d)) with (block_lines b ++ doc_lines d).
  rewrite forallb_app, (item_lines_text b Hb), (IH Hd). reflexivity.
Qed.

Lemma unlines_no_blank (final : bool) (ls : list str) :
  forallb text_line ls = true -> contains (unlines final ls) [nl; nl] = false.
Proof.
  induction ls as [| l ls IH]; intros H; [reflexivity |].
  cbn [forallb] in H. apply andb_prop in H as [Hl Hls].
  unfold text_line in Hl. apply andb_prop in Hl as [_ Hl].
  cbn [unlines]. rewrite (contains_dot_app _ _ Hl).
  destruct ls as [| l' ls]; [now destruct final |].
  specialize (IH Hls). cbn [contains]. rewrite IH, orb_false_r.
  cbn [forallb] in Hls. apply andb_prop in Hls as [Hl' _].
  unfold text_line in Hl'. apply andb_prop in Hl' as [Hne Hd].
  destruct l' as [| c l']; [discriminate Hne |].
  cbn [forallb] in Hd. apply andb_prop in Hd as [Hc _].
  cbn [unlines app]. unfold startswith. cbn [strip_prefix].
  now rewrite (dot_not_nl c Hc).
Qed.

(** A text of non-empty lines has no blank line to remove. *)
Lemma collapsed_unlines (final : bool) (ls : list str) :
  forallb text_line ls = true -> collapsed (unlines final ls) = unlines final ls.
Proof.
  intros H. unfold collapsed, blank_line, re_sub.
  apply sub_go_no_match, search_lit_None, unlines_no_blank, H.
Qed.

(** ** The lines of a text *)

Lemma split_lines_dot (l : str) : forallb dot l = true -> split_lines l = [l].
Proof.
  induction l as [| c l IH]; intros H; [reflexivity |].
  cbn [forallb] in H. apply andb_prop in H as [Hc Hl].
  cbn [split_lines]. rewrite (IH Hl).
  unfold dot in Hc. now destruct (is_nl c).
Qed.

Lemma split_lines_app (l r : str) :
  forallb dot l = true -> split_lines (l ++ nl :: r) = l :: split_lines r.
Proof.
  induction l as [| c l IH]; intros H; [reflexivity |].
  cbn [forallb] in H. apply andb_prop in H as [Hc Hl].
  cbn [app split_lines]. rewrite (IH Hl).
  unfold dot in Hc. now destruct (is_nl c).
Qed.

Lemma split_lines_unlines (final : bool) (ls : list str) :
  forallb text_line ls = true -> ls <> [] ->
  split_lines (unlines final ls) = ls ++ (if final then [[]] else []).
Proof.
  induction ls as [| l ls IH]; intros H Hne; [contradiction |].
  cbn [forallb] in H. apply andb_prop in H as [Hl Hls].
  unfold text_line in Hl. apply andb_prop in Hl as [_ Hl].
  cbn [unlines]. destruct ls as [| l' ls].
  - destruct final.
    + now rewrite (split_lines_app _ _ Hl).
    + now rewrite app_nil_r, (split_lines_dot _ Hl).
  - rewrite (split_lines_app _ _ Hl), (IH Hls) by discriminate. reflexivity.
Qed.

Lemma parse_line_blank (G : list regex) (st : NetworkConfig.pstate) :
  NetworkConfig.parse_line G st [] = st.
Proof. reflexivity. Qed.

(** Parsing a text of non-empty lines is parsing its lines in turn. *)
Lemma parse_unlines (G : list regex) (final : bool) (ls : list str) :
  forallb text_line ls = true -> ls <> [] ->
  NetworkConfig.parse G (unlines final ls)
  = NetworkConfig.config (fold_left (NetworkConfig.parse_line G) ls parse_start).
Proof.
  intros H Hne. unfold NetworkConfig.parse.
  rewrite (split_lines_unlines final ls H Hne), fold_left_app.
  destruct final; reflexivity.
Qed.

(** ** Parsing the lines of a section inside a text *)

Import NetworkConfig.

Lemma shift_line_leaf (n : nat) (l t : str) :
  shift_line n (ConfigLine_ l t [] []) = ConfigLine_ l t [] [].
Proof. reflexivity. Qed.

Lemma shift_add_child (n : nat) (t : tree) (p c : nat) :
  shift_tree n (add_child t p c) = add_child (shift_tree n t) p (n + c).
Proof.
  unfold shift_tree, add_child. apply list_fmap_alter.
  apply Forall_forall. intros x _. unfold shift_line. cbn.
  now rewrite fmap_app.
Qed.

(** What [parse] does with a line after [n] lines is what it does with the
    line on its own, [n] places further. *)
Lemma parse_line_shift (G : list regex) (n : nat) (before : tree) (st : pstate) (l : str) :
  length before = n ->
  parse_line G (shift_state n before st) l = shift_state n before (parse_line G st l).
Proof.
  intros Hn. unfold parse_line.
  destruct ((length (strip (drop_entry l)) =? 0) || ignore_line G (strip (drop_entry l)));
    [reflexivity |].
  change (ancestors (shift_state n before st)) with (Nat.add n <$> ancestors st).
  change (indents (shift_state n before st)) with (indents st).
  change (config (shift_state n before st)) with (before ++ shift_tree n (config st)).
  assert (Hlen : length (before ++ shift_tree n (config st)) = n + length (config st)).
  { unfold shift_tree. now rewrite length_app, length_fmap, Hn. }
  rewrite Hlen.
  destruct (toplevel l).
  - unfold shift_state, shift_tree. cbn [ancestors indents config].
    now rewrite fmap_app, app_assoc.
  - set (li := line_indent l).
    set (ind1 := pop_indents (length (indents st)) (indents st) li).
    set (ind2 := if last_indent ind1 <? li then ind1 ++ [li] else ind1).
    set (cl := length ind2 - 1).
    rewrite <- fmap_take, length_fmap.
    set (cfg := ConfigLine_ l (strip l) (take cl (ancestors st)) []).
    change (ConfigLine_ l (strip l) (Nat.add n <$> take cl (ancestors st)) [])
      with (shift_line n cfg).
    assert (Happ : (before ++ shift_tree n (config st)) ++ [shift_line n cfg]
                   = before ++ shift_tree n (config st ++ [cfg])).
    { unfold shift_tree. now rewrite fmap_app, app_assoc. }
    rewrite Happ.
    destruct (length (ancestors st) <? cl); [reflexivity |].
    unfold shift_state. cbn [ancestors indents config].
    assert (Hanc : (Nat.add n <$> take cl (ancestors st)) ++ [n + length (config st)]
                   = Nat.add n <$> (take cl (ancestors st) ++ [length (config st)])).
    { now rewrite fmap_app. }
    rewrite Hanc, list_lookup_fmap.
    destruct ((take cl (ancestors st) ++ [length (config st)]) !! (cl - 1)) as [p |];
      [| reflexivity].
    cbn [fmap option_fmap option_map]. f_equal.
    rewrite shift_add_child. unfold add_child.
    subst n. apply alter_app_r.
Qed.

Lemma parse_lines_shift (G : list regex) (n : nat) (before : tree) (ls : list str) :
  length before = n ->
  forall st,
    fold_left (parse_line G) ls (shift_state n before st)
    = shift_state n before (fold_left (parse_line G) ls st).
Proof.
  intros Hn. induction ls as [| l ls IH]; intros st; [reflexivity |].
  cbn [fold_left]. now rewrite (parse_line_shift G n before st l Hn), IH.
Qed.

Lemma head_line_toplevel (h : str) : head_line h = true -> toplevel h = true.
Proof.
  unfold head_line, toplevel. intros H. apply andb_prop in H as [H _].
  destruct h as [| c h]; [discriminate H |].
  now rewrite (is_word_not_space c H).
Qed.

(** A top-level line that is kept starts a tree of its own. *)
Lemma parse_line_head (G : list regex) (st : pstate) (h : str) :
  head_line h = true -> kept_line G h = true ->
  parse_line G st h
  = shift_state (length (config st)) (config st) (parse_line G parse_start h).
Proof.
  intros Hh Hk. unfold kept_line in Hk. apply negb_true_iff in Hk.
  unfold parse_line. rewrite Hk, (head_line_toplevel h Hh).
  unfold shift_state, parse_start. cbn [ancestors indents config length app fmap list_fmap].
  now rewrite Nat.add_0_r.
Qed.

(** The lines of a block, wherever they stand in a text, are parsed as
    they are on their own. *)
Lemma parse_block (G : list regex) (st : pstate) (b : block) :
  head_line (fst b) = true -> kept_line G (fst b) = true ->
  fold_left (parse_line G) (block_lines b) st
  = shift_state (length (config st)) (config st) (block_state G b).
Proof.
  intros Hh Hk. unfold block_state, block_lines. cbn [fold_left].
  rewrite (parse_line_head G st _ Hh Hk).
  now apply parse_lines_shift.
Qed.

Lemma length_shift_tree (n : nat) (t : tree) : length (shift_tree n t) = length t.
Proof. unfold shift_tree. apply length_fmap. Qed.

Lemma top_line_toplevel (l : str) : top_line l = true -> toplevel l = true.
Proof.
  unfold top_line, toplevel. intros H. apply andb_prop in H as [H _].
  destruct l; [discriminate H | exact H].
Qed.

(** A separator line adds at most a line of its own to the tree. *)
Lemma parse_line_sep (G : list regex) (st : pstate) (l : str) :
  top_line l = true ->
  config (parse_line G st l)
  = config st ++ shift_tree (length (config st)) (config (parse_line G parse_start l)).
Proof.
  intros Hl. unfold parse_line.
  destruct ((length (strip (drop_entry l)) =? 0) || ignore_line G (strip (drop_entry l))).
  - cbn. now rewrite app_nil_r.
  - now rewrite (top_line_toplevel l Hl).
Qed.

(** The tree of a document is made of the trees of its items. *)
Lemma parse_doc (G : list regex) (d : list block) :
  forallb wf_item d = true ->
  forallb (fun b => kept_line G (fst b)) (blocks d) = true ->
  forall st,
    config (fold_left (parse_line G) (doc_lines d) st)
    = config st ++ doc_tree G (length (config st)) d.
Proof.
  induction d as [| b d IH]; intros Hwf Hk st.
  - cbn. now rewrite app_nil_r.
  - cbn [forallb] in Hwf. apply andb_prop in Hwf as [Hb Hwf].
    unfold blocks in Hk. cbn [List.filter] in Hk. fold (blocks d) in Hk.
    change (doc_lines (b :: d)) with (block_lines b ++ doc_lines d).
    rewrite fold_left_app. cbn [doc_tree].
    destruct (wf_item_cases b Hb) as [[Hblock Hsec] | (Hsep & Hcs & Hsec)];
      rewrite Hsec in Hk.
    + cbn [forallb] in Hk. apply andb_prop in Hk as [Hkb Hk].
      unfold wf_block in Hblock. apply andb_prop in Hblock as [Hh _].
      rewrite (parse_block G st b Hh Hkb), (IH Hwf Hk).
      unfold shift_state at 1 2. cbn [config].
      fold (block_tree G b). unfold shift_tree at 2.
      now rewrite length_app, length_fmap, app_assoc.
    + unfold block_tree, block_state, block_lines. rewrite Hcs. cbn [fold_left].
      rewrite (IH Hwf Hk), (parse_line_sep G st _ (sep_line_top _ Hsep)).
      now rewrite length_app, length_shift_tree, app_assoc.
Qed.

(** ** The tree of a section *)

Lemma wf_line_mono (t t' : tree) (k : nat) (c : ConfigLine) :
  length t <= length t' -> wf_line t k c -> wf_line t' k c.
Proof.
  intros Hle [Hp Hc]. split; [exact Hp |].
  eapply Forall_impl; [exact Hc |]. cbn. intros i Hi. lia.
Qed.

Lemma wf_tree_snoc (t : tree) (c : ConfigLine) :
  wf_tree t -> Forall (fun i => i < length t) (_parents c) -> _children c = [] ->
  wf_tree (t ++ [c]).
Proof.
  intros Hwf Hp Hc k x Hk.
  destruct (decide (k < length t)) as [Hlt | Hge].
  - rewrite lookup_app_l in Hk by exact Hlt.
    apply (wf_line_mono t); [rewrite length_app; lia | now apply Hwf].
  - rewrite lookup_app_r in Hk by lia.
    destruct (k - length t) as [| j] eqn:Hj; [| now destruct j].
    injection Hk as <-. assert (k = length t) as -> by lia.
    split; [exact Hp | rewrite Hc; constructor].
Qed.

Lemma length_add_child (t : tree) (p c : nat) : length (add_child t p c) = length t.
Proof. unfold add_child. apply length_alter. Qed.

Lemma wf_tree_add_child (t : tree) (p c : nat) :
  wf_tree t -> p < c < length t -> wf_tree (add_child t p c).
Proof.
  intros Hwf Hpc k x Hk. unfold add_child in Hk.
  rewrite list_lookup_alter in Hk.
  destruct (decide (p = k)) as [-> | Hne].
  - destruct (t !! k) as [y |] eqn:Hy; [| discriminate Hk].
    injection Hk as <-. destruct (Hwf k y Hy) as [Hp Hc].
    split; cbn [_parents _children]; [exact Hp |].
    rewrite length_add_child. apply Forall_app. split; [exact Hc |].
    constructor; [lia | constructor].
  - apply (wf_line_mono t); [rewrite length_add_child; lia | now apply Hwf].
Qed.

Lemma pop_indents_head (li fuel : nat) :
  forall tl, exists tl', pop_indents fuel (0 :: tl) li = 0 :: tl'.
Proof.
  induction fuel as [| fuel IH]; intros tl; [now exists tl |].
  cbn [pop_indents]. destruct (li <? last_indent (0 :: tl)) eqn:E; [| now exists tl].
  destruct tl as [| x tl]; [discriminate E |].
  change (removelast (0 :: x :: tl)) with (0 :: removelast (x :: tl)). apply IH.
Qed.

Lemma drop_ws_length (s : str) : length (drop_ws s) <= length s.
Proof.
  induction s as [| c s IH]; [reflexivity |].
  cbn [drop_ws]. destruct (is_space c); cbn [length]; lia.
Qed.

Lemma child_indent (l : str) :
  toplevel l = false -> (length (strip (drop_entry l)) =? 0) = false -> 1 <= line_indent l.
Proof.
  intros Ht Hb. destruct l as [| c l]; [discriminate Hb |].
  cbn in Ht. apply negb_false_iff in Ht.
  unfold line_indent, lstrip. cbn [drop_ws]. rewrite Ht.
  pose proof (drop_ws_length l). cbn [length]. lia.
Qed.

Lemma child_line_not_toplevel (l : str) : child_line l = true -> toplevel l = false.
Proof.
  unfold child_line, toplevel. intros H.
  apply andb_prop in H as [H _]. apply andb_prop in H as [H _].
  destruct l; [discriminate H |]. now rewrite H.
Qed.

Lemma section_tree_snoc (h : str) (t : tree) (c : ConfigLine) :
  section_tree h t -> _parents c <> [] -> section_tree h (t ++ [c]).
Proof.
  intros (cs & rest & -> & Hrest) Hc. exists cs, (rest ++ [c]). split; [reflexivity |].
  apply Forall_app. split; [exact Hrest | now constructor].
Qed.

Lemma section_tree_add_child (h : str) (t : tree) (p c : nat) :
  section_tree h t -> section_tree h (add_child t p c).
Proof.
  intros (cs & rest & -> & Hrest). unfold add_child.
  destruct p as [| p].
  - exists (cs ++ [c]), rest. split; [reflexivity | exact Hrest].
  - exists cs, (alter (fun o => ConfigLine_ (raw o) (text o) (_parents o) (_children o ++ [c]))
                  p rest).
    split; [reflexivity |].
    apply Forall_alter; [exact Hrest | now intros x Hx].
Qed.

(** A line below the top-level line keeps the state that of a section. *)
Lemma parse_line_child (G : list regex) (h : str) (st : pstate) (l : str) :
  section_state h st -> toplevel l = false -> section_state h (parse_line G st l).
Proof.
  intros Hst Htop. pose proof Hst as ([tl Hind] & Hne & Hanc & Hwf & Htree).
  unfold parse_line.
  destruct (length (strip (drop_entry l)) =? 0) eqn:Hb; [exact Hst |].
  destruct (ignore_line G (strip (drop_entry l))); [exact Hst |].
  cbn [orb]. rewrite Htop.
  pose proof (child_indent l Htop Hb) as Hli.
  set (li := line_indent l) in *.
  destruct (pop_indents_head li (length (indents st)) tl) as [tl1 H1].
  rewrite <- Hind in H1. rewrite H1.
  set (ind2 := if last_indent (0 :: tl1) <? li then (0 :: tl1) ++ [li] else 0 :: tl1).
  assert (H2 : exists x tl2, ind2 = 0 :: x :: tl2).
  { unfold ind2. destruct (last_indent (0 :: tl1) <? li) eqn:E.
    - destruct tl1 as [| x tl1]; [now exists li, [] | now exists x, (tl1 ++ [li])].
    - destruct tl1 as [| x tl1]; [| now exists x, tl1].
      apply Nat.ltb_ge in E. cbn in E. lia. }
  destruct H2 as (x & tl2 & H2). rewrite H2.
  change (length (0 :: x :: tl2) - 1) with (S (length tl2)).
  set (cl := S (length tl2)).
  set (cfg := ConfigLine_ l (strip l) (take cl (ancestors st)) []).
  assert (Hpar : _parents cfg <> []).
  { cbn [_parents cfg]. unfold cl. destruct (ancestors st); [contradiction | discriminate]. }
  assert (Hval : Forall (fun i => i < length (config st)) (_parents cfg)).
  { cbn [_parents cfg]. now apply Forall_take. }
  assert (Hwf' : wf_tree (config st ++ [cfg])) by now apply wf_tree_snoc.
  assert (Htree' : section_tree h (config st ++ [cfg])) by now apply section_tree_snoc.
  assert (Hlen : length (config st ++ [cfg]) = S (length (config st))).
  { rewrite length_app. cbn [length]. lia. }
  destruct (length (ancestors st) <? cl) eqn:Hcl.
  - refine (conj _ (conj _ (conj _ (conj _ _)))); cbn [indents ancestors config];
      try assumption.
    + now exists (x :: tl2).
    + rewrite Hlen. eapply Forall_impl; [exact Hanc |]. cbn. intros; lia.
  - apply Nat.ltb_ge in Hcl.
    assert (Hanc' : Forall (fun i => i < length (config st ++ [cfg]))
                      (take cl (ancestors st) ++ [length (config st)])).
    { rewrite Hlen. apply Forall_app. split.
      - eapply Forall_impl; [exact Hval |]. cbn. intros; lia.
      - constructor; [lia | constructor]. }
    refine (conj _ (conj _ (conj _ (conj _ _)))); cbn [indents ancestors config].
    + now exists (x :: tl2).
    + now destruct (take cl (ancestors st)).
    + destruct (_ !! _); [rewrite length_add_child |]; exact Hanc'.
    + destruct ((take cl (ancestors st) ++ [length (config st)]) !! (cl - 1)) as [p |] eqn:Hp;
        [| exact Hwf'].
      apply wf_tree_add_child; [exact Hwf' |].
      rewrite Hlen. split; [| lia].
      rewrite lookup_app_l in Hp by (rewrite length_take; unfold cl in *; lia).
      exact (Forall_lookup_1 _ _ _ _ Hval Hp).
    + destruct (_ !! _); [apply section_tree_add_child |]; exact Htree'.
Qed.

Lemma parse_lines_children (G : list regex) (h : str) (ls : list str) :
  forallb child_line ls = true ->
  forall st, section_state h st -> section_state h (fold_left (parse_line G) ls st).
Proof.
  induction ls as [| l ls IH]; intros H st Hst; [exact Hst |].
  cbn [forallb] in H. apply andb_prop in H as [Hl Hls].
  cbn [fold_left]. apply (IH Hls).
  apply parse_line_child; [exact Hst | now apply child_line_not_toplevel].
Qed.

Lemma parse_start_head (G : list regex) (h : str) :
  head_line h = true -> kept_line G h = true ->
  parse_line G parse_start h = PState [0] [0] [ConfigLine_ h (strip h) [] []].
Proof.
  intros Hh Hk. unfold kept_line in Hk. apply negb_true_iff in Hk.
  unfold parse_line. now rewrite Hk, (head_line_toplevel h Hh).
Qed.

(** The state after a block parsed on its own is that of a section. *)
Lemma block_state_section (G : list regex) (b : block) :
  wf_block b = true -> kept_line G (fst b) = true ->
  section_state (fst b) (block_state G b).
Proof.
  intros Hwf Hk. unfold wf_block in Hwf. apply andb_prop in Hwf as [Hh Hcs].
  unfold block_state, block_lines. cbn [fold_left].
  apply (parse_lines_children G _ _ Hcs).
  rewrite (parse_start_head G _ Hh Hk).
  refine (conj _ (conj _ (conj _ (conj _ _)))); cbn [indents ancestors config].
  - now exists [].
  - discriminate.
  - constructor; [cbn; lia | constructor].
  - intros k c Hc. destruct k as [| k]; [| discriminate Hc].
    injection Hc as <-. split; constructor.
  - exists [], []. split; [reflexivity | constructor].
Qed.

(** ** A tree inside a larger tree *)

Lemma _expand_block_S (fuel : nat) (t : tree) (c : ConfigLine) (S : list obj) :
  _expand_block (Datatypes.S fuel) t c S
  = fold_left (expand_child fuel t) (_children c) (inr (S ++ [(t, c)])).
Proof. reflexivity. Qed.

Lemma expand_child_error (fuel : nat) (t : tree) (e : exn) (cs : list nat) :
  fold_left (expand_child fuel t) cs (inl e) = inl e.
Proof. induction cs as [| i cs IH]; [reflexivity | exact IH]. Qed.

(** More fuel does not change a result. *)
Lemma _expand_block_mono (t : tree) :
  forall f c S r, _expand_block f t c S = inr r ->
  forall f', f <= f' -> _expand_block f' t c S = inr r.
Proof.
  induction f as [| f IH]; intros c S r H f' Hle; [discriminate H |].
  destruct f' as [| f']; [lia |].
  rewrite _expand_block_S in *.
  revert H. generalize (inr (S ++ [(t, c)]) : result (list obj)).
  induction (_children c) as [| i cs IHcs]; intros acc H; [exact H |].
  cbn [fold_left] in *.
  destruct (expand_child f t acc i) as [e | S1] eqn:E.
  { now rewrite expand_child_error in H. }
  assert (E' : expand_child f' t acc i = inr S1).
  { unfold expand_child in *. destruct acc as [e | S0]; [discriminate E |].
    destruct (t !! i) as [child |]; [| discriminate E].
    destruct (obj_in (t, child) S0); [exact E |].
    apply (IH _ _ _ E). lia. }
  rewrite E'. now apply IHcs.
Qed.

(** In a tree whose children come after their parents the descent ends
    before the fuel does. *)
Lemma _expand_block_total (t : tree) :
  wf_tree t ->
  forall f k c S, t !! k = Some c -> length t - k <= f ->
  exists r, _expand_block f t c S = inr r.
Proof.
  intros Hwf. induction f as [| f IH]; intros k c S Hk Hf.
  { apply lookup_lt_Some in Hk. lia. }
  rewrite _expand_block_S. destruct (Hwf k c Hk) as [_ Hcs].
  generalize (S ++ [(t, c)]).
  induction (_children c) as [| i cs IHcs]; intros S0; [now exists S0 |].
  apply Forall_cons in Hcs as [Hi Hcs].
  cbn [fold_left expand_child].
  destruct (lookup_lt_is_Some_2 t i ltac:(lia)) as [child Hchild]. rewrite Hchild.
  destruct (obj_in (t, child) S0); [now apply IHcs |].
  destruct (IH i child S0 Hchild ltac:(lia)) as [r Hr]. rewrite Hr. now apply IHcs.
Qed.

Lemma omap_cons_Some {A B : Type} (f : A -> option B) (x : A) (l : list A) (y : B) :
  f x = Some y -> omap f (x :: l) = y :: omap f l.
Proof. intros H. cbn. now rewrite H. Qed.

Section Embedded.

Variables (before T after W : tree) (n : nat).
Hypothesis HW : W = before ++ shift_tree n T ++ after.
Hypothesis Hn : n = length before.
Hypothesis HT : wf_tree T.

Lemma embedded_lookup (k : nat) (c : ConfigLine) :
  T !! k = Some c -> W !! (n + k) = Some (shift_line n c).
Proof.
  intros Hk. rewrite HW, Hn, lookup_app_r by lia.
  replace (length before + k - length before) with k by lia.
  rewrite lookup_app_l.
  - unfold shift_tree. now rewrite list_lookup_fmap, Hk.
  - unfold shift_tree. rewrite length_fmap. now apply lookup_lt_Some in Hk.
Qed.

Lemma embedded_parents (c : ConfigLine) :
  Forall (fun i => i < length T) (_parents c) ->
  parents W (shift_line n c) = parents T c.
Proof.
  unfold parents. cbn [_parents shift_line].
  induction (_parents c) as [| i ps IH]; intros H; [reflexivity |].
  apply Forall_cons in H as [Hi Hps].
  destruct (lookup_lt_is_Some_2 T i Hi) as [x Hx].
  rewrite fmap_cons.
  rewrite (omap_cons_Some _ (n + i) _ (text (shift_line n x)))
    by now rewrite (embedded_lookup i x Hx).
  rewrite (omap_cons_Some _ i _ (text x)) by now rewrite Hx.
  now rewrite (IH Hps).
Qed.

Lemma tree_parents_valid (k : nat) (c : ConfigLine) :
  T !! k = Some c -> Forall (fun i => i < length T) (_parents c).
Proof.
  clear HW Hn. intros Hk. destruct (HT k c Hk) as [Hp _]. apply lookup_lt_Some in Hk.
  eapply Forall_impl; [exact Hp |]. cbn. intros; lia.
Qed.

Lemma embedded_line (o : obj) :
  in_tree T o -> obj_line (embed_obj W n o) = obj_line o.
Proof.
  intros [Ht [k Hk]]. destruct o as [t c]. cbn [fst snd] in *. subst t.
  unfold obj_line, embed_obj, line. cbn [fst snd].
  now rewrite (embedded_parents c (tree_parents_valid k c Hk)).
Qed.

Lemma embedded_obj_eqb (a b : obj) :
  in_tree T a -> in_tree T b ->
  obj_eqb (embed_obj W n a) (embed_obj W n b) = obj_eqb a b.
Proof.
  intros Ha Hb. unfold obj_eqb. now rewrite !embedded_line.
Qed.

Lemma embedded_obj_in (a : obj) (xs : list obj) :
  in_tree T a -> Forall (in_tree T) xs ->
  obj_in (embed_obj W n a) (embed_obj W n <$> xs) = obj_in a xs.
Proof.
  intros Ha Hxs. unfold obj_in.
  induction xs as [| x xs IH]; [reflexivity |].
  apply Forall_cons in Hxs as [Hx Hxs].
  cbn [fmap list_fmap existsb].
  rewrite (embedded_obj_eqb a x Ha Hx). f_equal. exact (IH Hxs).
Qed.

Lemma embedded_expand_child (f : nat) :
  (forall k c S, T !! k = Some c -> Forall (in_tree T) S ->
     _expand_block f W (shift_line n c) (embed_obj W n <$> S)
     = res_map (fmap (embed_obj W n)) (_expand_block f T c S)
     /\ forall r, _expand_block f T c S = inr r -> Forall (in_tree T) r) ->
  forall cs acc,
    Forall (fun i => i < length T) cs ->
    (forall r, acc = inr r -> Forall (in_tree T) r) ->
    fold_left (expand_child f W) (Nat.add n <$> cs) (res_map (fmap (embed_obj W n)) acc)
    = res_map (fmap (embed_obj W n)) (fold_left (expand_child f T) cs acc)
    /\ forall r, fold_left (expand_child f T) cs acc = inr r -> Forall (in_tree T) r.
Proof.
  intros IH. induction cs as [| i cs IHcs]; intros acc Hcs Hacc; [now split |].
  apply Forall_cons in Hcs as [Hi Hcs].
  rewrite fmap_cons. cbn [fold_left].
  assert (Hstep : expand_child f W (res_map (fmap (embed_obj W n)) acc) (n + i)
                  = res_map (fmap (embed_obj W n)) (expand_child f T acc i)
                  /\ forall r, expand_child f T acc i = inr r -> Forall (in_tree T) r).
  { destruct acc as [e | S0]; [split; [reflexivity | discriminate] |].
    specialize (Hacc S0 eq_refl).
    destruct (lookup_lt_is_Some_2 T i Hi) as [child Hchild].
    unfold expand_child, res_map at 1.
    rewrite (embedded_lookup i child Hchild), Hchild.
    change (W, shift_line n child) with (embed_obj W n (T, child)).
    rewrite (embedded_obj_in (T, child) S0) by first [exact Hacc | split; [reflexivity | now exists i]].
    destruct (obj_in (T, child) S0).
    - split; [reflexivity | now intros r [= <-]].
    - exact (IH i child S0 Hchild Hacc). }
  destruct Hstep as [-> Hacc']. now apply IHcs.
Qed.

(** The block of a line of the tree is the same in the larger tree. *)
Lemma embedded_expand :
  forall f k c S, T !! k = Some c -> Forall (in_tree T) S ->
    _expand_block f W (shift_line n c) (embed_obj W n <$> S)
    = res_map (fmap (embed_obj W n)) (_expand_block f T c S)
    /\ forall r, _expand_block f T c S = inr r -> Forall (in_tree T) r.
Proof.
  induction f as [| f IH]; intros k c S Hk HS; [split; [reflexivity | discriminate] |].
  rewrite !_expand_block_S.
  change (_children (shift_line n c)) with (Nat.add n <$> _children c).
  change (inr ((embed_obj W n <$> S) ++ [(W, shift_line n c)]) : result (list obj))
    with (inr ((embed_obj W n <$> S) ++ (embed_obj W n <$> [(T, c)])) : result (list obj)).
  rewrite <- fmap_app.
  change (inr (embed_obj W n <$> S ++ [(T, c)]) : result (list obj))
    with (res_map (fmap (embed_obj W n)) (inr (S ++ [(T, c)]))).
  apply (embedded_expand_child f IH).
  - destruct (HT k c Hk) as [_ Hc]. eapply Forall_impl; [exact Hc |]. cbn. intros; lia.
  - intros r [= <-]. apply Forall_app. split; [exact HS |].
    constructor; [| constructor]. split; [reflexivity | now exists k].
Qed.

End Embedded.

(** ** The top-level line of a section in a text *)

Lemma get_object_anchor (t : tree) (p : str) :
  get_object t [p] = inr (List.find (anchor_test t [p] p) t).
Proof. reflexivity. Qed.

Lemma find_app_None {A : Type} (f : A -> bool) (l1 l2 : list A) :
  Forall (fun x => f x = false) l1 -> List.find f (l1 ++ l2) = List.find f l2.
Proof.
  induction 1 as [| x l1 Hx _ IH]; [reflexivity |].
  cbn [app List.find]. now rewrite Hx.
Qed.

Lemma str_eqb_refl (s : str) : str_eqb s s = true.
Proof. unfold str_eqb. now apply bool_decide_eq_true. Qed.

Lemma str_eqb_neq (s t : str) : s <> t -> str_eqb s t = false.
Proof. unfold str_eqb. now apply bool_decide_eq_false. Qed.

Lemma parents_nonempty (t : tree) (c : ConfigLine) :
  _parents c <> [] -> Forall (fun i => i < length t) (_parents c) -> parents t c <> [].
Proof.
  unfold parents. destruct (_parents c) as [| i ps]; [contradiction |].
  intros _ H. apply Forall_cons in H as [Hi _].
  destruct (lookup_lt_is_Some_2 t i Hi) as [x Hx].
  rewrite (omap_cons_Some _ i ps (text x)) by now rewrite Hx.
  discriminate.
Qed.

(** The top-level line of a section is found at its anchor. *)
Lemma get_object_section (h : str) (t : tree) :
  section_tree h t -> exists c, t !! 0 = Some c /\ text c = strip h /\ _parents c = []
                                /\ get_object t [strip h] = inr (Some c).
Proof.
  intros (cs & rest & -> & _). eexists. split; [reflexivity |].
  split; [reflexivity |]. split; [reflexivity |].
  rewrite get_object_anchor. cbn [List.find].
  unfold anchor_test at 1. cbn [text]. rewrite str_eqb_refl.
  now rewrite bool_decide_eq_true_2.
Qed.

Section EmbeddedSection.

Variables (before T after W : tree) (n : nat) (h : str).
Hypothesis HW : W = before ++ shift_tree n T ++ after.
Hypothesis Hn : n = length before.
Hypothesis HT : wf_tree T.
Hypothesis Hh : section_tree h T.

(** No line of a section answers to another top-level line. *)
Lemma section_no_anchor (p : str) :
  strip h <> p -> Forall (fun c => anchor_test W [p] p c = false) (shift_tree n T).
Proof.
  intros Hp. apply Forall_lookup. intros k x Hk.
  unfold shift_tree in Hk. rewrite list_lookup_fmap in Hk.
  destruct (T !! k) as [c |] eqn:Hc; [| discriminate Hk].
  injection Hk as <-. unfold anchor_test.
  destruct Hh as (cs & rest & Heq & Hrest).
  destruct k as [| k].
  - rewrite Heq in Hc. injection Hc as <-. cbn [text shift_line].
    now rewrite (str_eqb_neq _ _ Hp).
  - rewrite (embedded_parents before T after W n HW Hn c
               (tree_parents_valid T HT (S k) c Hc)).
    rewrite Heq in Hc. cbn in Hc.
    pose proof (Forall_lookup_1 _ _ _ _ Hrest Hc) as Hne.
    rewrite bool_decide_eq_false_2; [apply andb_false_r |].
    change (removelast [p]) with (@nil str).
    apply parents_nonempty; [exact Hne |].
    apply (tree_parents_valid T HT (S k)). now rewrite Heq.
Qed.

(** In a text the anchor of a section finds the top-level line of the
    section, when no line before answers to it. *)
Lemma get_object_embedded :
  Forall (fun c => anchor_test W [strip h] (strip h) c = false) before ->
  exists c, T !! 0 = Some c
            /\ get_object T [strip h] = inr (Some c)
            /\ get_object W [strip h] = inr (Some (shift_line n c)).
Proof.
  intros Hb. destruct (get_object_section h T Hh) as (c & H0 & Htext & Hpar & Hget).
  exists c. split; [exact H0 |]. split; [exact Hget |].
  rewrite get_object_anchor. rewrite HW at 2.
  rewrite (find_app_None _ _ _ Hb).
  destruct T as [| c' T']; [discriminate H0 |]. injection H0 as ->.
  cbn [shift_tree fmap list_fmap app List.find].
  unfold anchor_test at 1. cbn [text shift_line]. rewrite Htext, str_eqb_refl.
  rewrite bool_decide_eq_true_2; [reflexivity |].
  unfold parents, shift_line. cbn [_parents]. now rewrite Hpar.
Qed.

End EmbeddedSection.

(** ** The sections of a document against the document *)

Lemma length_doc_tree (G : list regex) (d : list block) :
  forall n m, length (doc_tree G n d) = length (doc_tree G m d).
Proof.
  induction d as [| b d IH]; intros n m; [reflexivity |].
  cbn [doc_tree]. rewrite !length_app, !length_shift_tree. f_equal. apply IH.
Qed.

Lemma doc_tree_app (G : list regex) (d1 d2 : list block) :
  forall n,
    doc_tree G n (d1 ++ d2)
    = doc_tree G n d1 ++ doc_tree G (n + length (doc_tree G n d1)) d2.
Proof.
  induction d1 as [| b d1 IH]; intros n.
  - cbn [app doc_tree length]. now rewrite Nat.add_0_r.
  - cbn [app doc_tree]. rewrite IH, length_app, length_shift_tree, app_assoc.
    now rewrite Nat.add_assoc.
Qed.

Lemma block_tree_section (G : list regex) (b : block) :
  wf_block b = true -> kept_line G (fst b) = true ->
  wf_tree (block_tree G b) /\ section_tree (fst b) (block_tree G b).
Proof.
  intros Hwf Hk.
  destruct (block_state_section G b Hwf Hk) as (_ & _ & _ & H1 & H2). now split.
Qed.

Lemma drop_ws_snoc (c : ascii) (x : str) :
  is_space c = false -> exists y, drop_ws (x ++ [c]) = y ++ [c].
Proof.
  intros Hc. induction x as [| a x IH].
  - exists []. cbn. now rewrite Hc.
  - cbn [app drop_ws]. destruct (is_space a); [exact IH | now exists (a :: x)].
Qed.

(** Stripping keeps a first character that is not white space. *)
Lemma strip_first (c : ascii) (s : str) :
  is_space c = false -> exists s', strip (c :: s) = c :: s'.
Proof.
  intros Hc. unfold strip, lstrip, rstrip. rewrite (drop_ws_not_space c s Hc).
  cbn [rev]. destruct (drop_ws_snoc c (rev s) Hc) as [y ->].
  exists (rev y). now rewrite rev_app_distr.
Qed.

Lemma head_anchor (h : str) : head_line h = true -> word_start (strip h) = true.
Proof.
  unfold head_line. intros H. apply andb_prop in H as [H _].
  destruct h as [| c h]; [discriminate H |].
  destruct (strip_first c h (is_word_not_space c H)) as [s' ->]. exact H.
Qed.

Lemma sep_anchor (l : str) : sep_line l = true -> word_start (strip l) = false.
Proof.
  unfold sep_line. intros H. apply andb_prop in H as [H _].
  destruct l as [| c l]; [discriminate H |].
  apply andb_prop in H as [Hw Hs]. apply negb_true_iff in Hw, Hs.
  destruct (strip_first c l Hs) as [s' ->]. exact Hw.
Qed.

(** The line of a separator does not answer to the anchor of a block. *)
Lemma sep_no_anchor (G : list regex) (W : tree) (n : nat) (p l : str) :
  sep_line l = true -> word_start p = true ->
  Forall (fun c => anchor_test W [p] p c = false)
         (shift_tree n (config (parse_line G parse_start l))).
Proof.
  intros Hl Hp. unfold parse_line.
  destruct ((length (strip (drop_entry l)) =? 0) || ignore_line G (strip (drop_entry l)));
    [constructor |].
  rewrite (top_line_toplevel l (sep_line_top l Hl)).
  constructor; [| constructor].
  unfold anchor_test. cbn [text shift_line].
  rewrite str_eqb_neq; [reflexivity |].
  intros Heq. rewrite <- Heq, (sep_anchor l Hl) in Hp. discriminate Hp.
Qed.

(** The lines of separators and of blocks with other anchors do not answer
    to the anchor [p]. *)
Lemma doc_tree_no_anchor (G : list regex) (W : tree) (p : str) (d : list block) :
  forallb wf_item d = true ->
  forallb (fun b => kept_line G (fst b)) (blocks d) = true ->
  Forall (fun b => strip (fst b) <> p) (blocks d) ->
  word_start p = true ->
  forall B A,
    W = B ++ doc_tree G (length B) d ++ A ->
    Forall (fun c => anchor_test W [p] p c = false) (doc_tree G (length B) d).
Proof.
  intros Hwf Hk Hp Hw.
  induction d as [| b d IH]; intros B A HW; [constructor |].
  cbn [forallb] in Hwf. apply andb_prop in Hwf as [Hb Hwf].
  unfold blocks in Hk, Hp. cbn [List.filter] in Hk, Hp. fold (blocks d) in Hk, Hp.
  cbn [doc_tree] in *. apply Forall_app.
  assert (Hrest : forallb (fun b => kept_line G (fst b)) (blocks d) = true ->
                  Forall (fun b => strip (fst b) <> p) (blocks d) ->
                  Forall (fun c => anchor_test W [p] p c = false)
                         (doc_tree G (length B + length (block_tree G b)) d)).
  { intros Hk' Hp'.
    replace (length B + length (block_tree G b))
      with (length (B ++ shift_tree (length B) (block_tree G b)))
      by now rewrite length_app, length_shift_tree.
    apply (IH Hwf Hk' Hp' _ A).
    rewrite HW, length_app, length_shift_tree, <- !app_assoc. reflexivity. }
  destruct (wf_item_cases b Hb) as [[Hblock Hsec] | (Hsep & Hcs & Hsec)];
    rewrite Hsec in Hk, Hp.
  - cbn [forallb] in Hk. apply andb_prop in Hk as [Hkb Hk].
    apply Forall_cons in Hp as [Hpb Hp].
    destruct (block_tree_section G b Hblock Hkb) as [HT Hh].
    split; [| now apply Hrest].
    apply (section_no_anchor B (block_tree G b)
             (doc_tree G (length B + length (block_tree G b)) d ++ A) W (length B) (fst b));
      [| reflexivity | exact HT | exact Hh | exact Hpb].
    now rewrite HW, <- app_assoc.
  - split; [| now apply Hrest].
    unfold block_tree, block_state, block_lines. rewrite Hcs. cbn [fold_left].
    now apply sep_no_anchor.
Qed.

Lemma obj_in_intro (a x : obj) (xs : list obj) :
  In x xs -> obj_eqb a x = true -> obj_in a xs = true.
Proof.
  intros Hx Ha. unfold obj_in. apply existsb_exists. now exists x.
Qed.

Lemma embedded_lines_within (before T after W : tree) (n : nat) (r : list obj) :
  W = before ++ shift_tree n T ++ after -> n = length before -> wf_tree T ->
  Forall (in_tree T) r ->
  lines_within (embed_obj W n <$> r) r = true
  /\ lines_within r (embed_obj W n <$> r) = true.
Proof.
  intros HW Hn HT Hr. unfold lines_within.
  assert (Hx : forall x, In x r -> obj_eqb (embed_obj W n x) x = true
                                   /\ obj_eqb x (embed_obj W n x) = true).
  { intros x Hin.
    assert (Hin' : in_tree T x).
    { apply (proj1 (Forall_forall _ _) Hr). now apply list_elem_of_In. }
    unfold obj_eqb.
    rewrite (embedded_line before T after W n HW Hn HT x Hin').
    split; apply str_eqb_refl. }
  split; apply forallb_forall.
  - intros y Hy. change (embed_obj W n <$> r) with (map (embed_obj W n) r) in Hy.
    apply in_map_iff in Hy as (x & <- & Hin).
    apply (obj_in_intro _ x); [exact Hin | apply (Hx x Hin)].
  - intros x Hin. apply (obj_in_intro _ (embed_obj W n x)); [| apply (Hx x Hin)].
    change (embed_obj W n <$> r) with (map (embed_obj W n) r). now apply in_map.
Qed.

Lemma unlines_length (final : bool) (ls : list str) :
  forallb text_line ls = true -> ls <> [] -> (length (unlines final ls) =? 0) = false.
Proof.
  intros H Hne. destruct ls as [| l ls]; [contradiction |].
  cbn [forallb] in H. apply andb_prop in H as [Hl _].
  unfold text_line in Hl. apply andb_prop in Hl as [Hl _].
  destruct l as [| c l]; [discriminate Hl | reflexivity].
Qed.

(** The tree of the text of a document. *)
Lemma new_doc (G : list regex) (final : bool) (d : list block) :
  forallb wf_item d = true ->
  forallb (fun b => kept_line G (fst b)) (blocks d) = true ->
  d <> [] ->
  new G (Some (unlines final (doc_lines d))) = doc_tree G 0 d.
Proof.
  intros Hwf Hk Hne.
  assert (Hls : doc_lines d <> []) by now destruct d as [| [h cs] d].
  unfold new.
  rewrite (unlines_length final _ (doc_lines_text d Hwf) Hls).
  rewrite (parse_unlines G final _ (doc_lines_text d Hwf) Hls).
  now rewrite (parse_doc G d Hwf Hk).
Qed.

Lemma blocks_app (d1 d2 : list block) : blocks (d1 ++ d2) = blocks d1 ++ blocks d2.
Proof. unfold blocks. apply List.filter_app. Qed.

(** A block of a document, diffed as a section against the text of the
    document: the two blocks hold the same lines. *)
Lemma doc_block_agrees (G : list regex) (final : bool) (pre post : list block)
    (b : block) (m : rmatch) :
  forallb wf_item (pre ++ b :: post) = true ->
  forallb (fun b => kept_line G (fst b)) (blocks (pre ++ b :: post)) = true ->
  is_section b = true ->
  Forall (fun b' => strip (fst b') <> strip (fst b)) (blocks pre) ->
  section_of m b ->
  blocks_agree G (Some (unlines final (doc_lines (pre ++ b :: post)))) m.
Proof.
  intros Hwf Hk Hsec Hpre [Hanchor [fin Htext]].
  pose proof Hwf as Hwf'. pose proof Hk as Hk'.
  rewrite forallb_app in Hwf'. cbn [forallb] in Hwf'.
  apply andb_prop in Hwf' as [Hwf1 Hwf2]. apply andb_prop in Hwf2 as [Hb Hwf2].
  rewrite blocks_app in Hk'. unfold blocks at 2 in Hk'. cbn [List.filter] in Hk'.
  rewrite Hsec, forallb_app in Hk'. cbn [forallb] in Hk'.
  apply andb_prop in Hk' as [Hk1 Hk2]. apply andb_prop in Hk2 as [Hkb Hk2].
  assert (Hblock : wf_block b = true).
  { destruct (wf_item_cases b Hb) as [[H _] | (_ & _ & H)]; [exact H | congruence]. }
  destruct (block_tree_section G b Hblock Hkb) as [HT Hh].
  set (T := block_tree G b) in *.
  set (before := doc_tree G 0 pre).
  set (n := length before).
  set (after := doc_tree G (n + length T) post).
  set (W := doc_tree G 0 (pre ++ b :: post)).
  assert (HW : W = before ++ shift_tree n T ++ after).
  { unfold W. rewrite doc_tree_app. reflexivity. }
  assert (Hbefore : Forall (fun c => anchor_test W [strip (fst b)] (strip (fst b)) c = false)
                      before).
  { apply (doc_tree_no_anchor G W (strip (fst b)) pre Hwf1 Hk1 Hpre (head_anchor _ Hsec)
             [] (shift_tree n T ++ after)).
    exact HW. }
  destruct (get_object_embedded before T after W n (fst b) HW HT Hh Hbefore)
    as (c & H0 & HgetT & HgetW).
  destruct (_expand_block_total T HT (S (length T)) 0 c [] H0 ltac:(lia)) as [r Hr].
  destruct (embedded_expand before T after W n HW eq_refl HT (S (length T)) 0 c [] H0
              ltac:(constructor)) as [HrW Hin].
  rewrite Hr in HrW. specialize (Hin r Hr). cbn [res_map] in HrW.
  change (embed_obj W n <$> []) with (@nil obj) in HrW.
  assert (Hlen : S (length T) <= S (length W)).
  { rewrite HW, !length_app, length_shift_tree. lia. }
  pose proof (_expand_block_mono W _ _ _ _ HrW _ Hlen) as HrW'.
  destruct (embedded_lines_within before T after W n r HW eq_refl HT Hin) as [Hl1 Hl2].
  exists r, (embed_obj W n <$> r).
  refine (conj _ (conj _ (conj Hl1 Hl2))).
  - unfold want_block, anchor. rewrite Htext, Hanchor.
    rewrite (parse_unlines G fin _ (block_lines_text b Hblock)) by discriminate.
    fold (block_state G b). fold (block_tree G b). fold T.
    unfold get_block. rewrite HgetT. exact Hr.
  - unfold have_block, anchor. rewrite Hanchor.
    rewrite (new_doc G final _ Hwf Hk) by now destruct pre.
    fold W. unfold get_block. rewrite HgetW. unfold expand. now rewrite HrW'.
Qed.

Lemma doc_sections_text (final : bool) (d : list block) :
  forallb wf_item d = true ->
  Forall2 section_of (sections (unlines final (doc_lines d))) (blocks d).
Proof.
  intros Hwf. unfold sections.
  rewrite (collapsed_unlines final _ (doc_lines_text d Hwf)).
  now apply doc_sections.
Qed.

(** Where a block of a document stands among its items. *)
Lemma blocks_lookup (d : list block) :
  forall i b,
    blocks d !! i = Some b ->
    exists pre post,
      d = pre ++ b :: post /\ is_section b = true /\ blocks pre = take i (blocks d).
Proof.
  unfold blocks. induction d as [| x d IH]; intros i b Hb; [discriminate Hb |].
  cbn [List.filter] in *. destruct (is_section x) eqn:Hx.
  - destruct i as [| i].
    + injection Hb as <-. now exists [], d.
    + destruct (IH i b Hb) as (pre & post & -> & Hsec & Hpre).
      exists (x :: pre), post. split; [reflexivity |]. split; [exact Hsec |].
      cbn [List.filter take]. now rewrite Hx, Hpre.
  - destruct (IH i b Hb) as (pre & post & -> & Hsec & Hpre).
    exists (x :: pre), post. split; [reflexivity |]. split; [exact Hsec |].
    cbn [List.filter]. now rewrite Hx.
Qed.

(** Every section of a document holds the lines that the document holds at
    its anchor. *)
Lemma doc_sections_agree (G : list regex) (final : bool) (d : list block) :
  wf_doc G d ->
  Forall (blocks_agree G (Some (unlines final (doc_lines d))))
         (sections (unlines final (doc_lines d))).
Proof.
  intros (Hwf & Hk & Hnd). apply Forall_lookup. intros i m Hm.
  destruct (Forall2_lookup_l _ _ _ _ _ (doc_sections_text final d Hwf) Hm) as (b & Hb & Hsec).
  destruct (blocks_lookup d i b Hb) as (pre & post & Hd & Hsb & Hpre).
  rewrite <- (take_drop_middle (blocks d) i b Hb), <- Hpre in Hnd.
  rewrite Hd in Hwf, Hk |- *.
  apply (doc_block_agrees G final _ _ b m Hwf Hk Hsb); [| exact Hsec].
  rewrite fmap_app, fmap_cons in Hnd.
  apply NoDup_app in Hnd as (_ & Hnot & _).
  apply Forall_forall. intros b' Hb' Heq.
  apply (Hnot (block_anchor b')); [now apply list_elem_of_fmap_2 |].
  unfold block_anchor at 1. rewrite Heq. apply list_elem_of_here.
Qed.

Lemma doc_by_section (final : bool) (d : list block) :
  forallb wf_item d = true ->
  by_section (unlines final (doc_lines d)) [] (txt "exact")
  = negb (length (blocks d) =? 0).
Proof.
  intros Hwf. unfold by_section.
  pose proof (Forall2_length _ _ _ (doc_sections_text final d Hwf)) as Hlen.
  unfold sections in Hlen. rewrite Hlen.
  now destruct (length (blocks d) =? 0).
Qed.

(** C3, amended.  The exact diff of a text against itself is empty, for
    the lines and for the banners, when the text is a document: blocks of a
    top-level line, which starts with a word character and is not ignored
    by the parser, and of lines below it, which start with white space and
    are not blank, with separator lines between them or not, which start
    with a character that is neither a word character nor white space, no
    two blocks with the same top-level line up to the white space around
    it; the last line may end with a line end or not.  So it is for a text
    without section and without double line end.  It is not so for every
    text: two sections that start with the same line are diffed against the
    first of them. *)
Theorem get_diff_exact_idempotent (G : list regex) :
  (forall (final : bool) (d : list block),
     wf_doc G d ->
     get_diff G (Some (unlines final (doc_lines d))) (Some (unlines final (doc_lines d)))
              (txt "exact") [] [] (txt "line")
     = inr (Diff [] ∅))
  /\ (forall X : str,
        by_section X [] (txt "exact") = false -> collapsed X = X ->
        get_diff G (Some X) (Some X) (txt "exact") [] [] (txt "line") = inr (Diff [] ∅)).
Proof.
  split.
  - intros final d Hd. pose proof Hd as (Hwf & _ & _).
    pose proof (doc_by_section final d Hwf) as Hby.
    destruct (length (blocks d) =? 0) eqn:Hlen.
    + apply (proj2 (exact_diff_of_agreeing_sections G _) Hby).
      apply collapsed_unlines, doc_lines_text, Hwf.
    + apply (proj1 (exact_diff_of_agreeing_sections G _) Hby).
      now apply doc_sections_agree.
  - intros X. apply (proj2 (exact_diff_of_agreeing_sections G X)).
Qed.

Lemma get_diff_exact_idempotent_witness :
  unlines false (doc_lines policy_doc) = policy_maps
  /\ get_diff DEFAULT_IGNORE_LINES_RE
       (Some (unlines false (doc_lines policy_doc)))
       (Some (unlines false (doc_lines policy_doc)))
       (txt "exact") [] [] (txt "line")
     = inr (Diff [] ∅)
  /\ get_diff DEFAULT_IGNORE_LINES_RE
       (Some (unlines true (doc_lines policy_config)))
       (Some (unlines true (doc_lines policy_config)))
       (txt "exact") [] [] (txt "line")
     = inr (Diff [] ∅).
Proof.
  split; [vm_compute; reflexivity |].
  split.
  - apply (proj1 (get_diff_exact_idempotent DEFAULT_IGNORE_LINES_RE) false policy_doc).
    refine (conj _ (conj _ _)); [vm_compute; reflexivity | vm_compute; reflexivity |].
    apply (bool_decide_unpack _). vm_compute. exact I.
  - apply (proj1 (get_diff_exact_idempotent DEFAULT_IGNORE_LINES_RE) true policy_config).
    refine (conj _ (conj _ _)); [vm_compute; reflexivity | vm_compute; reflexivity |].
    apply (bool_decide_unpack _). vm_compute. exact I.
Defined.

(** ** The order in which a block is collected *)














(** ** The tree of a block all of whose lines are kept *)













(** ** The additions of a block *)








(** ** The blocks of a document, diffed one by one *)

















(** * The other methods of the plugin *)

(** ** White space at the ends of a text *)

Lemma drop_ws_idem (s : str) : drop_ws (drop_ws s) = drop_ws s.
Proof.
  induction s as [| c s IH]; [reflexivity |].
  cbn [drop_ws]. destruct (is_space c) eqn:E; [exact IH |].
  cbn [drop_ws]. now rewrite E.
Qed.

Lemma drop_ws_app_keep (a b : str) :
  drop_ws b = b -> b <> [] -> drop_ws (a ++ b) = drop_ws a ++ b.
Proof.
  intros Hb Hne. induction a as [| c a IH]; [exact Hb |].
  cbn [app drop_ws]. destruct (is_space c); [exact IH | reflexivity].
Qed.

(** White space is taken from the right of what follows a text that ends
    with another character. *)
Lemma rstrip_app_keep (b y : str) (c : ascii) :
  is_space c = false -> rstrip ((b ++ [c]) ++ y) = (b ++ [c]) ++ rstrip y.
Proof.
  intros Hc. unfold rstrip. rewrite !rev_app_distr. cbn [rev app].
  rewrite (drop_ws_app_keep (rev y) (c :: rev b)).
  - rewrite rev_app_distr. cbn [rev]. now rewrite rev_involutive.
  - cbn [drop_ws]. now rewrite Hc.
  - discriminate.
Qed.

Lemma rstrip_cons_keep (c : ascii) (y : str) :
  is_space c = false -> rstrip (c :: y) = c :: rstrip y.
Proof. intros Hc. exact (rstrip_app_keep [] y c Hc). Qed.

Lemma rstrip_idem (s : str) : rstrip (rstrip s) = rstrip s.
Proof. unfold rstrip. now rewrite rev_involutive, drop_ws_idem. Qed.

(** A stripped text has no white space left to strip. *)
Lemma strip_idem (s : str) : strip (strip s) = strip s.
Proof.
  unfold strip, lstrip.
  destruct (drop_ws s) as [| c u] eqn:Hu; [reflexivity |].
  assert (Hc : is_space c = false).
  { pose proof (drop_ws_idem s) as H. rewrite Hu in H. cbn [drop_ws] in H.
    destruct (is_space c) eqn:E; [| reflexivity].
    exfalso. pose proof (drop_ws_length u) as Hlen.
    apply (f_equal (@length ascii)) in H. cbn [length] in H. lia. }
  rewrite (rstrip_cons_keep c u Hc). cbn [drop_ws]. rewrite Hc.
  now rewrite (rstrip_cons_keep c _ Hc), rstrip_idem.
Qed.

Lemma strip_app_keep (a b y : str) (c d : ascii) :
  is_space c = false -> is_space d = false ->
  strip ((c :: a ++ [d]) ++ y) = (c :: a ++ [d]) ++ rstrip y.
Proof.
  intros Hc Hd. unfold strip, lstrip. cbn [app drop_ws]. rewrite Hc.
  change (c :: (a ++ [d]) ++ y) with (((c :: a) ++ [d]) ++ y).
  now rewrite (rstrip_app_keep (c :: a) y d Hd).
Qed.

Lemma startswith_app (p s : str) : startswith (p ++ s) p = true.
Proof. unfold startswith. now rewrite strip_prefix_self. Qed.

(** ** Reading the configuration *)

Lemma config_command_strip (source : str) (y : str) :
  strip ((config_command source ++ txt " ") ++ y)
  = config_command source ++ rstrip (txt " " ++ y).
Proof.
  unfold config_command. rewrite <- app_assoc.
  destruct (str_eqb source (txt "running")).
  - exact (strip_app_keep (txt "how running-confi") [] (txt " " ++ y) "s" "g" eq_refl eq_refl).
  - exact (strip_app_keep (txt "how startup-confi") [] (txt " " ++ y) "s" "g" eq_refl eq_refl).
Qed.

(** X1. [get_config] rejects a source other than "running" and "startup",
    and then a format that is given, with a [ValueError] and without
    sending anything, the error of the source first.  Otherwise it sends
    one request, and its outcome is the outcome of the call: the command
    starts with "show running-config" or "show startup-config", has no
    white space at either end, and is that command alone when there is no
    flag. *)
Theorem get_config_request
    (ch : list request -> request -> failure + str)
    (source : str) (flags : flags_arg) (format_ : option str) (w : world) :
  (str_in source config_sources = false ->
   get_config ch source flags format_ w
   = (w, inl (ValueError (txt "fetching configuration from " ++ source
                          ++ txt " is not supported"))))
  /\ (str_in source config_sources = true ->
      forall f, format_ = Some f -> f <> [] ->
      get_config ch source flags format_ w
      = (w, inl (ValueError (txt "'format' value " ++ f
                             ++ txt " is not supported for get_config"))))
  /\ (str_in source config_sources = true -> given format_ = false ->
      exists cmd,
        get_config ch source flags format_ w = sent_once ch (Request cmd default_options) w
        /\ startswith cmd (config_command source) = true
        /\ strip cmd = cmd
        /\ (flag_list flags = [] -> cmd = config_command source)).
Proof.
  unfold get_config, config_sources. split; [| split].
  - intros ->. reflexivity.
  - intros -> f -> Hf. destruct f; [contradiction | reflexivity].
  - intros -> ->. cbn [negb].
    set (y := join (txt " ") (flag_list flags)).
    exists (config_command source ++ rstrip (txt " " ++ y)).
    assert (Hcmd : strip ((if str_eqb source (txt "running") then txt "show running-config "
                           else txt "show startup-config ") ++ y)
                   = config_command source ++ rstrip (txt " " ++ y)).
    { rewrite <- config_command_strip. f_equal. f_equal. unfold config_command.
      now destruct (str_eqb source (txt "running")). }
    rewrite Hcmd. split; [reflexivity |]. split; [apply startswith_app |].
    split.
    + rewrite <- config_command_strip. apply strip_idem.
    + unfold y. intros ->. cbn [join]. apply app_nil_r.
Qed.

Lemma get_config_request_witness :
  exists cmd,
    get_config quiet_device (txt "running") (FList [txt "all"; txt " "]) None (World [] [])
    = sent_once quiet_device (Request cmd default_options) (World [] [])
    /\ startswith cmd (config_command (txt "running")) = true
    /\ strip cmd = cmd
    /\ (flag_list (FList [txt "all"; txt " "]) = [] -> cmd = config_command (txt "running")).
Proof.
  apply (proj2 (proj2 (get_config_request quiet_device (txt "running")
                         (FList [txt "all"; txt " "]) None (World [] [])))).
  - vm_compute. reflexivity.
  - reflexivity.
Defined.

Lemma get_command (ch : list request -> request -> failure + str)
    (c : str) (o : send_options) (w : world) :
  c <> [] -> get ch (Some c) o None w = sent_once ch (Request c o) w.
Proof. intros Hc. destruct c; [contradiction | reflexivity]. Qed.

(** X4. [check_device_type] never raises: it sends the one request
    "show vlan" and answers "L2" when the device answers the request, "L3"
    when the request fails. *)
Theorem check_device_type_total
    (ch : list request -> request -> failure + str) (w : world) :
  exists t,
    check_device_type ch w
    = (World (sent w ++ [req "show vlan"]) (caller_list w), inr t)
    /\ (t = txt "L2" <-> exists out, ch (sent w) (req "show vlan") = inr out)
    /\ (t = txt "L3" <-> exists f, ch (sent w) (req "show vlan") = inl f).
Proof.
  unfold check_device_type.
  rewrite (get_command ch (txt "show vlan") default_options w) by discriminate.
  unfold sent_once. fold (req "show vlan").
  destruct (ch (sent w) (req "show vlan")) as [f | out].
  - exists (txt "L3"). split; [reflexivity |]. split; split.
    + discriminate.
    + intros [out H]. discriminate H.
    + intros _. now exists f.
    + reflexivity.
  - exists (txt "L2"). split; [reflexivity |]. split; split.
    + intros _. now exists out.
    + reflexivity.
    + discriminate.
    + intros [f H]. discriminate H.
Qed.

(** ** The facts of the device *)

Lemma find_model_os (items : list regex) (data : str) (d : gmap str str) :
  d !! txt "network_os" = Some (txt "ios") ->
  find_model items data d !! txt "network_os" = Some (txt "ios").
Proof.
  intros Hd. induction items as [| item items IH]; [exact Hd |].
  cbn [find_model]. destruct (re_search item data); [| exact IH].
  rewrite lookup_insert_ne; [exact Hd | discriminate].
Qed.

Lemma parse_version_os (reply : str) :
  parse_version reply !! txt "network_os" = Some (txt "ios").
Proof.
  unfold parse_version.
  repeat match goal with
         | |- context [match re_search ?r ?s with _ => _ end] => destruct (re_search r s)
         | |- (<[_ := _]> _) !! _ = _ => rewrite lookup_insert_ne by discriminate
         | |- find_model _ _ _ !! _ = _ => apply find_model_os
         end;
    apply lookup_insert_eq.
Qed.

(** X5. [get_device_info] asks the device once.  With facts in store it
    sends nothing and returns them.  Without, once the prompt is out of
    configuration mode, it sends "show version" and "show vlan": the facts
    it returns and stores are those read in the version, with the type of
    the device, "L2" or "L3"; they say that the system is "ios", so that
    they are not empty and the next call returns them without a request.
    When "show version" fails, the failure is raised and "show vlan" is
    not sent. *)
Theorem get_device_info_once
    (ch : list request -> request -> failure + str)
    (update : str -> str -> session unit) (info : gmap str str) (w : world) :
  (info <> ∅ -> get_device_info ch update info w = (w, inr info))
  /\ (forall w1 reply,
        update (txt ")#") (txt "end") w = (w1, inr tt) ->
        ch (sent w1) (req "show version") = inr reply ->
        exists t,
          let info' := <[txt "network_os_type" := t]> (parse_version reply) in
          get_device_info ch update ∅ w
          = (World (sent w1 ++ [req "show version"; req "show vlan"]) (caller_list w1),
             inr info')
          /\ info' !! txt "network_os" = Some (txt "ios")
          /\ (t = txt "L2" \/ t = txt "L3")
          /\ forall w', get_device_info ch update info' w' = (w', inr info'))
  /\ (forall w1 f,
        update (txt ")#") (txt "end") w = (w1, inr tt) ->
        ch (sent w1) (req "show version") = inl f ->
        get_device_info ch update ∅ w
        = (World (sent w1 ++ [req "show version"]) (caller_list w1),
           inl (AnsibleConnectionFailure f))).
Proof.
  split; [| split].
  - intros Hne. unfold get_device_info. now rewrite bool_decide_eq_false_2.
  - intros w1 reply Hup Hch.
    destruct (ch (sent w1 ++ [req "show version"]) (req "show vlan")) as [f | out] eqn:Hvlan.
    + exists (txt "L3"). cbv zeta. split; [| split; [| split]].
      * unfold get_device_info. rewrite bool_decide_eq_true_2 by reflexivity.
        unfold sbind. rewrite Hup.
        rewrite (get_command ch (txt "show version") default_options w1) by discriminate.
        unfold sent_once. fold (req "show version"). rewrite Hch.
        unfold check_device_type.
        rewrite (get_command ch (txt "show vlan")) by discriminate.
        unfold sent_once. fold (req "show vlan"). cbn [sent caller_list]. rewrite Hvlan.
        unfold ret. now rewrite <- app_assoc.
      * rewrite lookup_insert_ne by discriminate. apply parse_version_os.
      * now right.
      * intros w'. unfold get_device_info. rewrite bool_decide_eq_false_2; [reflexivity |].
        apply insert_non_empty.
    + exists (txt "L2"). cbv zeta. split; [| split; [| split]].
      * unfold get_device_info. rewrite bool_decide_eq_true_2 by reflexivity.
        unfold sbind. rewrite Hup.
        rewrite (get_command ch (txt "show version") default_options w1) by discriminate.
        unfold sent_once. fold (req "show version"). rewrite Hch.
        unfold check_device_type.
        rewrite (get_command ch (txt "show vlan")) by discriminate.
        unfold sent_once. fold (req "show vlan"). cbn [sent caller_list]. rewrite Hvlan.
        unfold ret. now rewrite <- app_assoc.
      * rewrite lookup_insert_ne by discriminate. apply parse_version_os.
      * now left.
      * intros w'. unfold get_device_info. rewrite bool_decide_eq_false_2; [reflexivity |].
        apply insert_non_empty.
  - intros w1 f Hup Hch. unfold get_device_info.
    rewrite bool_decide_eq_true_2 by reflexivity.
    unfold sbind. rewrite Hup.
    rewrite (get_command ch (txt "show version") default_options w1) by discriminate.
    unfold sent_once. fold (req "show version"). now rewrite Hch.
Qed.

Lemma get_device_info_once_witness :
  get_device_info quiet_device (fun _ _ => ret tt) (<[txt "network_os" := txt "ios"]> ∅)
                  (World [] [])
  = (World [] [], inr (<[txt "network_os" := txt "ios"]> ∅))
  /\ (exists t,
        let info' := <[txt "network_os_type" := t]> (parse_version []) in
        get_device_info quiet_device (fun _ _ => ret tt) ∅ (World [] [])
        = (World ([] ++ [req "show version"; req "show vlan"]) [], inr info')
        /\ info' !! txt "network_os" = Some (txt "ios")
        /\ (t = txt "L2" \/ t = txt "L3")
        /\ forall w', get_device_info quiet_device (fun _ _ => ret tt) info' w'
                      = (w', inr info'))
  /\ get_device_info (fun _ _ => inl (Failure (txt "timeout") None)) (fun _ _ => ret tt) ∅
                     (World [] [])
     = (World ([] ++ [req "show version"]) [],
        inl (AnsibleConnectionFailure (Failure (txt "timeout") None))).
Proof.
  split; [| split].
  - apply (proj1 (get_device_info_once quiet_device (fun _ _ => ret tt)
                    (<[txt "network_os" := txt "ios"]> ∅) (World [] []))).
    apply insert_non_empty.
  - exact (proj1 (proj2 (get_device_info_once quiet_device (fun _ _ => ret tt) ∅
                           (World [] []))) (World [] []) [] eq_refl eq_refl).
  - exact (proj2 (proj2 (get_device_info_once
                           (fun _ _ => inl (Failure (txt "timeout") None))
                           (fun _ _ => ret tt) ∅ (World [] [])))
                 (World [] []) (Failure (txt "timeout") None) eq_refl eq_refl).
Defined.

(** What a match of the version pattern at a given place is. *)
Lemma match_at_version (pv : option ascii) (t : str) :
  match_at version_re pv t
  = match strip_prefix (txt "Version ") t with
    | Some (c :: t') =>
        if not_space c then
          Some (RMatch (txt "Version " ++ c :: span not_space t')
                       [(1, c :: span not_space t')] (after_span not_space t'))
        else None
    | _ => None
    end.
Proof.
  unfold match_at, version_re, Plus. cbn [run rest prev caps].
  destruct (strip_prefix (txt "Version ") t) as [s1 |] eqn:Hs1; [| reflexivity].
  destruct s1 as [| c t']; [reflexivity |].
  destruct (not_space c); [| reflexivity].
  etransitivity.
  { apply (rep_chr_greedy rmatch not_space); [intros st; discriminate | lia]. }
  cbn [rest prev caps]. apply strip_prefix_Some in Hs1. subst t.
  f_equal. f_equal.
  - rewrite <- (span_after_span not_space t') at 1.
    change (txt "Version " ++ c :: span not_space t' ++ after_span not_space t')
      with (txt "Version " ++ (c :: span not_space t') ++ after_span not_space t').
    rewrite app_assoc. apply consumed_app.
  - f_equal. f_equal.
    rewrite <- (span_after_span not_space t') at 1.
    apply (consumed_app (c :: span not_space t')).
Qed.

(** A pattern that starts with a literal text has no match in a text that
    does not hold the literal. *)
Lemma search_go_literal (r : regex) (l : str) :
  (forall pv s, startswith s l = false -> match_at r pv s = None) ->
  forall s pv, contains s l = false -> search_go r pv s = None.
Proof.
  intros Hr. induction s as [| c s IH]; intros pv H; cbn [contains] in H;
    apply orb_false_elim in H as [H1 H2]; cbn [search_go]; rewrite (Hr _ _ H1);
    [reflexivity | now apply IH].
Qed.

Lemma version_needs_literal (pv : option ascii) (s : str) :
  startswith s (txt "Version ") = false -> match_at version_re pv s = None.
Proof.
  intros H. rewrite match_at_version. unfold startswith in H.
  now destruct (strip_prefix (txt "Version ") s).
Qed.

(** A prefix of a text that is no longer than a first part of the text is
    a prefix of that part. *)
Lemma startswith_short (p u v : str) :
  startswith (u ++ v) p = true -> length p <= length u -> startswith u p = true.
Proof.
  unfold startswith. revert u. induction p as [| a p IH]; intros u H Hlen; [reflexivity |].
  destruct u as [| b u]; [cbn in Hlen; lia |].
  cbn [app strip_prefix] in *. destruct (bool_decide (a = b)); [| discriminate H].
  apply IH; [exact H | cbn in Hlen; lia].
Qed.

Lemma contains_suffix (a b p : str) : startswith b p = true -> contains (a ++ b) p = true.
Proof.
  intros H. apply startswith_true in H as [s' ->].
  apply contains_true. now exists a, s'.
Qed.

(** The first declaration of a version in a text is the one the pattern
    finds. *)
Lemma version_search (pre w rest : str) :
  contains (pre ++ txt "Version") (txt "Version ") = false ->
  w <> [] -> forallb not_space w = true -> word_end rest ->
  exists m, re_search version_re (pre ++ txt "Version " ++ w ++ rest) = Some m
            /\ group m 1 = w.
Proof.
  intros Hpre Hw Hns Hend. unfold re_search.
  rewrite search_go_skip.
  - destruct w as [| c w]; [contradiction |].
    cbn [forallb] in Hns. apply andb_prop in Hns as [Hc Hns].
    set (S := txt "Version " ++ (c :: w) ++ rest).
    assert (Hm : match_at version_re (last_of pre None) S
                 = Some (RMatch (txt "Version " ++ c :: w) [(1, c :: w)] rest)).
    { rewrite match_at_version. unfold S. rewrite strip_prefix_self.
      cbn [app]. rewrite Hc.
      destruct (span_all not_space w rest Hns) as [-> ->]; [| reflexivity].
      unfold word_end in Hend. destruct rest as [| x rest]; [exact I |].
      unfold not_space. now rewrite Hend. }
    eexists. split.
    + destruct S eqn:E; cbn [search_go]; rewrite Hm; reflexivity.
    + reflexivity.
  - intros a b -> Hb. apply version_needs_literal.
    destruct (startswith (b ++ txt "Version " ++ w ++ rest) (txt "Version ")) eqn:E;
      [| reflexivity].
    exfalso.
    assert (Hs : startswith (b ++ txt "Version") (txt "Version ") = true).
    { apply (startswith_short _ _ (txt " " ++ w ++ rest)).
      - rewrite <- app_assoc. exact E.
      - rewrite length_app. destruct b; [contradiction | cbn; lia]. }
    rewrite <- app_assoc, (contains_suffix a _ _ Hs) in Hpre. discriminate Hpre.
Qed.

Lemma find_model_other (k : str) (items : list regex) (data : str) (d : gmap str str) :
  k <> txt "network_os_model" -> find_model items data d !! k = d !! k.
Proof.
  intros Hk. induction items as [| item items IH]; [reflexivity |].
  cbn [find_model]. destruct (re_search item data); [| exact IH].
  now rewrite lookup_insert_ne.
Qed.

Lemma parse_version_version (reply : str) :
  parse_version reply !! txt "network_os_version"
  = match re_search version_re (strip reply) with
    | Some m => Some (strip_chars is_comma (group m 1))
    | None => None
    end.
Proof.
  unfold parse_version.
  repeat match goal with
         | |- context [match re_search image_re ?s with _ => _ end] =>
             destruct (re_search image_re s)
         | |- context [match re_search hostname_re ?s with _ => _ end] =>
             destruct (re_search hostname_re s)
         | |- (<[txt "network_os_image" := _]> _) !! _ = _ =>
             rewrite lookup_insert_ne by discriminate
         | |- (<[txt "network_os_hostname" := _]> _) !! _ = _ =>
             rewrite lookup_insert_ne by discriminate
         end;
    rewrite find_model_other by discriminate;
    destruct (re_search version_re (strip reply));
    first [apply lookup_insert_eq | now rewrite lookup_insert_ne by discriminate].
Qed.

Lemma get_device_info_fresh
    (ch : list request -> request -> failure + str)
    (update : str -> str -> session unit) (w w1 : world) (reply : str)
    (info : gmap str str) :
  update (txt ")#") (txt "end") w = (w1, inr tt) ->
  ch (sent w1) (req "show version") = inr reply ->
  snd (get_device_info ch update ∅ w) = inr info ->
  exists t, info = <[txt "network_os_type" := t]> (parse_version reply).
Proof.
  intros Hup Hch. unfold get_device_info.
  rewrite bool_decide_eq_true_2 by reflexivity.
  unfold sbind. rewrite Hup.
  rewrite (get_command ch (txt "show version") default_options w1) by discriminate.
  unfold sent_once. fold (req "show version"). rewrite Hch.
  unfold check_device_type.
  rewrite (get_command ch (txt "show vlan")) by discriminate.
  unfold sent_once, ret. cbn [sent caller_list].
  destruct (ch (sent w1 ++ [req "show version"]) _); cbn [snd]; intros [= <-]; eauto.
Qed.

(** X6. The version among the facts of [get_device_info] is read after the
    first "Version " of the answer to "show version", white space at the
    ends of the answer apart: it is the word that follows, up to the next
    white space, without the commas at its ends.  An answer without
    "Version " gives no version. *)
Theorem get_device_info_version
    (ch : list request -> request -> failure + str)
    (update : str -> str -> session unit) (w w1 : world) (reply : str)
    (info : gmap str str) :
  update (txt ")#") (txt "end") w = (w1, inr tt) ->
  ch (sent w1) (req "show version") = inr reply ->
  snd (get_device_info ch update ∅ w) = inr info ->
  (contains (strip reply) (txt "Version ") = false ->
   info !! txt "network_os_version" = None)
  /\ (forall pre word rest,
        strip reply = pre ++ txt "Version " ++ word ++ rest ->
        contains (pre ++ txt "Version") (txt "Version ") = false ->
        word <> [] -> forallb not_space word = true -> word_end rest ->
        info !! txt "network_os_version" = Some (strip_chars is_comma word)).
Proof.
  intros Hup Hch Hinfo.
  destruct (get_device_info_fresh ch update w w1 reply info Hup Hch Hinfo) as [t ->].
  rewrite lookup_insert_ne by discriminate. rewrite parse_version_version. split.
  - intros Hno. unfold re_search.
    now rewrite (search_go_literal version_re (txt "Version ") version_needs_literal).
  - intros pre word rest Hreply Hpre Hw Hns Hend. rewrite Hreply.
    destruct (version_search pre word rest Hpre Hw Hns Hend) as (m & -> & ->). reflexivity.
Qed.

Lemma get_device_info_version_witness :
  (<[txt "network_os_type" := txt "L2"]> (parse_version version_reply))
    !! txt "network_os_version"
  = Some (strip_chars is_comma (txt "15.2(4)M,")).
Proof.
  refine (proj2 (get_device_info_version (fun _ _ => inr version_reply) (fun _ _ => ret tt)
                   (World [] []) (World [] []) version_reply
                   (<[txt "network_os_type" := txt "L2"]> (parse_version version_reply))
                   eq_refl eq_refl _)
            (txt "Cisco IOS Software, C2900 Software (C2900-UNIVERSALK9-M), ")
            (txt "15.2(4)M,") (txt " RELEASE SOFTWARE (fc2)") _ _ _ _ _).
  - reflexivity.
  - vm_compute. reflexivity.
  - vm_compute. reflexivity.
  - discriminate.
  - vm_compute. reflexivity.
  - reflexivity.
Defined.

(** ** Loading banners *)

Lemma send_only_ok (ch : list request -> request -> failure + str) (c : str) (w : world)
    (out : str) :
  ch (sent w) (only c) = inr out ->
  send_only ch c w = (World (sent w ++ [only c]) (caller_list w), inr out).
Proof. intros H. unfold send_only, send_command. fold (only c). now rewrite H. Qed.

Lemma banner_commands_answered (ch : list request -> request -> failure + str)
    (cmds : list str) :
  answers ch ->
  forall requests results w,
    exists outs,
      banner_commands ch cmds requests results w
      = (World (sent w ++ map only cmds) (caller_list w),
         inr (requests ++ cmds, results ++ outs))
      /\ length outs = length cmds.
Proof.
  intros Hans. induction cmds as [| cmd cmds IH]; intros requests results w.
  - exists []. cbn. rewrite !app_nil_r. split; [now destruct w | reflexivity].
  - cbn [banner_commands].
    destruct (Hans (sent w) (only cmd)) as [out Hout].
    rewrite (sbind_ok _ _ _ _ _ (send_only_ok ch cmd w out Hout)).
    destruct (IH (requests ++ [cmd]) (results ++ [out])
                 (World (sent w ++ [only cmd]) (caller_list w))) as (outs & -> & Hlen).
    exists (out :: outs). cbn [sent caller_list map length].
    rewrite <- !app_assoc. split; [reflexivity | now rewrite Hlen].
Qed.

Lemma banner_items_answered (ch : list request -> request -> failure + str)
    (delimiter : str) (items : list (str * str)) :
  answers ch ->
  forall requests results w,
    exists more,
      banner_items ch delimiter items requests results w
      = (World (sent w ++ concat (map (banner_requests delimiter) items)) (caller_list w),
         inr (requests ++ concat (map (banner_report delimiter) items), results ++ more))
      /\ length more = 4 * length items.
Proof.
  intros Hans. induction items as [| [key value] items IH]; intros requests results w.
  - exists []. cbn. rewrite !app_nil_r. split; [now destruct w | reflexivity].
  - cbn [banner_items].
    destruct (Hans (sent w) (only (txt "config terminal"))) as [o0 H0].
    rewrite (sbind_ok _ _ _ _ _ (send_only_ok ch _ w o0 H0)).
    set (w0 := World (sent w ++ [only (txt "config terminal")]) (caller_list w)).
    destruct (banner_commands_answered ch [key ++ txt " " ++ delimiter; value; delimiter]
                Hans requests results w0) as (outs & Houts & Hlen3).
    rewrite (sbind_ok _ _ _ _ _ Houts).
    set (w3 := World (sent w0 ++ map only [key ++ txt " " ++ delimiter; value; delimiter])
                     (caller_list w0)).
    destruct (Hans (sent w3) (only (txt "end"))) as [o4 H4].
    rewrite (sbind_ok _ _ _ _ _ (send_only_ok ch _ w3 o4 H4)).
    set (w4 := World (sent w3 ++ [only (txt "end")]) (caller_list w3)).
    unfold sleep at 1. rewrite (sbind_ok _ _ w4 w4 tt eq_refl).
    destruct (Hans (sent w4) (Request [nl] default_options)) as [o5 H5].
    rewrite (sbind_ok _ _ w4 _ _ (send_ok ch [nl] w4 o5 H5)).
    cbn [fst snd].
    destruct (IH ((requests ++ [key ++ txt " " ++ delimiter; value; delimiter]) ++ [[nl]])
                 ((results ++ outs) ++ [o5])
                 (World (sent w4 ++ [Request [nl] default_options]) (caller_list w4)))
      as (more & Hmore & Hlen).
    exists ((outs ++ [o5]) ++ more). split.
    + rewrite Hmore.
      unfold w4, w3, w0. cbn [sent caller_list map concat banner_requests
                               banner_report fst snd].
      f_equal; [f_equal |]; [| f_equal; f_equal]; rewrite <- ?app_assoc; reflexivity.
    + rewrite !length_app, Hlen, Hlen3. cbn [length]. lia.
Qed.

(** X7. [edit_banner] decodes its candidate first: an error of the decoder
    is the error of the call, whatever [commit] is, and nothing is sent.
    With [commit] off nothing is sent and the two lists returned are empty.
    With [commit] on and a device that answers, it sends for each banner,
    in the order of the candidate, "config terminal", the key with the
    delimiter, the text, the delimiter and "end" without waiting for an
    answer, then a line end; it reports the key with the delimiter, the
    text, the delimiter and the line end as requests, and as many
    responses: four for each banner. *)
Theorem edit_banner_requests
    (ch : list request -> request -> failure + str)
    (loads : str -> result (list (str * str)))
    (candidate delimiter : str) (w : world) :
  (forall e, loads candidate = inl e ->
     forall commit, edit_banner ch loads candidate delimiter commit w = (w, inl e))
  /\ (forall items, loads candidate = inr items ->
        edit_banner ch loads candidate delimiter false w = (w, inr (Response [] []))
        /\ (answers ch ->
            exists results,
              edit_banner ch loads candidate delimiter true w
              = (World (sent w ++ concat (map (banner_requests delimiter) items))
                       (caller_list w),
                 inr (Response (concat (map (banner_report delimiter) items)) results))
              /\ length results = 4 * length items
              /\ length results = length (concat (map (banner_report delimiter) items)))).
Proof.
  split.
  - intros e He commit. unfold edit_banner. now rewrite He.
  - intros items Hitems. unfold edit_banner. rewrite Hitems. cbn [lift].
    split; [reflexivity |].
    intros Hans. rewrite (sbind_ok _ _ w w items eq_refl).
    destruct (banner_items_answered ch delimiter items Hans [] [] w) as (more & Hmore & Hlen).
    rewrite (sbind_ok _ _ _ _ _ Hmore). cbn [fst snd app].
    exists more. split; [reflexivity |]. split; [exact Hlen |].
    rewrite Hlen. clear. induction items as [| item items IH]; [reflexivity |].
    cbn [map concat]. rewrite length_app, <- IH. cbn [length banner_report]. lia.
Qed.

Lemma edit_banner_requests_witness :
  exists results,
    edit_banner quiet_device (fun _ => inr [(txt "banner motd", txt "hello")])
                (txt "{}") (txt "@") true (World [] [])
    = (World ([] ++ concat (map (banner_requests (txt "@"))
                                [(txt "banner motd", txt "hello")])) [],
       inr (Response (concat (map (banner_report (txt "@"))
                                  [(txt "banner motd", txt "hello")])) results))
    /\ length results = 4 * length [(txt "banner motd", txt "hello")]
    /\ length results
       = length (concat (map (banner_report (txt "@")) [(txt "banner motd", txt "hello")])).
Proof.
  refine (proj2 (proj2 (edit_banner_requests quiet_device
                          (fun _ => inr [(txt "banner motd", txt "hello")])
                          (txt "{}") (txt "@") (World [] []))
                       [(txt "banner motd", txt "hello")] eq_refl) _).
  exact quiet_device_answers.
Defined.

(** ** Leaving configuration mode *)

Lemma search_go_found (r : regex) (s : str) :
  forall pre pv,
    match_at r (last_of pre pv) s <> None -> search_go r pv (pre ++ s) <> None.
Proof.
  induction pre as [| c pre IH]; intros pv H.
  - cbn [app]. destruct s as [| c s]; cbn [search_go];
      change (last_of [] pv) with pv in H; destruct (match_at r pv _); congruence.
  - cbn [app search_go]. destruct (match_at r pv (c :: pre ++ s)); [discriminate |].
    apply IH. now rewrite last_of_cons in H.
Qed.

(** A greedy repetition of a character class succeeds when what follows it
    matches after a run of characters of the class. *)
Lemma rep_chr_succeeds (R : Type) (p : ascii -> bool) (k : mstate -> option R) (t : str) :
  (forall pv cs, k (MState pv t cs) <> None) ->
  forall mid n pv cs,
    forallb p mid = true -> length (mid ++ t) <= n ->
    rep_loop R (run R (Chr p)) true k n (MState pv (mid ++ t) cs) <> None.
Proof.
  intros Hk. induction mid as [| c mid IH]; intros n pv cs Hmid Hn.
  - cbn [app]. destruct n as [| n]; cbn [rep_loop]; [apply Hk |].
    destruct (run R (Chr p) _ _); [discriminate | apply Hk].
  - cbn [forallb] in Hmid. apply andb_prop in Hmid as [Hc Hmid].
    destruct n as [| n]; [cbn in Hn; lia |].
    cbn [app rep_loop run rest caps]. rewrite Hc.
    unfold shorter. cbn [rest length].
    replace (length (mid ++ t) <? S (length (mid ++ t))) with true
      by (symmetry; apply Nat.ltb_lt; lia).
    specialize (IH n (Some c) cs Hmid ltac:(cbn in Hn; lia)).
    destruct (rep_loop R _ true k n _); [discriminate | contradiction].
Qed.

Lemma config_prompt_needs_literal (pv : option ascii) (s : str) :
  startswith s (txt "config") = false -> match_at config_prompt_re pv s = None.
Proof.
  intros H. unfold match_at, config_prompt_re. cbn [run rest]. unfold startswith in H.
  now destruct (strip_prefix (txt "config") s).
Qed.

(** The pattern of the configuration prompt is found in a text that holds
    "config" and, later on the same line, ")#". *)
Lemma config_prompt_found (pre mode post : str) :
  forallb dot mode = true ->
  found config_prompt_re (pre ++ txt "config" ++ mode ++ txt ")#" ++ post) = true.
Proof.
  intros Hmode. unfold found, re_search.
  destruct (search_go config_prompt_re None (pre ++ txt "config" ++ mode ++ txt ")#" ++ post))
    eqn:E; [reflexivity |].
  exfalso. revert E. apply search_go_found.
  unfold match_at, config_prompt_re. cbn [run rest prev caps].
  rewrite strip_prefix_self.
  apply rep_chr_succeeds; [| exact Hmode | cbn [rest]; lia].
  intros pv cs. cbn [run rest]. now rewrite strip_prefix_self.
Qed.

(** X8. [set_cli_prompt_context] does nothing on a connection that is not
    connected, and raises a connection failure, which tells the last
    window received, when the connection has no prompt.  It sends "end",
    once, when the prompt, white space at its ends apart, holds "config"
    and later on the same line ")#", as the prompts of configuration mode
    do; it sends nothing when the prompt does not hold "config". *)
Theorem set_cli_prompt_context_end
    (ch : list request -> request -> failure + str)
    (get_prompt : option str) (window : str) (w : world) :
  set_cli_prompt_context ch false get_prompt window w = (w, inr tt)
  /\ set_cli_prompt_context ch true None window w
     = (w, inl (AnsibleConnectionFailure
                  (Failure (txt "cli prompt is not identified from the last received response window: "
                            ++ window) None)))
  /\ (forall out,
        contains (strip out) (txt "config") = false ->
        set_cli_prompt_context ch true (Some out) window w = (w, inr tt))
  /\ (forall out pre mode post,
        strip out = pre ++ txt "config" ++ mode ++ txt ")#" ++ post ->
        forallb dot mode = true ->
        fst (set_cli_prompt_context ch true (Some out) window w)
        = World (sent w ++ [req "end"]) (caller_list w)
        /\ (forall answer, ch (sent w) (req "end") = inr answer ->
            snd (set_cli_prompt_context ch true (Some out) window w) = inr tt)
        /\ (forall f, ch (sent w) (req "end") = inl f ->
            snd (set_cli_prompt_context ch true (Some out) window w)
            = inl (AnsibleConnectionFailure f))).
Proof.
  split; [reflexivity |]. split; [reflexivity |]. split.
  - intros out Hno. unfold set_cli_prompt_context, found, re_search.
    now rewrite (search_go_literal config_prompt_re (txt "config") config_prompt_needs_literal).
  - intros out pre mode post Hout Hmode. unfold set_cli_prompt_context.
    rewrite Hout, (config_prompt_found pre mode post Hmode).
    unfold sbind, send, send_command, ret. fold (req "end").
    destruct (ch (sent w) (req "end")) as [f | answer]; cbn [fst snd];
      (split; [reflexivity |]); split; intros x Hx; congruence.
Qed.

Lemma set_cli_prompt_context_end_witness :
  set_cli_prompt_context quiet_device true (Some (txt "Router#")) [] (World [] [])
  = (World [] [], inr tt)
  /\ fst (set_cli_prompt_context quiet_device true (Some (txt "Router(config-if)#")) []
            (World [] []))
     = World ([] ++ [req "end"]) [].
Proof.
  pose proof (set_cli_prompt_context_end quiet_device None [] (World [] []))
    as (_ & _ & H3 & H4).
  split.
  - apply H3. vm_compute. reflexivity.
  - apply (H4 (txt "Router(config-if)#") (txt "Router(") (txt "-if") []).
    + vm_compute. reflexivity.
    + vm_compute. reflexivity.
Defined.

(** ** Banners to load *)

(** X9. The banners [_diff_banners] gives are banners of [want], and they
    are what has to change: once they are written over [have], nothing is
    left to give; and nothing is given exactly when every banner of [want]
    stands in [have] with the same text. *)
Theorem _diff_banners_converges (want have : gmap str str) :
  _diff_banners want have ⊆ want
  /\ _diff_banners want (_diff_banners want have ∪ have) = ∅
  /\ (_diff_banners want have = ∅ <-> want ⊆ have).
Proof.
  unfold _diff_banners. split; [apply map_filter_subseteq |]. split.
  - apply map_empty. intros k. apply map_lookup_filter_None. right.
    intros v Hv H. cbn [fst snd] in H. apply H. clear H.
    apply lookup_union_Some_raw.
    destruct (decide (have !! k = Some v)) as [Hh | Hh].
    + right. split; [| exact Hh].
      apply map_lookup_filter_None. right. intros v' Hv' H. cbn [fst snd] in H.
      rewrite Hv in Hv'. injection Hv' as <-. contradiction.
    + left. apply map_lookup_filter_Some. now split.
  - split.
    + intros Hempty. apply map_subseteq_spec. intros k v Hv.
      destruct (decide (have !! k = Some v)) as [Hh | Hh]; [exact Hh |].
      exfalso.
      assert (H : filter (fun kv => have !! fst kv <> Some (snd kv)) want !! k = Some v)
        by (apply map_lookup_filter_Some; now split).
      rewrite Hempty in H. discriminate H.
    + intros Hsub. apply map_empty. intros k. apply map_lookup_filter_None. right.
      intros v Hv H. cbn [fst snd] in H. apply H.
      exact (proj1 (map_subseteq_spec want have) Hsub k v Hv).
Qed.

(** ** The diff without comparison *)




(** ** The diff of a text against itself, line by line *)

Lemma parents_before_snoc (t : tree) (c : ConfigLine) :
  (forall k x, t !! k = Some x -> Forall (fun i => i < k) (_parents x)) ->
  Forall (fun i => i < length t) (_parents c) ->
  forall k x, (t ++ [c]) !! k = Some x -> Forall (fun i => i < k) (_parents x).
Proof.
  intros Ht Hc k x Hk.
  destruct (decide (k < length t)) as [Hlt | Hge].
  - rewrite lookup_app_l in Hk by exact Hlt. now apply Ht.
  - rewrite lookup_app_r in Hk by lia.
    destruct (k - length t) as [| j] eqn:Hj; [| now destruct j].
    injection Hk as <-. assert (k = length t) as -> by lia. exact Hc.
Qed.

Lemma parents_before_add_child (t : tree) (p c : nat) :
  (forall k x, t !! k = Some x -> Forall (fun i => i < k) (_parents x)) ->
  forall k x, add_child t p c !! k = Some x -> Forall (fun i => i < k) (_parents x).
Proof.
  intros Ht k x Hk. unfold add_child in Hk. rewrite list_lookup_alter in Hk.
  destruct (decide (p = k)) as [-> | Hne]; [| now apply Ht].
  destruct (t !! k) as [y |] eqn:Hy; [| discriminate Hk].
  injection Hk as <-. cbn [_parents]. now apply Ht.
Qed.

(** Whatever the lines are, [parse] gives a line parents that stand before
    it. *)
Lemma parse_line_parents (G : list regex) (st : pstate) (l : str) :
  parents_before st -> parents_before (parse_line G st l).
Proof.
  intros [Hanc Ht]. unfold parse_line.
  destruct ((length (strip (drop_entry l)) =? 0) || ignore_line G (strip (drop_entry l)));
    [now split |].
  assert (Hlen : forall c, length (config st ++ [c]) = S (length (config st))).
  { intros c. rewrite length_app. cbn [length]. lia. }
  destruct (toplevel l).
  - split; cbn [ancestors config].
    + rewrite Hlen. constructor; [lia | constructor].
    + apply parents_before_snoc; [exact Ht | constructor].
  - set (cl := length _ - 1).
    set (cfg := ConfigLine_ l (strip l) (take cl (ancestors st)) []).
    assert (Hcfg : Forall (fun i => i < length (config st)) (_parents cfg))
      by (cbn [_parents cfg]; now apply Forall_take).
    assert (Ht' : forall k x, (config st ++ [cfg]) !! k = Some x ->
                              Forall (fun i => i < k) (_parents x))
      by now apply parents_before_snoc.
    destruct (length (ancestors st) <? cl).
    + split; cbn [ancestors config]; [| exact Ht'].
      rewrite Hlen. eapply Forall_impl; [exact Hanc |]. cbn. intros; lia.
    + assert (Hanc' : Forall (fun i => i < S (length (config st)))
                        (take cl (ancestors st) ++ [length (config st)])).
      { apply Forall_app. split.
        - eapply Forall_impl; [exact Hcfg |]. cbn. intros; lia.
        - constructor; [lia | constructor]. }
      split; cbn [ancestors config].
      * destruct (_ !! _); [rewrite length_add_child |]; now rewrite Hlen.
      * destruct (_ !! _); [apply parents_before_add_child |]; exact Ht'.
Qed.

Lemma parse_parents (G : list regex) (s : str) (k : nat) (c : ConfigLine) :
  parse G s !! k = Some c -> Forall (fun i => i < k) (_parents c).
Proof.
  unfold parse.
  assert (H : forall ls st, parents_before st ->
                            parents_before (fold_left (parse_line G) ls st)).
  { induction ls as [| l ls IH]; intros st Hst; [exact Hst |].
    cbn [fold_left]. apply IH. now apply parse_line_parents. }
  refine (proj2 (H (split_lines s) (PState [] [0] []) _) k c).
  split; [constructor | intros k' c' Hk'; discriminate Hk'].
Qed.

Lemma obj_in_items (t : tree) (o : obj) : In o (items t) -> obj_in o (items t) = true.
Proof.
  intros H. unfold obj_in. apply existsb_exists. exists o. split; [exact H |].
  apply obj_eqb_refl.
Qed.

Lemma _diff_line_same (t : tree) : _diff_line t (items t) = [].
Proof.
  unfold _diff_line.
  assert (H : forall l, (forall o, In o l -> obj_in o (items t) = true) ->
                        List.filter (fun o => negb (obj_in o (items t))) l = []).
  { induction l as [| o l IH]; intros Hl; [reflexivity |].
    cbn [List.filter]. rewrite (Hl o (or_introl eq_refl)). cbn [negb].
    apply IH. intros o' Ho'. apply Hl. now right. }
  apply H. intros o Ho. now apply obj_in_items.
Qed.

Lemma _diff_strict_same (G : list regex) (s : str) :
  _diff_strict (parse G s) (items (parse G s)) = [].
Proof.
  unfold _diff_strict. set (t := parse G s).
  assert (Hother : match items t with
                   | start_other :: _ => rev (map fresh (obj_parents start_other)) ++ items t
                   | [] => items t
                   end = items t).
  { destruct t as [| c t'] eqn:Et; [reflexivity |].
    cbn [items map]. unfold obj_parents, parents. cbn [fst snd].
    assert (Hc : _parents c = []).
    { pose proof (parse_parents G s 0 c) as H. fold t in H. rewrite Et in H.
      specialize (H eq_refl). destruct (_parents c) as [| i ps]; [reflexivity |].
      apply Forall_cons in H as [H _]. lia. }
    rewrite Hc. reflexivity. }
  rewrite Hother.
  assert (H : forall (l : list obj) n,
             (forall i o, l !! i = Some o -> items t !! (n + i) = Some o) ->
             omap (fun '(index, o) =>
                     match items t !! index with
                     | Some x => if str_eqb (strip (obj_raw o)) (strip (obj_raw x))
                                 then None else Some o
                     | None => Some o
                     end)
                  (imap (fun index o => (n + index, o)) l) = []).
  { induction l as [| o l IH]; intros n Hl; [reflexivity |].
    cbn [imap omap list_omap].
    rewrite (Hl 0 o eq_refl), str_eqb_refl.
    rewrite (imap_ext _ (fun index o => (S n + index, o)) l)
      by (intros; cbn; f_equal; lia).
    apply IH. intros i o' Hi. replace (S n + i) with (n + S i) by lia. now apply Hl. }
  exact (H (items t) 0 (fun i o Hi => Hi)).
Qed.

Lemma difference_same (G : list regex) (s match_ replace_ : str) :
  match_ = txt "line" \/ match_ = txt "strict" ->
  difference (parse G s) (parse G s) [] match_ replace_ = inr [].
Proof.
  intros Hm. unfold difference. cbn [length Nat.eqb negb andb bind].
  assert (Hup : (if str_eqb match_ (txt "line") then _diff_line (parse G s) (items (parse G s))
                 else if str_eqb match_ (txt "strict")
                      then _diff_strict (parse G s) (items (parse G s))
                      else _diff_exact (parse G s) (items (parse G s))) = []).
  { destruct Hm as [-> | ->].
    - change (str_eqb (txt "line") (txt "line")) with true. cbv iota. apply _diff_line_same.
    - change (str_eqb (txt "strict") (txt "line")) with false.
      change (str_eqb (txt "strict") (txt "strict")) with true. cbv iota.
      apply _diff_strict_same. }
  rewrite Hup. now destruct (str_eqb replace_ (txt "block")).
Qed.

(** X11. With the match "line" or "strict", no path and no line to ignore,
    the diff of a text without double line end against itself is empty,
    for the lines and for the banners, whether lines or blocks are to be
    replaced. *)
Theorem get_diff_same_text (G : list regex) (X : str) (diff_match_ diff_replace_ : str) :
  diff_match_ = txt "line" \/ diff_match_ = txt "strict" ->
  diff_replace_ = txt "line" \/ diff_replace_ = txt "block" ->
  collapsed X = X ->
  get_diff G (Some X) (Some X) diff_match_ [] [] diff_replace_ = inr (Diff [] ∅).
Proof.
  intros Hm Hr Hsame. unfold get_diff.
  assert (Hvalid : str_in diff_match_ (diff_match get_option_values) = true)
    by (destruct Hm as [-> | ->]; reflexivity).
  assert (Hvalid' : str_in diff_replace_ (diff_replace get_option_values) = true)
    by (destruct Hr as [-> | ->]; reflexivity).
  assert (Hexact : str_eqb diff_match_ (txt "exact") = false)
    by (destruct Hm as [-> | ->]; reflexivity).
  assert (Hnone : str_eqb diff_match_ (txt "none") = false)
    by (destruct Hm as [-> | ->]; reflexivity).
  rewrite Hvalid, Hvalid', Hexact, Hnone, andb_false_r. cbn [negb].
  unfold collapsed, blank_line in Hsame. rewrite Hsame.
  destruct (_extract_banners X) as [src b] eqn:Hx.
  cbv zeta. cbn [default]. rewrite andb_true_r.
  destruct X as [| c X].
  - cbn in Hx. injection Hx as <- <-. reflexivity.
  - unfold id. cbn [length Nat.eqb negb]. rewrite Hx.
    unfold add_ignore. rewrite app_nil_r, new_parse, (difference_same G src _ _ Hm).
    cbn [bind]. now rewrite _diff_banners_same.
Qed.

Lemma get_diff_same_text_witness :
  get_diff DEFAULT_IGNORE_LINES_RE (Some repeated_head) (Some repeated_head)
           (txt "strict") [] [] (txt "block")
  = inr (Diff [] ∅).
Proof.
  apply (get_diff_same_text DEFAULT_IGNORE_LINES_RE repeated_head (txt "strict") (txt "block")).
  - now right.
  - now right.
  - vm_compute. reflexivity.
Defined.

(** ** Failures while a configuration is applied *)

(** The loop over a prefix of lines that the device answers. *)
Lemma edit_lines_until (ch : list request -> request -> failure + str)
    (pre more : list Cliconf.line) :
  Forall (fun l => line_command l <> []) pre ->
  forall requests results w,
    first_failure (outcomes ch (sent w) (map line_request (List.filter kept pre))) = None ->
    edit_lines ch (pre ++ more) requests results w
    = edit_lines ch more
        (requests ++ map line_command (List.filter kept pre))
        (results ++ map answer_text
                      (outcomes ch (sent w) (map line_request (List.filter kept pre))))
        (World (sent w ++ map line_request (List.filter kept pre)) (caller_list w)).
Proof.
  intros Hpre. induction Hpre as [| l pre Hl Hpre IH]; intros requests results w Hok.
  - cbn. rewrite !app_nil_r. now destruct w.
  - cbn [app edit_lines List.filter] in *. rewrite (is_sent_kept l Hl).
    destruct (kept l).
    + cbn [map outcomes first_failure] in Hok.
      destruct (ch (sent w) (line_request l)) as [f | out] eqn:Hout; [discriminate Hok |].
      rewrite (sbind_ok _ _ _ _ _ (send_command_ok ch _ w out Hout)).
      rewrite IH by exact Hok. cbn [map outcomes sent caller_list answer_text]. rewrite Hout.
      cbn [answer_text]. now rewrite <- !app_assoc.
    + now apply IH.
Qed.

(** X12. When the device fails on a line of the candidate, [edit_config]
    raises the failure and stops there: the lines before have been sent,
    the line that failed is the last request, and neither the lines after
    it, nor "end", nor "configure confirm" are sent. *)
Theorem edit_config_stops_at_failure
    (ch : list request -> request -> failure + str) (o : plugin_options)
    (check : device_operations -> arg -> bool -> option str -> option str -> result unit)
    (candidate : arg) (replace_ comment : option str) (w w1 : world)
    (pre post : list Cliconf.line) (l : Cliconf.line) (f : failure) :
  check get_device_operations candidate true replace_ comment = inr tt ->
  configure ch o w = (w1, inr tt) ->
  to_list candidate = pre ++ l :: post ->
  Forall (fun l => line_command l <> []) (pre ++ [l]) ->
  kept l = true ->
  let sent_before := map line_request (List.filter kept pre) in
  first_failure (outcomes ch (sent w1) sent_before) = None ->
  ch (sent w1 ++ sent_before) (line_request l) = inl f ->
  edit_config ch o check candidate true replace_ comment w
  = (World (sent w1 ++ sent_before ++ [line_request l]) (caller_list w1),
     inl (AnsibleConnectionFailure f)).
Proof.
  intros Hcheck Hcfg Hlist Hne Hkept sent_before Hok Hfail.
  apply Forall_app in Hne as [Hpre Hl]. apply Forall_cons in Hl as [Hl _].
  unfold edit_config. rewrite Hcheck. cbn [lift].
  rewrite (sbind_ok _ _ w w tt eq_refl).
  rewrite (sbind_ok _ _ _ _ _ Hcfg).
  apply sbind_err. rewrite Hlist.
  rewrite (edit_lines_until ch pre (l :: post) Hpre [] [] w1 Hok).
  cbn [edit_lines]. rewrite (is_sent_kept l Hl), Hkept.
  apply sbind_err. unfold send_command. cbn [sent caller_list].
  fold sent_before. rewrite Hfail. now rewrite <- app_assoc.
Qed.

Lemma edit_config_stops_at_failure_witness :
  edit_config failing_device (PluginOptions false None 30%Z) (fun _ _ _ _ _ => inr tt)
              (AList [Plain (txt "hostname R1"); Plain (txt "router bgp 1");
                      Plain (txt "neighbor 10.0.0.1 remote-as 2")])
              true None None (World [] [])
  = (World ([req "configure terminal"]
            ++ map line_request (List.filter kept [Plain (txt "hostname R1")])
            ++ [line_request (Plain (txt "router bgp 1"))]) [],
     inl (AnsibleConnectionFailure (Failure (txt "timeout") None))).
Proof.
  apply (edit_config_stops_at_failure failing_device (PluginOptions false None 30%Z)
           (fun _ _ _ _ _ => inr tt) _ None None (World [] [])
           (World [req "configure terminal"] [])
           [Plain (txt "hostname R1")] [Plain (txt "neighbor 10.0.0.1 remote-as 2")]
           (Plain (txt "router bgp 1")) (Failure (txt "timeout") None)).
  - reflexivity.
  - vm_compute. reflexivity.
  - reflexivity.
  - repeat constructor; discriminate.
  - vm_compute. reflexivity.
  - vm_compute. reflexivity.
  - vm_compute. reflexivity.
Defined.

(** ** Macros that are too short *)

(** X13. [edit_macro] needs the header and the delimiter of the macro: on
    a list of one element, once the capability check has passed and the
    device has answered "config terminal", it takes the element as the
    header and raises the [IndexError] of a pop from an empty list for the
    delimiter; "config terminal" is the only request sent, and the caller's
    list is left empty.  With [commit] off, a candidate that passes the
    check is left alone: nothing is sent and two empty lists are returned,
    where [edit_config] raises. *)
Theorem edit_macro_short_list
    (ch : list request -> request -> failure + str)
    (check : device_operations -> arg -> bool -> option str -> option str -> result unit)
    (replace_ comment : option str) (w : world) :
  (forall x out,
     caller_list w = [x] ->
     check get_device_operations (AList [Plain x]) true replace_ comment = inr tt ->
     ch (sent w) (req "config terminal") = inr out ->
     edit_macro ch check true replace_ comment w
     = (World (sent w ++ [req "config terminal"]) [],
        inl (IndexError (txt "pop from empty list"))))
  /\ (caller_list w <> [] ->
      check get_device_operations (AList (map Plain (caller_list w))) false replace_ comment
      = inr tt ->
      edit_macro ch check false replace_ comment w = (w, inr (Response [] []))).
Proof.
  split.
  - intros x out Hl Hcheck Hout. unfold edit_macro.
    rewrite (sbind_ok _ _ w w (caller_list w) eq_refl).
    rewrite Hl. cbn [map]. rewrite Hcheck. cbn [lift].
    rewrite (sbind_ok _ _ w w tt eq_refl).
    erewrite sbind_ok by (apply send_ok; exact Hout).
    erewrite sbind_ok by reflexivity.
    erewrite sbind_ok by (unfold pop_first; cbn [caller_list sent]; rewrite Hl; reflexivity).
    apply sbind_err. reflexivity.
  - intros _ Hcheck. unfold edit_macro.
    rewrite (sbind_ok _ _ w w (caller_list w) eq_refl).
    rewrite Hcheck. reflexivity.
Qed.

Lemma edit_macro_short_list_witness :
  edit_macro quiet_device (fun _ _ _ _ _ => inr tt) true None None
             (World [] [txt "macro name m1"])
  = (World ([] ++ [req "config terminal"]) [],
     inl (IndexError (txt "pop from empty list")))
  /\ edit_macro quiet_device (fun _ _ _ _ _ => inr tt) false None None
                (World [] [txt "macro name m1"])
     = (World [] [txt "macro name m1"], inr (Response [] [])).
Proof.
  pose proof (edit_macro_short_list quiet_device (fun _ _ _ _ _ => inr tt) None None
                (World [] [txt "macro name m1"])) as [H1 H2].
  split.
  - apply (H1 (txt "macro name m1") []); reflexivity.
  - apply H2; [discriminate | reflexivity].
Defined.

(** ** Commands that ask for an output format *)

Lemma run_lines_app (ch : list request -> request -> failure + str)
    (pre more : list Cliconf.line) :
  forallb no_output pre = true ->
  forall responses w,
    run_lines ch false (pre ++ more) responses w
    = run_lines ch false more
        (responses ++ map reply_text (outcomes ch (sent w) (map line_request pre)))
        (World (sent w ++ map line_request pre) (caller_list w)).
Proof.
  induction pre as [| l pre IH]; intros Hno responses w.
  - cbn. rewrite !app_nil_r. now destruct w.
  - cbn [forallb] in Hno. apply andb_prop in Hno as [Hl Hpre].
    cbn [app]. rewrite (no_output_step _ _ _ _ _ _ Hl).
    unfold sbind. rewrite (try_send_outcome ch _ false).
    destruct (ch (sent w) (line_request l)) as [f | out] eqn:Hch;
      rewrite (IH Hpre); cbn [sent caller_list map outcomes]; rewrite Hch;
      cbn [reply_text map]; now rewrite <- !app_assoc.
Qed.

(** X14. [run_commands] without commands raises a [ValueError] and sends
    nothing.  A command that asks for an output format makes it raise a
    [ValueError] when its turn comes: with [check_rc] off, the commands
    before it have been sent by then, this one and those after it are
    not. *)
Theorem run_commands_rejects_output
    (ch : list request -> request -> failure + str) (w : world) :
  (forall check_rc,
     run_commands ch ANone check_rc w
     = (w, inl (ValueError (txt "'commands' value is required"))))
  /\ (forall commands pre l post x,
        commands <> ANone ->
        to_list commands = pre ++ l :: post ->
        forallb no_output pre = true ->
        line_output l = Some x -> x <> [] ->
        run_commands ch commands false w
        = (World (sent w ++ map line_request pre) (caller_list w),
           inl (ValueError (txt "'output' value " ++ x
                            ++ txt " is not supported for run_commands")))).
Proof.
  split; [reflexivity |].
  intros commands pre l post x Hc Hlist Hpre Hout Hx.
  assert (Hrun : run_commands ch commands false w
                 = run_lines ch false (to_list commands) [] w)
    by (destruct commands; [contradiction | reflexivity | reflexivity]).
  rewrite Hrun, Hlist, (run_lines_app ch pre (l :: post) Hpre).
  cbn [run_lines]. rewrite Hout. destruct x as [| c x]; [contradiction | reflexivity].
Qed.

Lemma run_commands_rejects_output_witness :
  run_commands quiet_device
    (AList [Plain (txt "show clock");
            Mapping (txt "show version") default_options (Some (txt "json"))])
    false (World [] [])
  = (World ([] ++ map line_request [Plain (txt "show clock")]) [],
     inl (ValueError (txt "'output' value " ++ txt "json"
                      ++ txt " is not supported for run_commands"))).
Proof.
  apply (proj2 (run_commands_rejects_output quiet_device (World [] []))
           _ [Plain (txt "show clock")]
           (Mapping (txt "show version") default_options (Some (txt "json"))) []
           (txt "json")).
  - discriminate.
  - reflexivity.
  - reflexivity.
  - reflexivity.
  - discriminate.
Defined.

(** ** The banners of a text *)

(** A match of [re.finditer] is a match at some place of the text. *)
Lemma matches_go_In (r : regex) (m : rmatch) :
  forall s pv skip,
    In m (matches_go r pv skip s) -> exists pv' s', match_at r pv' s' = Some m.
Proof.
  induction s as [| c s IH]; intros pv skip H.
  - destruct skip; cbn [matches_go] in H; [| contradiction].
    destruct (match_at r pv []) eqn:E; [| contradiction].
    destruct H as [<- | []]. eauto.
  - destruct skip as [| skip]; cbn [matches_go] in H.
    + destruct (match_at r pv (c :: s)) eqn:E.
      * destruct H as [<- | H]; [eauto | now apply IH in H].
      * now apply IH in H.
    + now apply IH in H.
Qed.

Lemma banner_decl_group (pv : option ascii) (t : str) (m : rmatch) :
  match_at banner_decl pv t = Some m ->
  group m 1 <> [] /\ forallb is_word (group m 1) = true.
Proof.
  rewrite match_at_banner_decl.
  destruct (at_bol _); [| discriminate].
  destruct (strip_prefix (txt "banner ") t) as [[| c t'] |]; try discriminate.
  destruct (is_word c) eqn:Hc; [| discriminate].
  intros [= <-]. unfold group. cbn [m_caps assoc_cap Nat.eqb default id].
  split; [discriminate |]. cbn [forallb]. now rewrite Hc, span_forallb.
Qed.

Lemma banner_body_needs_literal (name : str) (pv : option ascii) (s : str) :
  startswith s (declaration name) = false -> match_at (banner_body name) pv s = None.
Proof.
  unfold startswith, declaration, match_at, banner_body. rewrite strip_prefix_app.
  intros H. cbn [run rest prev caps].
  destruct (strip_prefix (txt "banner ") s) as [s1 |]; [| reflexivity].
  rewrite strip_prefix_app in H.
  destruct (strip_prefix name s1) as [s2 |]; [| reflexivity].
  destruct (strip_prefix (txt " ^C") s2) as [s3 |]; [discriminate H | reflexivity].
Qed.

Lemma banner_body_declared (name config : str) (m : rmatch) :
  re_search (banner_body name) config = Some m ->
  contains config (declaration name) = true.
Proof.
  intros H. destruct (contains config (declaration name)) eqn:E; [reflexivity |].
  unfold re_search in H.
  rewrite (search_go_literal (banner_body name) (declaration name)
             (banner_body_needs_literal name) config None E) in H.
  discriminate H.
Qed.

(** The first loop of [_extract_banners] records banners of the names it
    is given only, with the texts it finds for them. *)
Lemma banners_fold_found (config : str) (names : list str) :
  forall (cmds : list str) (acc : gmap str str),
    (forall x, In x cmds -> In x names) ->
    (forall k v, acc !! k = Some v -> found_banner config names k v) ->
    forall k v,
      fold_left
        (fun (banners : gmap str str) cmd =>
           match re_search (banner_body cmd) config with
           | Some m' => <[banner_key cmd := strip (group m' 1)]> banners
           | None => banners
           end) cmds acc !! k = Some v ->
      found_banner config names k v.
Proof.
  induction cmds as [| cmd cmds IH]; intros acc Hsub Hacc k v H; [now apply Hacc |].
  cbn [fold_left] in H. revert H. apply IH.
  - intros x Hx. apply Hsub. now right.
  - intros k' v' Hk'.
    destruct (re_search (banner_body cmd) config) as [m |] eqn:Hm; [| now apply Hacc].
    destruct (decide (k' = banner_key cmd)) as [-> | Hne].
    + rewrite lookup_insert_eq in Hk'. injection Hk' as <-.
      exists cmd, m. split; [reflexivity |]. split; [apply Hsub; now left | now split].
    + rewrite lookup_insert_ne in Hk' by congruence. now apply Hacc.
Qed.

(** X15. Every banner that [_extract_banners] returns is a banner of the
    text: its key is "banner " and a name, one or more word characters,
    the text holds the declaration of the name with its opening delimiter
    "^C", and the body recorded has no white space at either end. *)
Theorem extract_banners_keys (config k v : str) :
  snd (_extract_banners config) !! k = Some v ->
  exists name,
    k = txt "banner " ++ name
    /\ name <> [] /\ forallb is_word name = true
    /\ contains config (declaration name) = true
    /\ strip v = v.
Proof.
  unfold _extract_banners. cbn [snd]. intros H.
  apply (banners_fold_found config
           (map (fun m => group m 1) (re_finditer banner_decl config))) in H.
  - destruct H as (name & m & -> & Hin & Hm & ->).
    exists name. split; [reflexivity |].
    apply in_map_iff in Hin as (m0 & <- & Hm0).
    destruct (matches_go_In banner_decl m0 config None 0 Hm0) as (pv & s' & Hat).
    destruct (banner_decl_group pv s' m0 Hat) as [Hne Hw].
    split; [exact Hne |]. split; [exact Hw |].
    split; [exact (banner_body_declared _ _ _ Hm) | apply strip_idem].
  - intros x Hx. exact Hx.
  - intros k' v' Hk'. rewrite lookup_empty in Hk'. discriminate Hk'.
Qed.

Lemma extract_banners_keys_witness :
  exists name,
    txt "banner motd" = txt "banner " ++ name
    /\ name <> [] /\ forallb is_word name = true
    /\ contains motd_candidate (declaration name) = true
    /\ strip (txt "hello") = txt "hello".
Proof.
  apply (extract_banners_keys motd_candidate (txt "banner motd") (txt "hello")).
  vm_compute. reflexivity.
Defined.

(** ** The flag of the defaults *)

Lemma is_linebreak_space (c : ascii) : is_linebreak c = true -> is_space c = true.
Proof.
  unfold is_linebreak, is_space, between. cbv zeta.
  rewrite !orb_true_iff, !andb_true_iff, !Nat.leb_le, !Nat.eqb_eq. lia.
Qed.

Lemma word_of_rstrip (u : str) : word_of (rstrip u) = word_of u.
Proof.
  induction u as [| c u IH]; [reflexivity |].
  destruct (is_space c) eqn:Hc.
  - cbn [word_of]. rewrite Hc.
    destruct (rstrip_prefix (c :: u)) as [v Hv].
    destruct (rstrip (c :: u)) as [| x r]; [reflexivity |].
    cbn [app] in Hv. injection Hv as <- _. cbn [word_of]. now rewrite Hc.
  - rewrite (rstrip_cons_keep c u Hc). cbn [word_of]. now rewrite Hc, IH.
Qed.

(** The first word of a line is that of the stripped line. *)
Lemma first_word_strip (l : str) : first_word (strip l) = first_word l.
Proof.
  unfold first_word, strip, lstrip.
  destruct (drop_ws l) as [| c u] eqn:Hu; [reflexivity |].
  assert (Hc : is_space c = false).
  { pose proof (drop_ws_idem l) as H. rewrite Hu in H. cbn [drop_ws] in H.
    destruct (is_space c) eqn:E; [| reflexivity].
    exfalso. pose proof (drop_ws_length u) as Hlen.
    apply (f_equal (@length ascii)) in H. cbn [length] in H. lia. }
  rewrite <- (word_of_rstrip (c :: u)).
  rewrite (rstrip_cons_keep c u Hc). cbn [drop_ws]. now rewrite Hc.
Qed.

Lemma first_word_blank (l : str) : (length (strip l) =? 0) = true -> first_word l = [].
Proof.
  intros H. rewrite <- first_word_strip. now destruct (strip l).
Qed.

(** The first words of the lines of a text. *)
Lemma first_words_In (out w : str) :
  In w (first_words out) <-> exists l, In l (splitlines out) /\ first_word l = w /\ w <> [].
Proof.
  unfold first_words. rewrite in_map_iff. split.
  - intros (l & <- & Hl). apply filter_In in Hl as [Hl Hne].
    exists l. rewrite first_word_strip. split; [exact Hl |]. split; [reflexivity |].
    intros E. rewrite <- first_word_strip in E.
    unfold first_word, lstrip in E. apply negb_true_iff in Hne.
    pose proof (strip_idem l) as Hs. unfold strip at 1, lstrip in Hs.
    destruct (drop_ws (strip l)) as [| c u] eqn:Hd.
    + unfold rstrip in Hs. cbn in Hs. rewrite <- Hs in Hne. discriminate Hne.
    + cbn [word_of] in E.
      assert (Hc : is_space c = false).
      { pose proof (drop_ws_idem (strip l)) as H. rewrite Hd in H. cbn [drop_ws] in H.
        destruct (is_space c) eqn:E'; [| reflexivity].
        exfalso. pose proof (drop_ws_length u) as Hlen.
        apply (f_equal (@length ascii)) in H. cbn [length] in H. lia. }
      rewrite Hc in E. discriminate E.
  - intros (l & Hl & <- & Hne). exists l. rewrite first_word_strip.
    split; [reflexivity |]. apply filter_In. split; [exact Hl |].
    apply negb_true_iff. destruct (length (strip l) =? 0) eqn:E; [| reflexivity].
    now apply first_word_blank in E.
Qed.

(** *** The lines of an answer *)

Lemma nl_linebreak : is_linebreak nl = true.
Proof. reflexivity. Qed.

(** After a line end a new line starts. *)
Lemma splitlines_go_line_end (s : str) :
  forall n p cur,
    length p <= n ->
    exists ls, splitlines_go cur (p ++ nl :: s) = ls ++ splitlines_go [] s.
Proof.
  induction n as [| n IH]; intros p cur Hn.
  - destruct p as [| c p]; [| cbn in Hn; lia].
    exists [rev cur]. cbn [app splitlines_go]. rewrite nl_linebreak.
    destruct s as [| c' s'']; reflexivity.
  - destruct p as [| c p].
    + exists [rev cur]. cbn [app splitlines_go]. rewrite nl_linebreak.
      destruct s as [| c' s'']; reflexivity.
    + cbn [app splitlines_go]. destruct (is_linebreak c).
      * destruct p as [| c' p'].
        -- cbn [app]. destruct ((code c =? 13) && (code nl =? 10)).
           ++ now exists [rev cur].
           ++ destruct (IH [] [] ltac:(cbn; lia)) as [ls Hls]. cbn [app] in Hls.
              rewrite Hls. now exists (rev cur :: ls).
        -- cbn [app]. destruct ((code c =? 13) && (code c' =? 10)).
           ++ destruct (IH p' [] ltac:(cbn in Hn; lia)) as [ls Hls].
              rewrite Hls. now exists (rev cur :: ls).
           ++ destruct (IH (c' :: p') [] ltac:(cbn in Hn |- *; lia)) as [ls Hls].
              cbn [app] in Hls. rewrite Hls. now exists (rev cur :: ls).
      * apply IH. cbn in Hn. lia.
Qed.

Lemma splitlines_line_start (pre s : str) :
  ends_line pre -> exists ls, splitlines (pre ++ s) = ls ++ splitlines s.
Proof.
  unfold splitlines. intros [-> | [p ->]]; [now exists [] |].
  rewrite <- app_assoc. apply (splitlines_go_line_end s (length p) p []). lia.
Qed.

Lemma splitlines_go_inside (t : str) :
  forall u cur,
    forallb (fun c => negb (is_linebreak c)) u = true ->
    splitlines_go cur (u ++ t) = splitlines_go (rev u ++ cur) t.
Proof.
  induction u as [| c u IH]; intros cur Hu; [reflexivity |].
  cbn [forallb] in Hu. apply andb_prop in Hu as [Hc Hu]. apply negb_true_iff in Hc.
  cbn [app splitlines_go]. rewrite Hc, (IH _ Hu). cbn [rev]. now rewrite <- app_assoc.
Qed.

Lemma after_span_head (p : ascii -> bool) (s : str) :
  match after_span p s with c :: _ => p c = false | [] => True end.
Proof.
  induction s as [| c s IH]; [exact I |].
  cbn [after_span]. destruct (p c) eqn:E; [exact IH | exact E].
Qed.

(** A text that starts a line and holds no line end up to [t] is a line. *)
Lemma splitlines_first (u rest : str) :
  u <> [] -> forallb (fun c => negb (is_linebreak c)) u = true ->
  In (u ++ span (fun c => negb (is_linebreak c)) rest) (splitlines (u ++ rest)).
Proof.
  intros Hne Hu. unfold splitlines.
  set (p := fun c => negb (is_linebreak c)) in *.
  rewrite <- (span_after_span p rest) at 2. rewrite app_assoc.
  rewrite splitlines_go_inside
    by (rewrite forallb_app; fold p; now rewrite Hu, span_forallb).
  rewrite app_nil_r.
  pose proof (after_span_head p rest) as Hh.
  destruct (after_span p rest) as [| c t].
  - cbn [splitlines_go].
    destruct (rev (u ++ span p rest)) eqn:E.
    + apply (f_equal (@rev ascii)) in E. rewrite rev_involutive in E. cbn in E.
      destruct u; [contradiction | discriminate E].
    + left. rewrite <- E. apply rev_involutive.
  - cbn [splitlines_go]. unfold p in Hh. apply negb_false_iff in Hh. rewrite Hh.
    left. apply rev_involutive.
Qed.

Lemma drop_ws_all (a b : str) : forallb is_space a = true -> drop_ws (a ++ b) = drop_ws b.
Proof.
  induction a as [| c a IH]; intros H; [reflexivity |].
  cbn [forallb] in H. apply andb_prop in H as [Hc Ha].
  cbn [app drop_ws]. now rewrite Hc, IH.
Qed.

Lemma word_of_end (r : str) : word_end r -> word_of r = [].
Proof.
  unfold word_end. destruct r as [| c r]; [reflexivity |].
  intros H. cbn [word_of]. now rewrite H.
Qed.

(** A line that holds "all" after its indentation, as a word, has the
    first word "all". *)
Lemma first_word_all (ind rest : str) :
  forallb is_indent ind = true -> word_end rest ->
  first_word (ind ++ txt "all" ++ span (fun c => negb (is_linebreak c)) rest) = txt "all".
Proof.
  intros Hind Hend. unfold first_word, lstrip.
  rewrite drop_ws_all.
  - change (drop_ws (txt "all" ++ span (fun c => negb (is_linebreak c)) rest))
      with (txt "all" ++ span (fun c => negb (is_linebreak c)) rest).
    change (word_of (txt "all" ++ span (fun c => negb (is_linebreak c)) rest))
      with (txt "all" ++ word_of (span (fun c => negb (is_linebreak c)) rest)).
    rewrite word_of_end; [reflexivity |].
    unfold word_end in *. destruct rest as [| c rest]; [exact I |].
    cbn [span]. destruct (negb (is_linebreak c)); [exact Hend | exact I].
  - apply forallb_forall. intros c Hc.
    pose proof (proj1 (forallb_forall _ _) Hind c Hc) as H.
    unfold is_indent in H. now apply andb_prop in H as [H _].
Qed.

(** A line of a text is a part of the text. *)
Lemma splitlines_go_part (l : str) :
  forall n s cur,
    length s <= n ->
    In l (splitlines_go cur s) -> exists a b, rev cur ++ s = a ++ l ++ b.
Proof.
  induction n as [| n IH]; intros s cur Hn H.
  - destruct s as [| c s]; [| cbn in Hn; lia].
    cbn [splitlines_go] in H. destruct cur as [| x cur]; [contradiction |].
    destruct H as [<- | []]. exists [], []. now rewrite !app_nil_r.
  - destruct s as [| c s].
    + cbn [splitlines_go] in H. destruct cur as [| x cur]; [contradiction |].
      destruct H as [<- | []]. exists [], []. now rewrite !app_nil_r.
    + cbn [splitlines_go] in H. destruct (is_linebreak c).
      * destruct H as [<- | H]; [now exists [], (c :: s) |].
        destruct s as [| c' s'']; [contradiction |].
        destruct ((code c =? 13) && (code c' =? 10)).
        -- apply IH in H as (a & b & Hab); [| cbn in Hn; lia]. cbn [rev app] in Hab.
           exists (rev cur ++ [c; c'] ++ a), b. rewrite Hab, <- !app_assoc. reflexivity.
        -- apply IH in H as (a & b & Hab); [| cbn in Hn |- *; lia]. cbn [rev app] in Hab.
           exists (rev cur ++ [c] ++ a), b. rewrite Hab, <- !app_assoc. reflexivity.
      * apply IH in H as (a & b & Hab); [| cbn in Hn; lia].
        exists a, b. rewrite <- Hab. cbn [rev]. now rewrite <- app_assoc.
Qed.

Lemma word_of_prefix (s : str) : exists x, s = word_of s ++ x.
Proof.
  induction s as [| c s [x IH]]; [now exists [] |].
  cbn [word_of]. destruct (is_space c); [now exists (c :: s) |].
  exists x. cbn [app]. now rewrite <- IH.
Qed.

(** The first words of the lines of a text are parts of the text. *)
Lemma first_words_part (out w : str) : In w (first_words out) -> contains out w = true.
Proof.
  intros H. apply first_words_In in H as (l & Hl & <- & _).
  unfold splitlines in Hl.
  destruct (splitlines_go_part l (length out) out [] (Nat.le_refl _) Hl) as (a & b & Hab).
  cbn [rev app] in Hab.
  unfold first_word, lstrip.
  destruct (drop_ws_suffix l) as [v Hv]. destruct (word_of_prefix (drop_ws l)) as [x Hx].
  apply contains_true. exists (a ++ v), (x ++ b).
  rewrite Hab. rewrite Hv at 1. rewrite Hx at 1. now rewrite <- !app_assoc.
Qed.

(** X16. [get_defaults_flag] sends the one request "show running-config ?"
    and raises the failure of the device, if any.  Its answer is "all" or
    "full": "all" when a line of the device's answer holds, after its
    indentation, the word "all"; "full" when the answer does not hold
    "all" at all. *)
Theorem get_defaults_flag_all
    (ch : list request -> request -> failure + str) (w : world) :
  (forall f,
     ch (sent w) (req "show running-config ?") = inl f ->
     get_defaults_flag ch w
     = (World (sent w ++ [req "show running-config ?"]) (caller_list w),
        inl (AnsibleConnectionFailure f)))
  /\ (forall out,
        ch (sent w) (req "show running-config ?") = inr out ->
        exists flag,
          get_defaults_flag ch w
          = (World (sent w ++ [req "show running-config ?"]) (caller_list w), inr flag)
          /\ (flag = txt "all" \/ flag = txt "full")
          /\ (contains out (txt "all") = false -> flag = txt "full")
          /\ (forall pre ind rest,
                out = pre ++ ind ++ txt "all" ++ rest ->
                ends_line pre -> forallb is_indent ind = true -> word_end rest ->
                flag = txt "all")).
Proof.
  split.
  - intros f Hf. unfold get_defaults_flag, sbind.
    rewrite (get_command ch (txt "show running-config ?") default_options w) by discriminate.
    unfold sent_once. fold (req "show running-config ?"). now rewrite Hf.
  - intros out Hout.
    exists (if str_in (txt "all") (first_words out) then txt "all" else txt "full").
    split; [| split; [| split]].
    + unfold get_defaults_flag, sbind.
      rewrite (get_command ch (txt "show running-config ?") default_options w)
        by discriminate.
      unfold sent_once. fold (req "show running-config ?"). rewrite Hout.
      now destruct (str_in (txt "all") (first_words out)).
    + destruct (str_in (txt "all") (first_words out)); [now left | now right].
    + intros Hno. destruct (str_in (txt "all") (first_words out)) eqn:E; [| reflexivity].
      apply str_in_In in E. apply first_words_part in E. congruence.
    + intros pre ind rest -> Hpre Hind Hend.
      replace (str_in (txt "all") (first_words (pre ++ ind ++ txt "all" ++ rest)))
        with true; [reflexivity |].
      symmetry. apply str_in_In. apply first_words_In.
      exists (ind ++ txt "all" ++ span (fun c => negb (is_linebreak c)) rest).
      split; [| split; [now apply first_word_all | discriminate]].
      destruct (splitlines_line_start pre (ind ++ txt "all" ++ rest) Hpre) as [ls ->].
      apply in_or_app. right.
      replace (ind ++ txt "all" ++ rest) with ((ind ++ txt "all") ++ rest)
        by now rewrite <- app_assoc.
      replace (ind ++ txt "all" ++ span (fun c => negb (is_linebreak c)) rest)
        with ((ind ++ txt "all") ++ span (fun c => negb (is_linebreak c)) rest)
        by now rewrite <- app_assoc.
      apply splitlines_first.
      * destruct ind; discriminate.
      * rewrite forallb_app. apply andb_true_iff. split; [| reflexivity].
        apply forallb_forall. intros c Hc.
        pose proof (proj1 (forallb_forall _ _) Hind c Hc) as H.
        unfold is_indent in H. now apply andb_prop in H as [_ H].
Qed.

Lemma get_defaults_flag_all_witness :
  get_defaults_flag (fun _ _ => inr defaults_help) (World [] [])
  = (World ([] ++ [req "show running-config ?"]) [], inr (txt "all")).
Proof.
  destruct (proj2 (get_defaults_flag_all (fun _ _ => inr defaults_help) (World [] []))
              defaults_help eq_refl) as (flag & Hrun & _ & _ & Hall).
  rewrite Hrun. do 2 f_equal.
  apply (Hall (txt "  aaa-user  AAA user definition" ++ [nl]) (txt "  ")
              (txt "       Configuration with defaults" ++ [nl]
               ++ txt "  brief     configuration without certificate data")).
  - vm_compute. reflexivity.
  - right. now exists (txt "  aaa-user  AAA user definition").
  - vm_compute. reflexivity.
  - reflexivity.
Defined.
